(** * wrench: schema export to files ([cmd/load.go])

    A shallow embedding of the export commands [load] and [loadDiscrete]
    together with the helpers they call, and the properties of the export
    pipeline proved over it.

    Layout of the development:
    - [GoStrings]  the functions of Go's [strings], [path], [path/filepath]
                   and [unicode/utf8] packages that the command calls;
    - [GoScan]     [bufio.Scanner] with the default line splitter;
    - [OS]         a file system: the system calls behind [os.Stat],
                   [os.MkdirAll], [os.RemoveAll], [os.Open], [ioutil.WriteFile];
    - [Json]       a decoder for the two-field configuration document;
    - [Cmd]       the functions of [cmd/load.go];
    - the theorems. *)

From Stdlib Require Import Ascii String ZArith Lia.
From stdpp Require Import base tactics option list strings gmap fin_maps.

Local Open Scope Z_scope.

(* ===================================================================== *)
(** * Go library functions on strings and paths                          *)
(* ===================================================================== *)

Module GoStrings.

(** Go strings are byte sequences; [string] is a list of 8-bit [ascii]. *)

Definition byteval (c : ascii) : Z := Z.of_nat (nat_of_ascii c).

(** [len(s)] *)
Definition len (s : string) : nat := String.length s.

(** [s[i:]] for [i <= len(s)] *)
Fixpoint drop_str (i : nat) (s : string) : string :=
  match i, s with
  | O, _ => s
  | S i', String _ s' => drop_str i' s'
  | S _, EmptyString => EmptyString
  end.

(** [s[:i]] for [i <= len(s)] *)
Fixpoint take_str (i : nat) (s : string) : string :=
  match i, s with
  | O, _ => EmptyString
  | S i', String c s' => String c (take_str i' s')
  | S _, EmptyString => EmptyString
  end.

(** [strings.HasPrefix]: [len(s) >= len(prefix) && s[:len(prefix)] == prefix] *)
Definition HasPrefix (s prefix : string) : bool :=
  (len prefix <=? len s)%nat && String.eqb (take_str (len prefix) s) prefix.

(** [strings.HasSuffix]:
    [len(s) >= len(suffix) && s[len(s)-len(suffix):] == suffix] *)
Definition HasSuffix (s suffix : string) : bool :=
  (len suffix <=? len s)%nat &&
  String.eqb (drop_str (len s - len suffix) s) suffix.

(** [strings.Join(elems, sep)] *)
Fixpoint Join (elems : list string) (sep : string) : string :=
  match elems with
  | [] => ""
  | [e] => e
  | e :: rest => e +:+ sep +:+ Join rest sep
  end.

(** ** [unicode/utf8]: width of the first rune of a byte sequence

    [utf8.DecodeRuneInString] returns width 1 for an invalid or truncated
    encoding.  The tables [first] and [acceptRanges] are written out. *)

Definition in_range (lo hi : Z) (c : ascii) : bool :=
  (lo <=? byteval c) && (byteval c <=? hi).

(** size of the encoding announced by the first byte (0: one byte, ASCII
    or invalid), and the range its second byte is accepted in *)
Definition first_info (c : ascii) : nat * (Z * Z) :=
  let b := byteval c in
  if b <? 0xC2 then (0%nat, (0, 0))
  else if b <=? 0xDF then (2%nat, (0x80, 0xBF))
  else if b =? 0xE0 then (3%nat, (0xA0, 0xBF))
  else if b <=? 0xEC then (3%nat, (0x80, 0xBF))
  else if b =? 0xED then (3%nat, (0x80, 0x9F))
  else if b <=? 0xEF then (3%nat, (0x80, 0xBF))
  else if b =? 0xF0 then (4%nat, (0x90, 0xBF))
  else if b <=? 0xF3 then (4%nat, (0x80, 0xBF))
  else if b =? 0xF4 then (4%nat, (0x80, 0x8F))
  else (0%nat, (0, 0)).

Definition runeWidth (s : string) : nat :=
  match s with
  | EmptyString => 0%nat
  | String c0 s1 =>
      let '(sz, (lo, hi)) := first_info c0 in
      match sz with
      | O => 1%nat
      | _ =>
        if (len s <? sz)%nat then 1%nat else
        match s1 with
        | String c1 s2 =>
            if negb (in_range lo hi c1) then 1%nat
            else if (sz <=? 2)%nat then 2%nat
            else match s2 with
                 | String c2 s3 =>
                     if negb (in_range 0x80 0xBF c2) then 1%nat
                     else if (sz <=? 3)%nat then 3%nat
                     else match s3 with
                          | String c3 _ =>
                              if negb (in_range 0x80 0xBF c3) then 1%nat
                              else 4%nat
                          | EmptyString => 1%nat
                          end
                 | EmptyString => 1%nat
                 end
        | EmptyString => 1%nat
        end
      end
  end.

(** ** [strings.ReplaceAll]

    [ReplaceAll(s, old, new) = Replace(s, old, new, -1)]: every
    non-overlapping occurrence of [old], scanning from the left, is replaced
    by [new]; with [old] empty, [new] is inserted before every rune and at
    the end; with [old == new], or no occurrence, [s] is returned. *)

(** [old] not empty: [skip] counts the bytes of a matched occurrence still
    to be dropped. *)
Fixpoint replace_occ (old new : string) (skip : nat) (s : string) : string :=
  match s with
  | EmptyString => EmptyString
  | String c s' =>
      match skip with
      | S k => replace_occ old new k s'
      | O =>
          if HasPrefix s old
          then new +:+ replace_occ old new (len old - 1) s'
          else String c (replace_occ old new 0 s')
      end
  end.

(** [old] empty: [w] counts the bytes of the current rune still to be
    copied before the next insertion. *)
Fixpoint replace_runes (new : string) (w : nat) (s : string) : string :=
  match s with
  | EmptyString => new
  | String c s' =>
      match w with
      | S k => String c (replace_runes new k s')
      | O => new +:+ String c (replace_runes new (runeWidth s - 1) s')
      end
  end.

Definition ReplaceAll (s old new : string) : string :=
  if String.eqb old new then s
  else match old with
       | EmptyString => replace_runes new 0 s
       | _ => replace_occ old new 0 s
       end.

(** ** [path.Clean] and [filepath.Join] (Unix)

    [Clean] drops empty and [.] elements, cancels an inner [..] against the
    element before it, drops [..] at the root, and returns [.] for an empty
    result.  [clean_elems] is the list of elements of the cleaned path. *)

(** the elements between the slashes of [s]; [cur] is the element being
    read, reversed *)
Fixpoint split_slash_aux (cur : list ascii) (s : string) : list string :=
  match s with
  | EmptyString => [string_of_list_ascii (rev cur)]
  | String c s' =>
      if Ascii.eqb c "/"%char
      then string_of_list_ascii (rev cur) :: split_slash_aux [] s'
      else split_slash_aux (c :: cur) s'
  end.

Definition split_slash (s : string) : list string := split_slash_aux [] s.

Definition rooted (s : string) : bool :=
  match s with
  | String c _ => Ascii.eqb c "/"%char
  | EmptyString => false
  end.

(** one element read by [Clean]; [out] is the output so far, last element
    first *)
Definition clean_step (isRooted : bool) (out : list string) (e : string)
  : list string :=
  if String.eqb e "" || String.eqb e "." then out
  else if String.eqb e ".." then
    match out with
    | top :: rest =>
        if String.eqb top ".." then e :: out   (* only when not rooted *)
        else rest
    | [] => if isRooted then [] else [e]
    end
  else e :: out.

Definition clean_elems (s : string) : list string :=
  rev (fold_left (clean_step (rooted s)) (split_slash s) []).

Definition Clean (s : string) : string :=
  if String.eqb s "" then "."
  else
    let es := clean_elems s in
    if rooted s then "/" +:+ Join es "/"
    else match es with
         | [] => "."
         | _ => Join es "/"
         end.

(** [filepath.Join(a, b)]: the elements from the first non-empty one on are
    joined with a slash and cleaned; all empty gives the empty string. *)
Definition filepath_Join (a b : string) : string :=
  if negb (String.eqb a "") then Clean (a +:+ "/" +:+ b)
  else if negb (String.eqb b "") then Clean b
  else "".

End GoStrings.


(* ===================================================================== *)
(** * [bufio.Scanner] with the default split function [ScanLines]       *)
(* ===================================================================== *)

Module GoScan.

(** [bufio.MaxScanTokenSize]: the scanner's buffer never grows beyond this
    size, so a line is delivered only if it fits, terminator included. *)
Definition MaxScanTokenSize : Z := 64 * 1024.

(** [dropCR]: one trailing carriage return is removed; [cur] is reversed *)
Definition dropCR (cur : list ascii) : string :=
  match cur with
  | c :: rest =>
      if Ascii.eqb c "013"%char then string_of_list_ascii (rev rest)
      else string_of_list_ascii (rev cur)
  | [] => EmptyString
  end.

(** The tokens successive calls of [Scan] deliver on the whole input.
    [cur] is the pending line (reversed), [n] its length.  A line of
    [MaxScanTokenSize] bytes or more before its newline fills the buffer:
    [Scan] stops with [ErrTooLong] and delivers nothing more.  An empty
    line is a token (the empty string); an empty final line without
    newline is not. *)
Fixpoint scan_lines (cur : list ascii) (n : Z) (s : string) : list string :=
  match s with
  | EmptyString =>
      if (n =? 0) || (MaxScanTokenSize <=? n) then [] else [dropCR cur]
  | String c s' =>
      if Ascii.eqb c "010"%char then
        if MaxScanTokenSize <=? n then []
        else dropCR cur :: scan_lines [] 0 s'
      else scan_lines (c :: cur) (n + 1) s'
  end.

Definition ScanLines (content : string) : list string :=
  scan_lines [] 0 content.

End GoScan.

(* ===================================================================== *)
(** * The file system                                                     *)
(* ===================================================================== *)

(** The state of the file system is a finite map from locations to nodes.
    A location is a cleaned path: whether it is rooted, and its elements.
    Path names are resolved lexically ([path.Clean], then element by
    element): there are no symbolic links.  The mode of a node is the
    permission argument of the call that created it, that is the mode
    requested of the system, before the process umask is applied: on disk
    the node has these bits less those of the umask.  Permission bits are
    not enforced: the process may search every directory and open every
    file.  The only failures are structural ([ENOENT], [ENOTDIR],
    [EISDIR], [EINVAL]); failures of the environment (a missing
    permission, a read-only or full file system, an input or output error)
    are outside the model, so [os.MkdirAll], [ioutil.WriteFile] and
    [os.RemoveAll] fail here before they change anything or not at all. *)

Module OS.
Import GoStrings.

Inductive errno := ENOENT | ENOTDIR | EISDIR | EINVAL | EBUSY.

#[global] Instance errno_eq_dec : EqDecision errno.
Proof. solve_decision. Defined.

Inductive node :=
| File (mode : Z) (data : string)
| Dir (mode : Z).

#[global] Instance node_eq_dec : EqDecision node.
Proof. solve_decision. Defined.

Abbreviation loc := (bool * list string)%type.

Abbreviation fs := (gmap loc node).

(** The working directory, the root and the ancestors of the working
    directory ([..], [../..], ...) always exist and are directories. *)
Definition is_base (l : loc) : bool := forallb (String.eqb "..") l.2.

Definition base_mode : Z := 7 * 64 + 5 * 8 + 5.

Definition node_at (σ : fs) (l : loc) : option node :=
  if is_base l then Some (Dir base_mode) else σ !! l.

(** The empty path names nothing. *)
Definition loc_of (p : string) : option loc :=
  if String.eqb p "" then None else Some (rooted p, clean_elems p).

(** Search the directories [done ++ [e1]], [done ++ [e1; e2]], ...: the
    first one that is missing or is not a directory is the error. *)
Fixpoint walk (σ : fs) (r : bool) (done rest : list string) : option errno :=
  match rest with
  | [] => None
  | e :: rest' =>
      match node_at σ (r, done ++ [e]) with
      | None => Some ENOENT
      | Some (File _ _) => Some ENOTDIR
      | Some (Dir _) => walk σ r (done ++ [e]) rest'
      end
  end.

(** Resolution of a path name: its location and the node there, if any;
    all the directories on the way must exist. *)
Definition resolve (σ : fs) (p : string) : errno + (loc * option node) :=
  match loc_of p with
  | None => inl ENOENT
  | Some (r, es) =>
      match walk σ r [] (removelast es) with
      | Some e => inl e
      | None => inr ((r, es), node_at σ (r, es))
      end
  end.

(** [os.Stat] *)
Definition Stat (σ : fs) (p : string) : errno + node :=
  match resolve σ p with
  | inl e => inl e
  | inr (_, None) => inl ENOENT
  | inr (_, Some n) => inr n
  end.

(** [os.IsNotExist] *)
Definition IsNotExist (e : option errno) : bool :=
  match e with Some ENOENT => true | _ => false end.

(** [os.MkdirAll]: every missing directory on the way to [p], and [p]
    itself, is created with [perm]; a regular file on the way is
    [ENOTDIR]. *)
Fixpoint mkdir_all (σ : fs) (r : bool) (done rest : list string) (perm : Z)
  : fs * option errno :=
  match rest with
  | [] => (σ, None)
  | e :: rest' =>
      let cur := (r, done ++ [e]) in
      match node_at σ cur with
      | None => mkdir_all (<[cur := Dir perm]> σ) r (done ++ [e]) rest' perm
      | Some (Dir _) => mkdir_all σ r (done ++ [e]) rest' perm
      | Some (File _ _) => (σ, Some ENOTDIR)
      end
  end.

Definition MkdirAll (σ : fs) (p : string) (perm : Z) : fs * option errno :=
  match loc_of p with
  | None => (σ, Some ENOENT)
  | Some (r, es) => mkdir_all σ r [] es perm
  end.

(** [ioutil.WriteFile]: open with [O_WRONLY|O_CREATE|O_TRUNC] and [perm],
    write, close.  An existing file keeps its mode. *)
Definition WriteFile (σ : fs) (p : string) (data : string) (perm : Z)
  : fs * option errno :=
  match resolve σ p with
  | inl e => (σ, Some e)
  | inr (_, Some (Dir _)) => (σ, Some EISDIR)
  | inr (l, Some (File m _)) => (<[l := File m data]> σ, None)
  | inr (l, None) => (<[l := File perm data]> σ, None)
  end.

(** [l] or a location below it *)
Definition under (l k : loc) : Prop := k.1 = l.1 ∧ l.2 `prefix_of` k.2.

#[global] Instance under_dec l k : Decision (under l k).
Proof. unfold under. apply _. Defined.

Definition endsWithDot (p : string) : bool :=
  String.eqb p "." || HasSuffix p "/.".

(** [os.RemoveAll]: the empty path and a path that does not exist are no
    errors; a path ending in a dot is [EINVAL]; a regular file on the way
    is [ENOTDIR]; otherwise the node and all below it are removed.
    Removing the root, the working directory or one of its ancestors is
    not modelled and reported as [EBUSY]. *)
Definition RemoveAll (σ : fs) (p : string) : fs * option errno :=
  if String.eqb p "" then (σ, None)
  else if endsWithDot p then (σ, Some EINVAL)
  else match loc_of p with
       | None => (σ, None)
       | Some (r, es) =>
           if is_base (r, es) then (σ, Some EBUSY)
           else match walk σ r [] (removelast es) with
                | Some ENOENT => (σ, None)
                | Some e => (σ, Some e)
                | None => (filter (λ kv, ¬ under (r, es) kv.1) σ, None)
                end
       end.

(** An open file: a regular file with its content, or a directory, whose
    reads fail. *)
Inductive handle := HFile (data : string) | HDir.

(** [os.Open] *)
Definition Open (σ : fs) (p : string) : errno + handle :=
  match Stat σ p with
  | inl e => inl e
  | inr (File _ d) => inr (HFile d)
  | inr (Dir _) => inr HDir
  end.

(** What can be read from a [*os.File]; [None] is the nil pointer, on
    which [Read] returns [os.ErrInvalid]. The boolean tells whether the
    read ended with an error other than [io.EOF]. *)
Definition read_all (f : option handle) : string * bool :=
  match f with
  | Some (HFile d) => (d, false)
  | Some HDir => ("", true)
  | None => ("", true)
  end.

End OS.

(* ===================================================================== *)
(** * The configuration record and its JSON decoder                       *)
(* ===================================================================== *)

(** [type staticDataConfig struct]: a nil slice and a nil map are the empty
    list and the empty map. *)
Record staticDataConfig := mkConfig {
  StaticDataTables : list string;
  CustomOrderBy : gmap string string
}.

#[global] Instance staticDataConfig_eq_dec : EqDecision staticDataConfig.
Proof. solve_decision. Defined.

(** the zero value, [var d staticDataConfig] *)
Definition zeroConfig : staticDataConfig := mkConfig [] ∅.

(** Go's [error] values met by the command *)
Inductive error :=
| PathError (e : OS.errno)            (* package [os] *)
| SyntaxError (msg : string)          (* [*json.SyntaxError] *)
| UnmarshalTypeError (field : string) (* [*json.UnmarshalTypeError] *)
| ClientError (msg : string)          (* the Spanner client *)
| CmdError (err : error).             (* [&Error{err: err, cmd: c}] *)

#[global] Instance error_eq_dec : EqDecision error.
Proof. solve_decision. Defined.

(** [encoding/json]: [json.Unmarshal(data, &d)] for [d] a zero
    [staticDataConfig].  The input is first checked against the JSON
    grammar as a whole (an error leaves [d] untouched), then stored into
    the struct; a value of the wrong type is skipped, the first such
    mismatch is the error returned, and the other fields are still
    stored. *)
Module Json.
Import GoStrings.

#[local] Unset Elimination Schemes.
Inductive jvalue :=
| JNull
| JBool (b : bool)
| JNum
| JStr (s : string)
| JArr (elems : list jvalue)
| JObj (members : list (string * jvalue)).
#[local] Set Elimination Schemes.

Definition unexpected_end : error := SyntaxError "unexpected end of JSON input".
Definition invalid_character : error := SyntaxError "invalid character".
Definition max_depth : error := SyntaxError "exceeded max depth".

Definition maxNestingDepth : Z := 10000.

Definition is_ws (c : ascii) : bool :=
  match c with
  | " "%char | "009"%char | "010"%char | "013"%char => true
  | _ => false
  end.

Fixpoint skip_ws (l : list ascii) : list ascii :=
  match l with
  | c :: r => if is_ws c then skip_ws r else l
  | [] => []
  end.

Definition is_digit (c : ascii) : bool := in_range 48 57 c.

Definition hexval (c : ascii) : option Z :=
  let b := byteval c in
  if in_range 48 57 c then Some (b - 48)
  else if in_range 97 102 c then Some (b - 87)
  else if in_range 65 70 c then Some (b - 55)
  else None.

(** [getu4]: the code unit of a [\uXXXX] escape at the head of [l] *)
Definition getu4 (l : list ascii) : option (Z * list ascii) :=
  match l with
  | "\"%char :: "u"%char :: a :: b :: c :: d :: r =>
      match hexval a, hexval b, hexval c, hexval d with
      | Some x3, Some x2, Some x1, Some x0 =>
          Some (x3 * 4096 + x2 * 256 + x1 * 16 + x0, r)
      | _, _, _, _ => None
      end
  | _ => None
  end.

Definition byte_of (z : Z) : ascii := ascii_of_nat (Z.to_nat z).

(** [utf8.EncodeRune] (as [AppendRune]) *)
Definition encodeRune (r : Z) : list ascii :=
  if r <? 0x80 then [byte_of r]
  else if r <? 0x800 then
    [byte_of (Z.lor 0xC0 (Z.shiftr r 6));
     byte_of (Z.lor 0x80 (Z.land r 0x3F))]
  else if (0x10FFFF <? r) || ((0xD800 <=? r) && (r <=? 0xDFFF)) then
    [byte_of 0xEF; byte_of 0xBF; byte_of 0xBD]
  else if r <? 0x10000 then
    [byte_of (Z.lor 0xE0 (Z.shiftr r 12));
     byte_of (Z.lor 0x80 (Z.land (Z.shiftr r 6) 0x3F));
     byte_of (Z.lor 0x80 (Z.land r 0x3F))]
  else
    [byte_of (Z.lor 0xF0 (Z.shiftr r 18));
     byte_of (Z.lor 0x80 (Z.land (Z.shiftr r 12) 0x3F));
     byte_of (Z.lor 0x80 (Z.land (Z.shiftr r 6) 0x3F));
     byte_of (Z.lor 0x80 (Z.land r 0x3F))].

Definition ReplacementChar : Z := 0xFFFD.

Definition isSurrogate (r : Z) : bool := (0xD800 <=? r) && (r <? 0xE000).

(** [utf16.DecodeRune] *)
Definition utf16_DecodeRune (r1 r2 : Z) : Z :=
  if (0xD800 <=? r1) && (r1 <? 0xDC00) && (0xDC00 <=? r2) && (r2 <? 0xE000)
  then Z.lor (Z.shiftl (r1 - 0xD800) 10) (r2 - 0xDC00) + 0x10000
  else ReplacementChar.

(** A string literal after its opening quote: the scanner's checks and
    [unquote] in one pass.  [copy] counts the bytes of a well-formed
    multi-byte rune still to be copied; [out] is reversed. *)
Fixpoint parse_string (fuel : nat) (copy : nat) (out : list ascii)
    (l : list ascii) : error + (string * list ascii) :=
  match fuel with
  | O => inl unexpected_end
  | S f =>
    match l with
    | [] => inl unexpected_end
    | c :: r =>
      match copy with
      | S k => parse_string f k (c :: out) r
      | O =>
        if Ascii.eqb c "034"%char
        then inr (string_of_list_ascii (rev out), r)
        else if byteval c <? 32 then inl invalid_character
        else if Ascii.eqb c "\"%char then
          match r with
          | [] => inl unexpected_end
          | e :: r' =>
            let plain (x : ascii) := parse_string f 0 (x :: out) r' in
            match e with
            | "034"%char | "\"%char | "/"%char => plain e
            | "b"%char => plain "008"%char
            | "f"%char => plain "012"%char
            | "n"%char => plain "010"%char
            | "r"%char => plain "013"%char
            | "t"%char => plain "009"%char
            | "u"%char =>
              match getu4 l with
              | None =>
                  if (length r' <? 4)%nat then inl unexpected_end
                  else inl invalid_character
              | Some (rr, r1) =>
                if isSurrogate rr then
                  let dec := match getu4 r1 with
                             | Some (rr1, _) => utf16_DecodeRune rr rr1
                             | None => ReplacementChar
                             end in
                  if negb (dec =? ReplacementChar) then
                    match getu4 r1 with
                    | Some (_, r2) =>
                        parse_string f 0 (rev (encodeRune dec) ++ out) r2
                    | None => inl invalid_character
                    end
                  else
                    parse_string f 0 (rev (encodeRune ReplacementChar) ++ out) r1
                else parse_string f 0 (rev (encodeRune rr) ++ out) r1
              end
            | _ => inl invalid_character
            end
          end
        else if byteval c <? 128 then parse_string f 0 (c :: out) r
        else
          let w := runeWidth (string_of_list_ascii l) in
          if (w <=? 1)%nat
          then parse_string f 0 (rev (encodeRune ReplacementChar) ++ out) r
          else parse_string f (w - 1) (c :: out) r
      end
    end
  end.

Fixpoint skip_digits (l : list ascii) : list ascii :=
  match l with
  | c :: r => if is_digit c then skip_digits r else l
  | [] => []
  end.

(** at least one digit, then the rest *)
Definition digits1 (l : list ascii) : error + list ascii :=
  match l with
  | [] => inl unexpected_end
  | c :: r => if is_digit c then inr (skip_digits r) else inl invalid_character
  end.

Definition parse_exp (l : list ascii) : error + list ascii :=
  match l with
  | "e"%char :: r | "E"%char :: r =>
      match r with
      | "+"%char :: r' | "-"%char :: r' => digits1 r'
      | _ => digits1 r
      end
  | _ => inr l
  end.

Definition parse_frac (l : list ascii) : error + list ascii :=
  match l with
  | "."%char :: r =>
      match digits1 r with
      | inl e => inl e
      | inr r' => parse_exp r'
      end
  | _ => parse_exp l
  end.

(** a number: an optional minus sign, [0] or a digit from 1 to 9 followed
    by digits, an optional fraction and an optional exponent *)
Definition parse_number (l : list ascii) : error + list ascii :=
  let l1 := match l with "-"%char :: r => r | _ => l end in
  match l1 with
  | [] => inl unexpected_end
  | "0"%char :: r => parse_frac r
  | c :: r =>
      if is_digit c then parse_frac (skip_digits r) else inl invalid_character
  end.

(** the remaining letters of [true], [false] or [null] *)
Fixpoint parse_literal (word l : list ascii) : error + list ascii :=
  match word with
  | [] => inr l
  | w :: word' =>
      match l with
      | [] => inl unexpected_end
      | c :: r =>
          if Ascii.eqb c w then parse_literal word' r
          else inl invalid_character
      end
  end.

(** A value, the members of an object after its first brace or a comma,
    and the elements of an array.  Every call consumes input, so the
    length of the input is fuel enough. *)
Fixpoint parse_value (fuel : nat) (depth : Z) (l : list ascii)
  : error + (jvalue * list ascii) :=
  match fuel with
  | O => inl unexpected_end
  | S f =>
    match skip_ws l with
    | [] => inl unexpected_end
    | "{"%char :: r =>
        if maxNestingDepth <? depth + 1 then inl max_depth
        else match skip_ws r with
             | "}"%char :: r' => inr (JObj [], r')
             | _ => parse_members f (depth + 1) [] r
             end
    | "["%char :: r =>
        if maxNestingDepth <? depth + 1 then inl max_depth
        else match skip_ws r with
             | "]"%char :: r' => inr (JArr [], r')
             | _ => parse_elems f (depth + 1) [] r
             end
    | "034"%char :: r =>
        match parse_string (S (length r)) 0 [] r with
        | inl e => inl e
        | inr (s, r') => inr (JStr s, r')
        end
    | "t"%char :: r =>
        match parse_literal (list_ascii_of_string "rue") r with
        | inl e => inl e
        | inr r' => inr (JBool true, r')
        end
    | "f"%char :: r =>
        match parse_literal (list_ascii_of_string "alse") r with
        | inl e => inl e
        | inr r' => inr (JBool false, r')
        end
    | "n"%char :: r =>
        match parse_literal (list_ascii_of_string "ull") r with
        | inl e => inl e
        | inr r' => inr (JNull, r')
        end
    | c :: r =>
        if Ascii.eqb c "-"%char || is_digit c then
          match parse_number (c :: r) with
          | inl e => inl e
          | inr r' => inr (JNum, r')
          end
        else inl invalid_character
    end
  end
with parse_members (fuel : nat) (depth : Z) (acc : list (string * jvalue))
    (l : list ascii) : error + (jvalue * list ascii) :=
  match fuel with
  | O => inl unexpected_end
  | S f =>
    match skip_ws l with
    | [] => inl unexpected_end
    | "034"%char :: r =>
        match parse_string (S (length r)) 0 [] r with
        | inl e => inl e
        | inr (k, r1) =>
          match skip_ws r1 with
          | [] => inl unexpected_end
          | ":"%char :: r2 =>
            match parse_value f depth r2 with
            | inl e => inl e
            | inr (v, r3) =>
              match skip_ws r3 with
              | [] => inl unexpected_end
              | ","%char :: r4 => parse_members f depth ((k, v) :: acc) r4
              | "}"%char :: r4 => inr (JObj (rev ((k, v) :: acc)), r4)
              | _ => inl invalid_character
              end
            end
          | _ => inl invalid_character
          end
        end
    | _ => inl invalid_character
    end
  end
with parse_elems (fuel : nat) (depth : Z) (acc : list jvalue)
    (l : list ascii) : error + (jvalue * list ascii) :=
  match fuel with
  | O => inl unexpected_end
  | S f =>
    match parse_value f depth l with
    | inl e => inl e
    | inr (v, r) =>
      match skip_ws r with
      | [] => inl unexpected_end
      | ","%char :: r' => parse_elems f depth (v :: acc) r'
      | "]"%char :: r' => inr (JArr (rev (v :: acc)), r')
      | _ => inl invalid_character
      end
    end
  end.

(** [checkValid] and the parse: one value, then white space only *)
Definition parse (data : string) : error + jvalue :=
  let l := list_ascii_of_string data in
  match parse_value (S (S (length l))) 0 l with
  | inl e => inl e
  | inr (v, r) =>
      match skip_ws r with
      | [] => inr v
      | _ => inl invalid_character
      end
  end.

(** ** Storing into the struct *)

Definition lower (c : ascii) : ascii :=
  if in_range 65 90 c then byte_of (byteval c + 32) else c.

(** A key names a field if it equals the field's name under Unicode simple
    case folding.  Go field names are ASCII letters here; besides the other
    case of a letter, the Kelvin sign U+212A folds to [k] and the long s
    U+017F to [s]. *)
Fixpoint fold_match (name key : list ascii) : bool :=
  match name with
  | [] => match key with [] => true | _ => false end
  | n :: name' =>
      match key with
      | [] => false
      | k :: key' =>
          if Ascii.eqb (lower n) (lower k) then fold_match name' key'
          else if Ascii.eqb (lower n) "k"%char then
            match key with
            | a :: b :: c :: key3 =>
                (byteval a =? 0xE2) && (byteval b =? 0x84) &&
                (byteval c =? 0xAA) && fold_match name' key3
            | _ => false
            end
          else if Ascii.eqb (lower n) "s"%char then
            match key with
            | a :: b :: key2 =>
                (byteval a =? 0xC5) && (byteval b =? 0xBF) &&
                fold_match name' key2
            | _ => false
            end
          else false
      end
  end.

Definition names_field (field key : string) : bool :=
  fold_match (list_ascii_of_string field) (list_ascii_of_string key).

(** a string element: [null] leaves the destination as it is, a value of
    another type is a mismatch *)
Definition store_string (old : string) (v : jvalue) : string * bool :=
  match v with
  | JStr s => (s, false)
  | JNull => (old, false)
  | _ => (old, true)
  end.

Fixpoint store_elems (old : list string) (elems : list jvalue)
  : list string * bool :=
  match elems with
  | [] => ([], false)
  | v :: elems' =>
      let '(s, bad) := store_string (hd "" old) v in
      let '(rest, bad') := store_elems (tl old) elems' in
      (s :: rest, bad || bad')
  end.

(** into [[]string] *)
Definition store_tables (old : list string) (v : jvalue) : list string * bool :=
  match v with
  | JArr elems => store_elems old elems
  | JNull => ([], false)
  | _ => (old, true)
  end.

(** into [map[string]string]: every member is entered, a mismatched value
    as the empty string *)
Definition store_orderby (old : gmap string string) (v : jvalue)
  : gmap string string * bool :=
  match v with
  | JObj members =>
      fold_left (λ acc kv,
                   let '(s, bad) := store_string "" kv.2 in
                   (<[kv.1 := s]> acc.1, acc.2 || bad))
                members (old, false)
  | JNull => (∅, false)
  | _ => (old, true)
  end.

Definition store_member (acc : staticDataConfig * option error)
    (kv : string * jvalue) : staticDataConfig * option error :=
  let '(d, err) := acc in
  let first (field : string) (bad : bool) :=
    match err with
    | Some _ => err
    | None => if bad then Some (UnmarshalTypeError field) else None
    end in
  if names_field "StaticDataTables" kv.1 then
    let '(t, bad) := store_tables (StaticDataTables d) kv.2 in
    (mkConfig t (CustomOrderBy d), first "StaticDataTables" bad)
  else if names_field "CustomOrderBy" kv.1 then
    let '(m, bad) := store_orderby (CustomOrderBy d) kv.2 in
    (mkConfig (StaticDataTables d) m, first "CustomOrderBy" bad)
  else acc.

Definition Unmarshal (data : string) : staticDataConfig * option error :=
  match parse data with
  | inl e => (zeroConfig, Some e)
  | inr (JObj members) => fold_left store_member members (zeroConfig, None)
  | inr JNull => (zeroConfig, None)
  | inr _ => (zeroConfig, Some (UnmarshalTypeError ""))
  end.

(** for examples: JSON text written with apostrophes for its double
    quotes *)
Fixpoint dq (s : string) : string :=
  match s with
  | EmptyString => EmptyString
  | String c s' =>
      String (if Ascii.eqb c "'"%char then "034"%char else c) (dq s')
  end.

End Json.


(* ===================================================================== *)
(** * [cmd/load.go]                                                       *)
(* ===================================================================== *)

Module Cmd.
Import GoStrings OS.

Definition result (A : Type) : Type := error + A.

(** [spanner.SchemaDDL], as far as the command reads it *)
Record SchemaDDL := mkDDL {
  ObjectType : string;
  Filename : string;
  Statement : string
}.

(** [spanner.StaticData], as far as the command reads it: the table it was
    read from and the statements *)
Record StaticData := mkData {
  TableName : string;
  Statements : list string
}.

(** The Spanner client after a successful connection: what its three
    loading methods return.  Loading does not touch the file system. *)
Record Client := mkClient {
  LoadDDL : result string;
  LoadDDLs : result (list SchemaDDL);
  LoadStaticDatas : list string → gmap string string → result (list StaticData)
}.

(** [*cobra.Command], as far as the command reads it: the value of the
    directory flag *)
Record Command := mkCommand {
  flagDirectory : string
}.

Definition dirTable : string := "table".
Definition dirStaticData : string := "static_data".
Definition dirIndex : string := "index".

(** the permission arguments [0700], [0664] and [0644] *)
Definition perm0700 : Z := 7 * 64.
Definition perm0664 : Z := 6 * 64 + 6 * 8 + 4.
Definition perm0644 : Z := 6 * 64 + 4 * 8 + 4.

(** The steps of the discrete export, recorded as they are called. *)
Inductive step :=
| FetchSchema
| ClearDirectory
| WriteObject (ddl : SchemaDDL)
| ResolveConfig
| FetchStaticData (config : staticDataConfig)
| WriteStaticData (data : StaticData)
| FetchBlob
| WriteBlob.

(** The world a command runs in: the file system, and the steps called so
    far, each with its success. *)
Record world := mkWorld {
  files : fs;
  trace : list (step * bool)
}.

(** A command threads the world and stops at the first error. *)
Definition M (A : Type) : Type := world → result A * world.

Definition ret {A} (a : A) : M A := λ w, (inr a, w).

Definition fail {A} (e : error) : M A := λ w, (inl e, w).

Definition bind {A B} (m : M A) (k : A → M B) : M B := λ w,
  match m w with
  | (inl e, w') => (inl e, w')
  | (inr a, w') => k a w'
  end.

Notation "'let*' x ':=' m 'in' k" := (bind m (λ x, k))
  (at level 10, x binder, k at level 200).

(** One step: run [f] on the file system, record the step, and wrap an
    error as the command does ([&Error{err: err, cmd: c}]). *)
Definition call {A} (s : step) (f : fs → fs * result A) : M A := λ w,
  let '(σ, r) := f (files w) in
  match r with
  | inl e => (inl (CmdError e), mkWorld σ (trace w ++ [(s, false)]))
  | inr a => (inr a, mkWorld σ (trace w ++ [(s, true)]))
  end.

(** [for _, x := range xs { if err := body(x); err != nil { return err } }] *)
Fixpoint forEach {A} (xs : list A) (body : A → M unit) : M unit :=
  match xs with
  | [] => ret tt
  | x :: xs' => let* _ := body x in forEach xs' body
  end.

Definition to_result (r : fs * option error) : fs * result unit :=
  match r with
  | (σ, Some e) => (σ, inl e)
  | (σ, None) => (σ, inr tt)
  end.

Definition pure_step {A} (r : result A) : fs → fs * result A := λ σ, (σ, r).

Section Commands.

(** Declared in other files of package [cmd]: the default name of the
    static data tables file, the paths derived from the flags, and the
    connection to Spanner.  [ToFileName] is a method of
    [spanner.StaticData].  [json_Unmarshal] is [json.Unmarshal] into a zero
    [staticDataConfig]. *)
Variable defaultStaticDataTablesFile : string.
Variable schemaFilePath : Command → string.
Variable staticDataTablesFilePath : Command → string.
Variable newSpannerClient : Command → result Client.
Variable ToFileName : StaticData → string.
Variable json_Unmarshal : string → staticDataConfig * option error.

Definition schemaDirPath (c : Command) : string := flagDirectory c.

(** [openFile]: a missing file is a nil file and no error *)
Definition openFile (σ : fs) (p : string) : option handle * option error :=
  match Open σ p with
  | inl e =>
      if IsNotExist (Some e) then (None, None)
      else (None, Some (PathError e))
  | inr f => (Some f, None)
  end.

(** [readJsonFile]: the error of [openFile] and the error of
    [ioutil.ReadAll] are overwritten; the bytes read are decoded. *)
Definition readJsonFile (σ : fs) (filePath : string)
  : staticDataConfig * option error :=
  let '(f, _) := openFile σ filePath in
  let '(bytes, _) := read_all f in
  json_Unmarshal bytes.

(** [readTxtFile]: every token of the scanner is a table; the scanner's
    error is not looked at.  On a nil file or a directory the first read
    fails and there is no token. *)
Definition readTxtFile (σ : fs) (filePath : string)
  : list string * option error :=
  match openFile σ filePath with
  | (_, Some e) => ([], Some e)
  | (Some (HFile content), None) => (GoScan.ScanLines content, None)
  | (_, None) => ([], None)
  end.

Definition readStaticDataTablesFile (σ : fs) (filePath : string)
  : staticDataConfig * option error :=
  let filePath := Clean filePath in
  if HasSuffix filePath defaultStaticDataTablesFile then
    let jsonPath := ReplaceAll filePath defaultStaticDataTablesFile "wrench.json" in
    let '(sdc, err) := readJsonFile σ jsonPath in
    match err with
    | None => (sdc, None)
    | Some _ =>
        let txtPath :=
          ReplaceAll filePath defaultStaticDataTablesFile "static_data_tables.txt" in
        let '(tables, err) := readTxtFile σ txtPath in
        (mkConfig tables (CustomOrderBy sdc), err)
    end
  else if HasSuffix filePath ".json" then readJsonFile σ filePath
  else if HasSuffix filePath ".txt" then
    let '(tables, err) := readTxtFile σ filePath in
    (mkConfig tables (CustomOrderBy zeroConfig), err)
  else (zeroConfig, None).

(** [mkdir]: what [os.MkdirAll] returns is dropped *)
Definition mkdir (σ : fs) (parent : string) : fs * option error :=
  match Stat σ parent with
  | inl e =>
      if IsNotExist (Some e) then ((MkdirAll σ parent perm0700).1, None)
      else (σ, Some (PathError e))
  | inr _ => (σ, None)
  end.

Definition write_file (σ : fs) (p data : string) (perm : Z) : fs * option error :=
  let '(σ', e) := WriteFile σ p data perm in (σ', PathError <$> e).

Definition writeDDL (ddl : SchemaDDL) (schemaDir : string) (σ : fs)
  : fs * option error :=
  let parent := filepath_Join schemaDir (ObjectType ddl) in
  let file := filepath_Join parent (Filename ddl) in
  match mkdir σ parent with
  | (σ', Some e) => (σ', Some e)
  | (σ', None) => write_file σ' file (Statement ddl) perm0664
  end.

Definition writeData (data : StaticData) (schemaDir : string) (σ : fs)
  : fs * option error :=
  let parent := filepath_Join schemaDir dirStaticData in
  let file := filepath_Join parent (ToFileName data) in
  match mkdir σ parent with
  | (σ', Some e) => (σ', Some e)
  | (σ', None) =>
      write_file σ' file (Join (Statements data) (String "010" "")) perm0644
  end.

Definition remove_all (σ : fs) (p : string) : fs * option error :=
  let '(σ', e) := RemoveAll σ p in (σ', PathError <$> e).

Definition clearSchemaDir (c : Command) (σ : fs) : fs * option error :=
  let tables := filepath_Join (schemaDirPath c) dirTable in
  let indexes := filepath_Join (schemaDirPath c) dirIndex in
  let staticData := filepath_Join (schemaDirPath c) dirStaticData in
  match remove_all σ tables with
  | (σ1, Some e) => (σ1, Some e)
  | (σ1, None) =>
      match remove_all σ1 indexes with
      | (σ2, Some e) => (σ2, Some e)
      | (σ2, None) => remove_all σ2 staticData
      end
  end.

(** [newSpannerClient]: its error is returned as it is *)
Definition connect (c : Command) : M Client := λ w,
  match newSpannerClient c with
  | inl e => (inl e, w)
  | inr client => (inr client, w)
  end.

(** [load] *)
Definition load (c : Command) : M unit :=
  let* client := connect c in
  let* ddl := call FetchBlob (pure_step (LoadDDL client)) in
  call WriteBlob (λ σ, to_result (write_file σ (schemaFilePath c) ddl perm0664)).

(** [loadDiscrete] *)
Definition loadDiscrete (c : Command) : M unit :=
  let* client := connect c in
  let* ddls := call FetchSchema (pure_step (LoadDDLs client)) in
  let* _ := call ClearDirectory (λ σ, to_result (clearSchemaDir c σ)) in
  let* _ := forEach ddls (λ ddl,
    call (WriteObject ddl)
         (λ σ, to_result (writeDDL ddl (schemaDirPath c) σ))) in
  let* config := call ResolveConfig (λ σ,
    match readStaticDataTablesFile σ (staticDataTablesFilePath c) with
    | (_, Some e) => (σ, inl e)
    | (sdc, None) => (σ, inr sdc)
    end) in
  let* datas := call (FetchStaticData config)
    (pure_step (LoadStaticDatas client (StaticDataTables config)
                                        (CustomOrderBy config))) in
  forEach datas (λ d,
    call (WriteStaticData d)
         (λ σ, to_result (writeData d (schemaDirPath c) σ))).

End Commands.

End Cmd.

(* ===================================================================== *)
(** * A concrete installation, to run the commands on                     *)
(* ===================================================================== *)

Module Sample.
Import GoStrings OS Cmd.

Definition defaultFile : string := "{wrench.json|static_data_tables.txt}".

Definition schemaFile (c : Command) : string :=
  filepath_Join (flagDirectory c) "schema.sql".

Definition tablesFile (c : Command) : string :=
  filepath_Join (flagDirectory c) defaultFile.

Definition fileName (d : StaticData) : string := TableName d +:+ ".sql".

Definition lf : string := String "010" "".

(** a directory [schema] holding a text configuration with an empty line *)
Definition disk_txt : fs :=
  {[ (false, ["schema"]) := Dir perm0700;
     (false, ["schema"; "static_data_tables.txt"]) :=
       File perm0644 ("Users" +:+ lf +:+ lf +:+ "Orders" +:+ lf) ]}.

(** the same with a truncated structured configuration next to it *)
Definition disk_both : fs :=
  <[ (false, ["schema"; "wrench.json"]) := File perm0644 "{" ]> disk_txt.

(** the same with a structured configuration whose table list has the
    wrong type *)
Definition disk_mismatch : fs :=
  <[ (false, ["schema"; "wrench.json"]) :=
       File perm0644
         (Json.dq "{'CustomOrderBy': {'Users': 'Id'}, 'StaticDataTables': 7}") ]>
  disk_txt.

(** a regular file where the schema directory should be *)
Definition disk_blocked : fs :=
  {[ (false, ["schema"]) := File perm0644 "" ]}.

(** a well-formed structured configuration next to the text one *)
Definition disk_json : fs :=
  <[ (false, ["schema"; "wrench.json"]) :=
       File perm0644
         (Json.dq "{'StaticDataTables': ['Accounts'], 'CustomOrderBy': {'Accounts': 'Id DESC'}}") ]>
  disk_txt.

(** a line that fills the scanner's buffer *)
Definition long_line : string :=
  string_of_list_ascii (replicate (Z.to_nat GoScan.MaxScanTokenSize) "x"%char).

(** a text configuration whose second line is too long: a third table
    follows it *)
Definition disk_long : fs :=
  {[ (false, ["tables.txt"]) :=
       File perm0644 (("Users" +:+ lf) +:+ long_line +:+ (lf +:+ "Orders" +:+ lf)) ]}.

(** a text configuration written on Windows *)
Definition disk_crlf : fs :=
  {[ (false, ["tables.txt"]) :=
       File perm0644 ("Users" +:+ String "013" lf +:+ "Orders" +:+ String "013" lf) ]}.

(** a text configuration whose last line has no line end *)
Definition disk_noeol : fs :=
  {[ (false, ["tables.txt"]) := File perm0644 ("Users" +:+ lf +:+ "Orders") ]}.

Definition resolve_config (σ : fs) (p : string) :=
  readStaticDataTablesFile defaultFile Json.Unmarshal σ p.

(** a directory [schema] with a text configuration of two tables and a
    file left by an earlier export *)
Definition disk_stale : fs :=
  {[ (false, ["schema"]) := Dir perm0700;
     (false, ["schema"; "static_data_tables.txt"]) :=
       File perm0644 ("Users" +:+ lf +:+ "Orders" +:+ lf);
     (false, ["schema"; "table"]) := Dir perm0700;
     (false, ["schema"; "table"; "Old.sql"]) :=
       File perm0664 "CREATE TABLE Old (Id INT64) PRIMARY KEY (Id)" ]}.

Definition users : SchemaDDL :=
  mkDDL "table" "Users.sql" "CREATE TABLE Users (Id INT64) PRIMARY KEY (Id)".

Definition usersByName : SchemaDDL :=
  mkDDL "index" "UsersByName.sql" "CREATE INDEX UsersByName ON Users (Name)".

Definition rows (table : string) : StaticData :=
  mkData table ["INSERT INTO " +:+ table +:+ " VALUES (1)";
                "INSERT INTO " +:+ table +:+ " VALUES (2)"].

(** a provider with two schema objects and two rows for every table *)
Definition client : Client :=
  mkClient (inr "CREATE TABLE Users (Id INT64) PRIMARY KEY (Id);")
           (inr [users; usersByName])
           (λ tables _, inr (map rows tables)).

Definition connected (c : Command) : result Client := inr client.

Definition cmd : Command := mkCommand "schema".

Definition world0 : world := mkWorld disk_stale [].

Definition export_discrete (w : world) : result unit * world :=
  loadDiscrete defaultFile tablesFile connected fileName Json.Unmarshal cmd w.

Definition export_blob (w : world) : result unit * world :=
  load schemaFile connected cmd w.

End Sample.

(* ===================================================================== *)
(** * Notions of the specification                                        *)
(* ===================================================================== *)

Module Spec.
Import GoStrings OS Cmd.

(** The lines of a text as the specification speaks of them: the pieces
    between line feeds, a last piece without line feed included if it is
    not empty; and those of them that are not empty. *)
Fixpoint spec_lines (cur : list ascii) (s : string) : list string :=
  match s with
  | EmptyString =>
      match cur with [] => [] | _ => [string_of_list_ascii (rev cur)] end
  | String c s' =>
      if Ascii.eqb c "010"%char
      then string_of_list_ascii (rev cur) :: spec_lines [] s'
      else spec_lines (c :: cur) s'
  end.

Definition spec_nonempty_lines (content : string) : list string :=
  filter (λ l, l ≠ "") (spec_lines [] content).

(** the text made of the given lines, each closed by a line feed *)
Fixpoint unlines (ls : list string) : string :=
  match ls with
  | [] => ""
  | l :: ls' => l +:+ String "010" (unlines ls')
  end.

(** the same text with the line ends of Windows: carriage return, line
    feed *)
Fixpoint unlines_crlf (ls : list string) : string :=
  match ls with
  | [] => ""
  | l :: ls' => l +:+ String "013" (String "010" (unlines_crlf ls'))
  end.

Definition no_line_feed (l : string) : Prop :=
  Forall (λ c, c ≠ "010"%char) (list_ascii_of_string l).

(** a line the scanner returns as it is: no line feed in it, no carriage
    return at its end, shorter than the scanner's buffer *)
Definition plain_line (l : string) : Prop :=
  Forall (λ c, c ≠ "010"%char) (list_ascii_of_string l) ∧
  last (list_ascii_of_string l) ≠ Some "013"%char ∧
  Z.of_nat (String.length l) < GoScan.MaxScanTokenSize.

(** ** Shapes of file system states *)

(** A state is a tree: the parent of every node is a directory. *)
Definition wf (σ : fs) : Prop :=
  ∀ r es e n, σ !! (r, es ++ [e]) = Some n →
    ∃ m, node_at σ (r, es) = Some (Dir m).

(** a check of well-formedness that can be run *)
Definition parent_is_dir (σ : fs) (k : loc) : bool :=
  match k.2 with
  | [] => true
  | _ => match node_at σ (k.1, removelast k.2) with
         | Some (Dir _) => true
         | _ => false
         end
  end.

Definition wf_check (σ : fs) : bool :=
  forallb (λ kv, parent_is_dir σ kv.1) (map_to_list σ).

(** same kind and same permission bits *)
Definition sim (n n' : node) : Prop :=
  match n, n' with
  | Dir m, Dir m' => m = m'
  | File m _, File m' _ => m = m'
  | _, _ => False
  end.

(** [τ] has every node of [σ], up to the content of files *)
Definition grows (σ τ : fs) : Prop :=
  ∀ k n, σ !! k = Some n → ∃ n', τ !! k = Some n' ∧ sim n n'.

(** [b] is, at every location, as [a] or as the target [T] *)
Definition replays (T a b : fs) : Prop :=
  ∀ k, b !! k = a !! k ∨ b !! k = T !! k.

(** nodes seen through [node_at] keep their kind from [a] to [b] *)
Definition keeps (a b : fs) : Prop :=
  ∀ k n, node_at a k = Some n → ∃ n', node_at b k = Some n' ∧ sim n n'.

(** ** Cleaned paths *)

Definition no_slash (s : string) : bool :=
  forallb (λ c, negb (Ascii.eqb c "/"%char)) (list_ascii_of_string s).

(** the name of a file or directory: not empty, no slash, not a dot
    element *)
Definition plain_name (s : string) : bool :=
  no_slash s && negb (String.eqb s "") && negb (String.eqb s ".") &&
  negb (String.eqb s "..").

(** the elements of a cleaned path: parent elements first (none when the
    path is rooted), then names *)
Definition clean_list (rt : bool) (es : list string) : Prop :=
  ∃ n body, es = replicate n ".." ++ body ∧
            Forall (λ e, plain_name e = true) body ∧
            (rt = true → n = 0%nat).

(** ** Permission bits

    The nine permission bits of a mode: owner, group, others; read, write,
    execute.  The masks are [0600], [0660], [0077], [0022], [0044] and
    [0111]. *)
Definition owner_rw (m : Z) : Prop := Z.land m 384 = 384.
Definition owner_group_rw (m : Z) : Prop := Z.land m 432 = 432.
(** no bit for the group or for others *)
Definition owner_only (m : Z) : Prop := Z.land m 63 = 0.
Definition group_others_no_write (m : Z) : Prop := Z.land m 18 = 0.
Definition group_others_read (m : Z) : Prop := Z.land m 36 = 36.
Definition not_executable (m : Z) : Prop := Z.land m 73 = 0.

(** ** The three categories of the target directory *)

(** the locations of [root/table], [root/index] and [root/static_data] *)
Definition category_locs (schemaDir : string) : list loc :=
  omap (λ name, loc_of (filepath_Join schemaDir name))
       [dirTable; dirIndex; dirStaticData].

(** a location in one of the three categories *)
Definition in_category (schemaDir : string) (k : loc) : Prop :=
  Exists (λ l, under l k) (category_locs schemaDir).

#[global] Instance in_category_dec schemaDir k : Decision (in_category schemaDir k).
Proof. unfold in_category. apply _. Defined.

(** ** The export seen from the file system *)

(** What [writeDDL] and [writeData] do with a parent directory, a file
    path, the content and the permission bits. *)
Definition write_op (o : string * string * string * Z) (σ : fs)
  : fs * option error :=
  let '(parent, file, data, perm) := o in
  match mkdir σ parent with
  | (σ', Some e) => (σ', Some e)
  | (σ', None) => write_file σ' file data perm
  end.

Definition ddl_op (schemaDir : string) (ddl : SchemaDDL)
  : string * string * string * Z :=
  (filepath_Join schemaDir (ObjectType ddl),
   filepath_Join (filepath_Join schemaDir (ObjectType ddl)) (Filename ddl),
   Statement ddl, perm0664).

Definition data_op (ToFileName : StaticData → string) (schemaDir : string)
    (d : StaticData) : string * string * string * Z :=
  (filepath_Join schemaDir dirStaticData,
   filepath_Join (filepath_Join schemaDir dirStaticData) (ToFileName d),
   Join (Statements d) (String "010" ""), perm0644).

(** the loop over the objects, on the file system alone *)
Fixpoint iter_ops {A} (f : A → fs → fs * option error) (xs : list A) (σ : fs)
  : fs * option error :=
  match xs with
  | [] => (σ, None)
  | x :: xs' =>
      match f x σ with
      | (σ', Some e) => (σ', Some e)
      | (σ', None) => iter_ops f xs' σ'
      end
  end.

(** the state in which the configuration is resolved, in a run that
    starts from [σ] and gets that far: the categories cleared, the schema
    objects written *)
Definition schema_phase (c : Command) (ddls : list SchemaDDL) (σ : fs) : fs :=
  (iter_ops (λ ddl, writeDDL ddl (schemaDirPath c)) ddls
            (clearSchemaDir c σ).1).1.

(** ** The state machine of the discrete export

    [Start → SchemaFetched → DirectoryCleared → ... → StaticDataFetched];
    the schema objects are written in [DirectoryCleared], the static data
    in [StaticDataFetched]; a failed step leads to [Failed], which no step
    leaves. *)
Inductive phase :=
| Start | SchemaFetched | DirectoryCleared | ConfigResolved
| StaticDataFetched | Failed.

#[global] Instance phase_eq_dec : EqDecision phase.
Proof. solve_decision. Defined.

Definition after (ok : bool) (p : phase) : option phase :=
  Some (if ok then p else Failed).

Definition next_phase (p : phase) (ev : step * bool) : option phase :=
  match p, ev.1 with
  | Start, FetchSchema => after ev.2 SchemaFetched
  | SchemaFetched, ClearDirectory => after ev.2 DirectoryCleared
  | DirectoryCleared, WriteObject _ => after ev.2 DirectoryCleared
  | DirectoryCleared, ResolveConfig => after ev.2 ConfigResolved
  | ConfigResolved, FetchStaticData _ => after ev.2 StaticDataFetched
  | StaticDataFetched, WriteStaticData _ => after ev.2 StaticDataFetched
  | _, _ => None
  end.

Fixpoint run_phases (p : phase) (tr : list (step * bool)) : option phase :=
  match tr with
  | [] => Some p
  | ev :: tr' =>
      match next_phase p ev with
      | Some q => run_phases q tr'
      | None => None
      end
  end.

(** the phases in which the directory has been cleared (or the run has
    failed) *)
Definition cleared_phase (p : phase) : bool :=
  match p with Start | SchemaFetched => false | _ => true end.

(** a step that writes an artifact *)
Definition is_write (s : step) : bool :=
  match s with
  | WriteObject _ | WriteStaticData _ => true
  | _ => false
  end.

(** the steps of a complete run *)
Definition full_trace (ddls : list SchemaDDL) (config : staticDataConfig)
    (datas : list StaticData) : list (step * bool) :=
  [(FetchSchema, true); (ClearDirectory, true)] ++
  map (λ ddl, (WriteObject ddl, true)) ddls ++
  [(ResolveConfig, true); (FetchStaticData config, true)] ++
  map (λ d, (WriteStaticData d, true)) datas.

(** the path a schema object and a static data set are written to *)
Definition ddl_path (schemaDir : string) (ddl : SchemaDDL) : string :=
  filepath_Join (filepath_Join schemaDir (ObjectType ddl)) (Filename ddl).

Definition data_path (ToFileName : StaticData → string) (schemaDir : string)
    (d : StaticData) : string :=
  filepath_Join (filepath_Join schemaDir dirStaticData) (ToFileName d).

(** the steps the loop records *)
Fixpoint ops_trace {A} (S : A → step) (f : A → fs → fs * option error)
    (xs : list A) (σ : fs) : list (step * bool) :=
  match xs with
  | [] => []
  | x :: xs' =>
      match f x σ with
      | (_, Some _) => [(S x, false)]
      | (σ', None) => (S x, true) :: ops_trace S f xs' σ'
      end
  end.

(** the location [prefix ++ first (i+1) elements of rest] *)
Definition on_the_way (r : bool) (done rest : list string) (i : nat) : loc :=
  (r, done ++ take (S i) rest).

(** the trace starts with the successful fetch of the schema *)
Ltac fetched_first :=
  let H := fresh in
  intros H; exfalso; apply H; cbn [app]; apply list_elem_of_here.

(** an equation between closed terms, decided by evaluation *)
Ltac by_evaluation :=
  match goal with |- _ = ?r => vm_cast_no_check (@eq_refl _ r) end.

End Spec.

(* ===================================================================== *)
(** * Theorems                                                            *)
(* ===================================================================== *)

Module GoStringsExamples.
Import GoStrings.

Example Clean_ex1 : Clean "a//b/./c/.." = "a/b". Proof. reflexivity. Qed.
Example Clean_ex2 : Clean "/../a/b/../../.." = "/". Proof. reflexivity. Qed.
Example Clean_ex3 : Clean "../a/../../b" = "../../b". Proof. reflexivity. Qed.
Example Clean_ex4 : Clean "a/.." = ".". Proof. reflexivity. Qed.
Example Join_ex1 : filepath_Join "schema" "table" = "schema/table".
Proof. reflexivity. Qed.
Example Join_ex2 : filepath_Join "" "" = "". Proof. reflexivity. Qed.
Example Join_ex3 : filepath_Join "" "x.sql" = "x.sql". Proof. reflexivity. Qed.
Example Join_ex4 : filepath_Join "a" "" = "a". Proof. reflexivity. Qed.
Example Replace_ex1 : ReplaceAll "d/cfg/x" "cfg" "wrench.json" = "d/wrench.json/x".
Proof. reflexivity. Qed.
Example Replace_ex2 : ReplaceAll "aaa" "aa" "b" = "ba". Proof. reflexivity. Qed.
Example Replace_ex3 : ReplaceAll "ab" "" "-" = "-a-b-". Proof. reflexivity. Qed.
Example Suffix_ex1 : HasSuffix "dir/wrench.json" ".json" = true.
Proof. reflexivity. Qed.
Example Suffix_ex2 : HasSuffix "json" ".json" = false. Proof. reflexivity. Qed.

End GoStringsExamples.

Module JsonExamples.
Import Json.

Example Unmarshal_empty :
  Unmarshal "" = (zeroConfig, Some (SyntaxError "unexpected end of JSON input")).
Proof. reflexivity. Qed.

Example Unmarshal_config :
  Unmarshal (dq "{ 'StaticDataTables': ['Users', 'Orders'],
                   'customorderby': {'Users': 'Id DESC'}, 'other': [1.5e3, true] } ") =
  (mkConfig ["Users"; "Orders"] {["Users" := "Id DESC"]}, None).
Proof. vm_compute. reflexivity. Qed.

Example Unmarshal_truncated :
  Unmarshal (dq "{ 'StaticDataTables': ['Users'") =
  (zeroConfig, Some (SyntaxError "unexpected end of JSON input")).
Proof. reflexivity. Qed.

Example Unmarshal_trailing_comma :
  Unmarshal (dq "{ 'StaticDataTables': ['Users',] }") =
  (zeroConfig, Some (SyntaxError "invalid character")).
Proof. reflexivity. Qed.

Example Unmarshal_mismatch :
  Unmarshal (dq "{ 'CustomOrderBy': {'Users': 'Id'}, 'StaticDataTables': 7 }") =
  (mkConfig [] {["Users" := "Id"]}, Some (UnmarshalTypeError "StaticDataTables")).
Proof. vm_compute. reflexivity. Qed.

Example Unmarshal_null : Unmarshal "null" = (zeroConfig, None).
Proof. reflexivity. Qed.

Example Unmarshal_escape :
  StaticDataTables (Unmarshal (dq "{'StaticDataTables':['a\u0041\n\u00e9']}")).1
  = [String "a" (String "A" (String "010" (String "195" (String "169" ""))))].
Proof. reflexivity. Qed.

End JsonExamples.

(* --------------------------------------------------------------------- *)
(** ** The scanner                                                        *)
(* --------------------------------------------------------------------- *)

Module ScanFacts.
Import GoStrings GoScan Spec.

Lemma append_nil (s : string) : "" +:+ s = s.
Proof. reflexivity. Qed.

Lemma append_cons c (l s : string) : String c l +:+ s = String c (l +:+ s).
Proof. reflexivity. Qed.

Lemma string_of_list_ascii_inv (s : string) :
  string_of_list_ascii (list_ascii_of_string s) = s.
Proof. apply string_of_list_ascii_of_string. Qed.

(** A line without line feed, followed by a line feed: one token, unless
    the pending line does not fit the buffer. *)
Lemma scan_lines_line (l : string) : ∀ cur n rest,
  Forall (λ c, c ≠ "010"%char) (list_ascii_of_string l) →
  scan_lines cur n (l +:+ String "010" rest) =
  if MaxScanTokenSize <=? n + Z.of_nat (String.length l) then []
  else dropCR (rev (list_ascii_of_string l) ++ cur) :: scan_lines [] 0 rest.
Proof.
  induction l as [|c l IH]; intros cur n rest Hl.
  - rewrite append_nil. cbn [scan_lines String.length list_ascii_of_string rev app].
    rewrite Z.add_0_r. reflexivity.
  - rewrite append_cons. cbn [list_ascii_of_string] in Hl.
    inversion Hl as [|? ? Hc Hl']; subst.
    cbn [scan_lines].
    destruct (Ascii.eqb_spec c "010"%char) as [->|_]; [done|].
    rewrite IH by done.
    cbn [String.length list_ascii_of_string rev].
    replace (n + 1 + Z.of_nat (String.length l))
      with (n + Z.of_nat (S (String.length l))) by lia.
    by rewrite <- app_assoc.
Qed.

Lemma dropCR_plain (l : string) :
  last (list_ascii_of_string l) ≠ Some "013"%char →
  dropCR (rev (list_ascii_of_string l)) = l.
Proof.
  intros Hlast. unfold dropCR.
  pose proof (string_of_list_ascii_inv l) as E. revert E Hlast.
  generalize (list_ascii_of_string l). intros cs.
  destruct cs as [|c cs _] using rev_ind; intros E Hlast.
  - by rewrite <- E.
  - rewrite rev_app_distr. cbn [rev app].
    rewrite last_snoc in Hlast.
    destruct (Ascii.eqb_spec c "013"%char) as [->|_]; [done|].
    cbn [rev]. by rewrite rev_involutive.
Qed.

(** A text of plain lines is scanned into exactly these lines, the empty
    ones included. *)
Lemma ScanLines_unlines (ls : list string) :
  Forall plain_line ls → ScanLines (unlines ls) = ls.
Proof.
  unfold ScanLines. induction ls as [|l ls IH]; intros H; [done|].
  inversion H as [|? ? (Hlf & Hcr & Hlen) Hls]; subst.
  cbn [unlines]. rewrite scan_lines_line by done.
  rewrite Z.add_0_l.
  destruct (Z.leb_spec MaxScanTokenSize (Z.of_nat (String.length l))); [lia|].
  rewrite app_nil_r, dropCR_plain by done.
  by rewrite IH.
Qed.

End ScanFacts.

(* --------------------------------------------------------------------- *)
(** ** The configuration resolver                                         *)
(* --------------------------------------------------------------------- *)

Module Resolver.
Import GoStrings OS Cmd Spec.

Section Resolver.

Variable defaultStaticDataTablesFile : string.
Variable json_Unmarshal : string → staticDataConfig * option error.

Abbreviation readStaticDataTablesFile :=
  (Cmd.readStaticDataTablesFile defaultStaticDataTablesFile json_Unmarshal).
Abbreviation jsonPathOf p :=
  (ReplaceAll (Clean p) defaultStaticDataTablesFile "wrench.json").
Abbreviation txtPathOf p :=
  (ReplaceAll (Clean p) defaultStaticDataTablesFile "static_data_tables.txt").

Lemma openFile_absent σ p :
  Open σ p = inl ENOENT → openFile σ p = (None, None).
Proof. unfold openFile. by intros ->. Qed.

Lemma openFile_regular σ p content :
  Open σ p = inr (HFile content) → openFile σ p = (Some (HFile content), None).
Proof. unfold openFile. by intros ->. Qed.

Lemma readJsonFile_absent σ p :
  Open σ p = inl ENOENT → readJsonFile json_Unmarshal σ p = json_Unmarshal "".
Proof. intros H. unfold readJsonFile. by rewrite (openFile_absent _ _ H). Qed.

Lemma readJsonFile_regular σ p content :
  Open σ p = inr (HFile content) →
  readJsonFile json_Unmarshal σ p = json_Unmarshal content.
Proof. intros H. unfold readJsonFile. by rewrite (openFile_regular _ _ _ H). Qed.

(** The text reader keeps the promise of [openFile]: a missing file is an
    empty list of tables and no error. *)
Lemma readTxtFile_absent σ p :
  Open σ p = inl ENOENT → readTxtFile σ p = ([], None).
Proof. intros H. unfold readTxtFile. by rewrite (openFile_absent _ _ H). Qed.

Lemma readTxtFile_regular σ p content :
  Open σ p = inr (HFile content) →
  readTxtFile σ p = (GoScan.ScanLines content, None).
Proof. intros H. unfold readTxtFile. by rewrite (openFile_regular _ _ _ H). Qed.

(** C1, on the code: for a path that ends in [.json] (and not in the
    default file name) whose file does not exist,
    [readStaticDataTablesFile] returns what decoding the empty input
    returns.  [json.Unmarshal] rejects the empty input, so a missing
    structured file is reported as an error, where the claim promises an
    empty configuration and no error. *)
Theorem missing_json_file_is_decoded σ p d e :
  json_Unmarshal "" = (d, Some e) →
  HasSuffix (Clean p) defaultStaticDataTablesFile = false →
  HasSuffix (Clean p) ".json" = true →
  Open σ (Clean p) = inl ENOENT →
  readStaticDataTablesFile σ p = (d, Some e).
Proof.
  intros Hdec Hdef Hjson Hopen. unfold Cmd.readStaticDataTablesFile.
  rewrite Hdef, Hjson. by rewrite readJsonFile_absent.
Qed.

(** C3, as amended: the path ends in the default file name, the
    structured sibling file is there and is rejected by the decoder, the
    text sibling file is there: there is no error, the tables are the
    lines of the text file, and the ordering map is the one the rejected
    decoding left (empty after a syntax error, what was decoded after a
    field of the wrong type). *)
Theorem malformed_json_falls_through_to_txt σ p bytes d e content :
  HasSuffix (Clean p) defaultStaticDataTablesFile = true →
  Open σ (jsonPathOf p) = inr (HFile bytes) →
  json_Unmarshal bytes = (d, Some e) →
  Open σ (txtPathOf p) = inr (HFile content) →
  readStaticDataTablesFile σ p =
    (mkConfig (GoScan.ScanLines content) (CustomOrderBy d), None).
Proof.
  intros Hdef Hjson Hdec Htxt. unfold Cmd.readStaticDataTablesFile.
  rewrite Hdef, (readJsonFile_regular _ _ _ Hjson), Hdec.
  by rewrite (readTxtFile_regular _ _ _ Htxt).
Qed.

(** C2, as amended: a text file read through an explicit [.txt] path, or
    through the fallback after the structured file failed, gives all the
    scanner's lines as tables, the empty ones included, and no error; the
    ordering map is empty for the explicit path and is what the failed
    decoding left for the fallback; a text of plain lines is scanned into
    exactly these lines. *)
Theorem txt_file_tables_are_all_lines :
  (∀ σ p content,
     HasSuffix (Clean p) defaultStaticDataTablesFile = false →
     HasSuffix (Clean p) ".json" = false →
     HasSuffix (Clean p) ".txt" = true →
     Open σ (Clean p) = inr (HFile content) →
     readStaticDataTablesFile σ p =
       (mkConfig (GoScan.ScanLines content) ∅, None)) ∧
  (∀ σ p content d e,
     HasSuffix (Clean p) defaultStaticDataTablesFile = true →
     readJsonFile json_Unmarshal σ (jsonPathOf p) = (d, Some e) →
     Open σ (txtPathOf p) = inr (HFile content) →
     readStaticDataTablesFile σ p =
       (mkConfig (GoScan.ScanLines content) (CustomOrderBy d), None)) ∧
  (∀ ls, Forall plain_line ls → GoScan.ScanLines (unlines ls) = ls).
Proof.
  split; [|split].
  - intros σ p content Hdef Hjson Htxt Hopen. unfold Cmd.readStaticDataTablesFile.
    rewrite Hdef, Hjson, Htxt. by rewrite (readTxtFile_regular _ _ _ Hopen).
  - intros σ p content d e Hdef Hdec Hopen. unfold Cmd.readStaticDataTablesFile.
    rewrite Hdef, Hdec. by rewrite (readTxtFile_regular _ _ _ Hopen).
  - apply ScanFacts.ScanLines_unlines.
Qed.

(** C10: a path that, once cleaned, ends in none of the default file name,
    [.json] and [.txt] gives the empty configuration and no error, whatever
    the file system holds: no file is looked at. *)
Theorem unrecognised_suffix_reads_nothing σ p :
  HasSuffix (Clean p) defaultStaticDataTablesFile = false →
  HasSuffix (Clean p) ".json" = false →
  HasSuffix (Clean p) ".txt" = false →
  readStaticDataTablesFile σ p = (zeroConfig, None).
Proof.
  intros Hdef Hjson Htxt. unfold Cmd.readStaticDataTablesFile.
  by rewrite Hdef, Hjson, Htxt.
Qed.

End Resolver.

Import Sample.

Lemma missing_json_file_is_decoded_witness :
  resolve_config disk_txt "schema/wrench.json" =
    (zeroConfig, Some (SyntaxError "unexpected end of JSON input")).
Proof.
  apply (missing_json_file_is_decoded defaultFile Json.Unmarshal disk_txt
           "schema/wrench.json"); vm_compute; reflexivity.
Defined.

Lemma malformed_json_falls_through_to_txt_witness :
  resolve_config disk_both "schema/{wrench.json|static_data_tables.txt}" =
    (mkConfig ["Users"; ""; "Orders"] ∅, None).
Proof.
  apply (malformed_json_falls_through_to_txt defaultFile Json.Unmarshal disk_both
           "schema/{wrench.json|static_data_tables.txt}" "{"
           zeroConfig (SyntaxError "unexpected end of JSON input")
           ("Users" +:+ lf +:+ lf +:+ "Orders" +:+ lf));
    vm_compute; reflexivity.
Defined.

(** C3, as stated, fails after a structured file that is rejected for the
    type of one field: the ordering map decoded from the rejected file is
    returned with the tables of the text file, so the result is not the
    content of the text file, which read on its own gives an empty
    ordering map. *)
Lemma rejected_structured_file_counterexample :
  let content := "Users" +:+ lf +:+ lf +:+ "Orders" +:+ lf in
  Open disk_mismatch "schema/wrench.json" =
    inr (HFile (Json.dq "{'CustomOrderBy': {'Users': 'Id'}, 'StaticDataTables': 7}")) ∧
  (Cmd.readJsonFile Json.Unmarshal disk_mismatch "schema/wrench.json").2 ≠ None ∧
  Open disk_mismatch "schema/static_data_tables.txt" = inr (HFile content) ∧
  resolve_config disk_mismatch "schema/static_data_tables.txt" =
    (mkConfig ["Users"; ""; "Orders"] ∅, None) ∧
  resolve_config disk_mismatch "schema/{wrench.json|static_data_tables.txt}" =
    (mkConfig ["Users"; ""; "Orders"] {["Users" := "Id"]}, None) ∧
  resolve_config disk_mismatch "schema/{wrench.json|static_data_tables.txt}" ≠
    resolve_config disk_mismatch "schema/static_data_tables.txt".
Proof.
  cbv zeta. repeat split; try by_evaluation; vm_compute; discriminate.
Qed.

(** C2, as stated, fails on a text file with an empty line: the empty line
    is a table of the configuration returned; and it fails in the fallback
    after a structured file that was decoded in part: the ordering map
    decoded is returned with the tables of the text file. *)
Lemma txt_file_empty_line_counterexample :
  let content := "Users" +:+ lf +:+ lf +:+ "Orders" +:+ lf in
  (Open disk_txt "schema/static_data_tables.txt" = inr (HFile content) ∧
   spec_nonempty_lines content = ["Users"; "Orders"] ∧
   resolve_config disk_txt "schema/static_data_tables.txt" =
     (mkConfig ["Users"; ""; "Orders"] ∅, None) ∧
   resolve_config disk_txt "schema/static_data_tables.txt" ≠
     (mkConfig (spec_nonempty_lines content) ∅, None)) ∧
  (Open disk_mismatch "schema/static_data_tables.txt" = inr (HFile content) ∧
   resolve_config disk_mismatch "schema/{wrench.json|static_data_tables.txt}" =
     (mkConfig ["Users"; ""; "Orders"] {["Users" := "Id"]}, None) ∧
   CustomOrderBy
     (resolve_config disk_mismatch
        "schema/{wrench.json|static_data_tables.txt}").1 ≠ ∅).
Proof.
  cbv zeta. split.
  - repeat split; try by_evaluation. vm_compute. discriminate.
  - repeat split; try by_evaluation. vm_compute. discriminate.
Qed.

Lemma txt_file_tables_are_all_lines_witness :
  resolve_config disk_txt "schema/static_data_tables.txt" =
    (mkConfig ["Users"; ""; "Orders"] ∅, None) ∧
  resolve_config disk_both "schema/{wrench.json|static_data_tables.txt}" =
    (mkConfig ["Users"; ""; "Orders"] ∅, None) ∧
  GoScan.ScanLines (unlines ["Users"; ""; "Orders"]) = ["Users"; ""; "Orders"].
Proof.
  destruct (txt_file_tables_are_all_lines defaultFile Json.Unmarshal)
    as (Hexplicit & Hfallback & Hlines).
  split; [|split].
  - apply (Hexplicit disk_txt "schema/static_data_tables.txt"
             ("Users" +:+ lf +:+ lf +:+ "Orders" +:+ lf));
      vm_compute; reflexivity.
  - apply (Hfallback disk_both "schema/{wrench.json|static_data_tables.txt}"
             ("Users" +:+ lf +:+ lf +:+ "Orders" +:+ lf)
             zeroConfig (SyntaxError "unexpected end of JSON input"));
      vm_compute; reflexivity.
  - apply (Hlines ["Users"; ""; "Orders"]).
    repeat constructor; vm_compute; congruence.
Defined.

Lemma unrecognised_suffix_reads_nothing_witness :
  resolve_config disk_both "schema/tables.yaml" = (zeroConfig, None).
Proof.
  apply (unrecognised_suffix_reads_nothing defaultFile Json.Unmarshal disk_both
           "schema/tables.yaml"); vm_compute; reflexivity.
Defined.

End Resolver.

(* --------------------------------------------------------------------- *)
(** ** The file system primitives                                         *)
(* --------------------------------------------------------------------- *)

Module FsFacts.
Import GoStrings OS Cmd Spec.

Lemma wf_check_sound σ : wf_check σ = true → wf σ.
Proof.
  unfold wf_check. rewrite forallb_forall. intros H r es e n Hk.
  specialize (H ((r, es ++ [e]), n)).
  rewrite <- list_elem_of_In, elem_of_map_to_list in H.
  specialize (H Hk). unfold parent_is_dir in H. cbn [fst snd] in H.
  rewrite removelast_last in H.
  destruct (es ++ [e]) eqn:E; [by destruct es|].
  destruct (node_at σ (r, es)) as [[|m]|]; try done. by exists m.
Qed.

Lemma node_at_lookup (σ : fs) k : is_base k = false → node_at σ k = σ !! k.
Proof. unfold node_at. by intros ->. Qed.

Lemma node_at_None (σ : fs) k :
  node_at σ k = None → is_base k = false ∧ σ !! k = None.
Proof. unfold node_at. by destruct (is_base k). Qed.

Lemma node_at_File (σ : fs) k m d :
  node_at σ k = Some (File m d) → is_base k = false ∧ σ !! k = Some (File m d).
Proof. unfold node_at. by destruct (is_base k). Qed.

Lemma node_at_insert_ne (σ : fs) k k' n :
  k ≠ k' → node_at (<[k := n]> σ) k' = node_at σ k'.
Proof. intros. unfold node_at. by rewrite lookup_insert_ne. Qed.

Lemma sim_refl n : sim n n.
Proof. by destruct n. Qed.

Lemma sim_trans n1 n2 n3 : sim n1 n2 → sim n2 n3 → sim n1 n3.
Proof. destruct n1, n2, n3; cbn; try done; congruence. Qed.

Lemma grows_refl σ : grows σ σ.
Proof. intros k n H. exists n. split; [done | apply sim_refl]. Qed.

Lemma grows_trans σ1 σ2 σ3 : grows σ1 σ2 → grows σ2 σ3 → grows σ1 σ3.
Proof.
  intros H12 H23 k n H. destruct (H12 _ _ H) as (n' & H' & Hs).
  destruct (H23 _ _ H') as (n'' & H'' & Hs'). exists n''.
  split; [done | by eapply sim_trans].
Qed.

Lemma grows_insert_new (σ : fs) k n : σ !! k = None → grows σ (<[k := n]> σ).
Proof.
  intros Hk k' n' H. exists n'. split; [|apply sim_refl].
  rewrite lookup_insert_ne; [done | congruence].
Qed.

Lemma grows_insert_file (σ : fs) k m d d' :
  σ !! k = Some (File m d) → grows σ (<[k := File m d']> σ).
Proof.
  intros Hk k' n' H. destruct (decide (k = k')) as [<-|Hne].
  - rewrite lookup_insert_eq. exists (File m d'). split; [done|].
    rewrite Hk in H. by inversion H.
  - rewrite lookup_insert_ne by done. exists n'. split; [done | apply sim_refl].
Qed.

Lemma replays_keeps T a b : replays T a b → grows a T → keeps a b.
Proof.
  intros HR HG k n. unfold node_at. destruct (is_base k).
  - intros [= <-]. eexists. split; [done | apply sim_refl].
  - intros H. destruct (HR k) as [->| ->].
    + exists n. split; [done | apply sim_refl].
    + by apply HG.
Qed.

Lemma replays_same T b : replays T T b → b = T.
Proof. intros H. apply map_eq. intros k. by destruct (H k). Qed.

Lemma replays_refl T a : replays T a a.
Proof. intros k. by left. Qed.

(** *** [walk] *)

Lemma walk_None σ r rest : ∀ pre,
  walk σ r pre rest = None ↔
  ∀ i, (i < length rest)%nat →
       ∃ m, node_at σ (on_the_way r pre rest i) = Some (Dir m).
Proof.
  unfold on_the_way. induction rest as [|e rest IH]; intros pre; cbn [walk].
  - split; [|done]. intros _ i Hi. cbn in Hi. lia.
  - destruct (node_at σ (r, pre ++ [e])) as [[m d|m]|] eqn:E.
    + split; [done|]. intros H. destruct (H 0%nat) as [m' Hm']; [cbn; lia|].
      cbn [take] in Hm'. rewrite take_0 in Hm'. congruence.
    + rewrite IH. split.
      * intros H [|i] Hi; cbn [take].
        -- rewrite take_0. by exists m.
        -- cbn in Hi. destruct (H i) as [m' Hm']; [lia|]. exists m'.
           by rewrite <- app_assoc in Hm'.
      * intros H i Hi. destruct (H (S i)) as [m' Hm']; [cbn; lia|].
        exists m'. cbn [take] in Hm'. by rewrite <- app_assoc.
    + split; [done|]. intros H. destruct (H 0%nat) as [m' Hm']; [cbn; lia|].
      cbn [take] in Hm'. rewrite take_0 in Hm'. congruence.
Qed.

Lemma walk_keeps a b r rest : ∀ pre,
  keeps a b →
  (walk a r pre rest = None → walk b r pre rest = None) ∧
  (walk a r pre rest = Some ENOTDIR → walk b r pre rest = Some ENOTDIR).
Proof.
  induction rest as [|e rest IH]; intros pre HK; cbn [walk]; [done|].
  destruct (node_at a (r, pre ++ [e])) as [n|] eqn:E; [|done].
  destruct (HK _ _ E) as (n' & -> & Hs).
  destruct n as [m d|m], n' as [m' d'|m']; try done.
  by apply IH.
Qed.

(** *** The base locations and well-formed states *)

Lemma is_base_app_l r a b : is_base (r, a ++ b) = true → is_base (r, a) = true.
Proof.
  unfold is_base. cbn. rewrite forallb_app. by intros [? _]%andb_true_iff.
Qed.

Lemma is_base_nil r : is_base (r, []) = true.
Proof. reflexivity. Qed.

Lemma on_the_way_cons r pre e rest i :
  on_the_way r pre (e :: rest) (S i) = on_the_way r (pre ++ [e]) rest i.
Proof. unfold on_the_way. cbn [take]. by rewrite <- app_assoc. Qed.

Lemma on_the_way_0 r pre e rest :
  on_the_way r pre (e :: rest) 0 = (r, pre ++ [e]).
Proof. unfold on_the_way. cbn [take]. by rewrite take_0. Qed.

Lemma on_the_way_ne r pre e rest i :
  (i < length rest)%nat → on_the_way r (pre ++ [e]) rest i ≠ (r, pre ++ [e]).
Proof.
  unfold on_the_way. intros Hi [= H].
  apply (f_equal length) in H. rewrite !length_app, length_take in H.
  rewrite Nat.min_l in H by lia. lia.
Qed.

(** Below a missing node there is nothing. *)
Lemma wf_below_missing σ r es : wf σ →
  node_at σ (r, es) = None → ∀ l, node_at σ (r, es ++ l) = None.
Proof.
  intros Hwf Hnone l. induction l as [|x l IH] using rev_ind.
  - by rewrite app_nil_r.
  - destruct (node_at σ (r, es ++ l ++ [x])) as [n|] eqn:E; [|done].
    exfalso. unfold node_at in E.
    destruct (is_base (r, es ++ l ++ [x])) eqn:Hb.
    + apply is_base_app_l in Hb. unfold node_at in Hnone. by rewrite Hb in Hnone.
    + rewrite app_assoc in E. destruct (Hwf _ _ _ _ E) as [m Hm]. congruence.
Qed.

(** *** [MkdirAll] *)

Lemma mkdir_all_lookup rest : ∀ σ r pre perm σ' e,
  mkdir_all σ r pre rest perm = (σ', e) →
  ∀ k, σ' !! k = σ !! k ∨
       (σ !! k = None ∧ σ' !! k = Some (Dir perm) ∧ is_base k = false ∧
        ∃ i, (i < length rest)%nat ∧ k = on_the_way r pre rest i).
Proof.
  induction rest as [|x rest IH]; intros σ r pre perm σ' e; cbn [mkdir_all].
  - intros [= <- <-] k. by left.
  - destruct (node_at σ (r, pre ++ [x])) as [[m d|m]|] eqn:E.
    + intros [= <- <-] k. by left.
    + intros H k.
      destruct (IH _ _ _ _ _ _ H k) as [Hk|(Hk & Hk' & Hb & i & Hi & ->)].
      * by left.
      * right. repeat split; try done. exists (S i).
        split; [cbn; lia | by rewrite on_the_way_cons].
    + apply node_at_None in E as [Hb E].
      intros H k.
      destruct (IH _ _ _ _ _ _ H k) as [Hk|(Hk & Hk' & Hb' & i & Hi & ->)].
      * destruct (decide (k = (r, pre ++ [x]))) as [->|Hne].
        -- right. rewrite lookup_insert_eq in Hk. repeat split; try done.
           exists 0%nat. split; [cbn; lia | by rewrite on_the_way_0].
        -- left. by rewrite lookup_insert_ne in Hk.
      * right. rewrite lookup_insert_ne in Hk by (symmetry; by apply on_the_way_ne).
        repeat split; try done. exists (S i).
        split; [cbn; lia | by rewrite on_the_way_cons].
Qed.

Lemma mkdir_all_grows σ r pre rest perm σ' e :
  mkdir_all σ r pre rest perm = (σ', e) → grows σ σ'.
Proof.
  intros H k n Hk. destruct (mkdir_all_lookup _ _ _ _ _ _ _ H k) as [->|(? & _)].
  - exists n. split; [done | apply sim_refl].
  - congruence.
Qed.

Lemma grows_node_at σ σ' k m :
  grows σ σ' → node_at σ k = Some (Dir m) → node_at σ' k = Some (Dir m).
Proof.
  unfold node_at. intros HG. destruct (is_base k); [done|].
  intros H. destruct (HG _ _ H) as ([?|m'] & -> & Hs); cbn in Hs; [done|].
  by subst.
Qed.

(** After a successful [MkdirAll] every location on the way is a
    directory. *)
Lemma mkdir_all_dirs rest : ∀ σ r pre perm σ',
  mkdir_all σ r pre rest perm = (σ', None) →
  ∀ i, (i < length rest)%nat →
       ∃ m, node_at σ' (on_the_way r pre rest i) = Some (Dir m).
Proof.
  induction rest as [|x rest IH]; intros σ r pre perm σ'; cbn [mkdir_all].
  - intros _ i Hi. cbn in Hi. lia.
  - destruct (node_at σ (r, pre ++ [x])) as [[m d|m]|] eqn:E; [done| |].
    + intros H [|i] Hi.
      * rewrite on_the_way_0. exists m.
        eapply grows_node_at; [by eapply mkdir_all_grows | done].
      * rewrite on_the_way_cons. apply (IH _ _ _ _ _ H). cbn in Hi. lia.
    + apply node_at_None in E as [Hb E].
      intros H [|i] Hi.
      * rewrite on_the_way_0. exists perm.
        eapply grows_node_at; [by eapply mkdir_all_grows |].
        rewrite node_at_lookup by done. apply lookup_insert_eq.
      * rewrite on_the_way_cons. apply (IH _ _ _ _ _ H). cbn in Hi. lia.
Qed.

(** Where nothing is on the way, [MkdirAll] succeeds. *)
Lemma mkdir_all_fresh rest : ∀ σ r pre perm,
  (∀ i, (i < length rest)%nat → node_at σ (on_the_way r pre rest i) = None) →
  (mkdir_all σ r pre rest perm).2 = None.
Proof.
  induction rest as [|x rest IH]; intros σ r pre perm H; cbn [mkdir_all]; [done|].
  pose proof (H 0%nat ltac:(cbn; lia)) as H0. rewrite on_the_way_0 in H0.
  rewrite H0. apply IH. intros i Hi.
  rewrite node_at_insert_ne by (symmetry; by apply on_the_way_ne).
  rewrite <- on_the_way_cons. apply H. cbn. lia.
Qed.

Lemma mkdir_all_cons σ r pre x rest perm :
  mkdir_all σ r pre (x :: rest) perm =
  match node_at σ (r, pre ++ [x]) with
  | None => mkdir_all (<[(r, pre ++ [x]) := Dir perm]> σ) r (pre ++ [x]) rest perm
  | Some (Dir _) => mkdir_all σ r (pre ++ [x]) rest perm
  | Some (File _ _) => (σ, Some ENOTDIR)
  end.
Proof. reflexivity. Qed.

(** In a well-formed state, [MkdirAll] succeeds where [Stat] reports that
    the path does not exist. *)
Lemma mkdir_all_missing σ r perm : wf σ → ∀ rest pre,
  walk σ r pre (removelast rest) = Some ENOENT ∨
  (walk σ r pre (removelast rest) = None ∧ node_at σ (r, pre ++ rest) = None) →
  (mkdir_all σ r pre rest perm).2 = None.
Proof.
  intros Hwf. induction rest as [|x rest IH]; intros pre H; [done|].
  destruct rest as [|y rest].
  - cbn [removelast walk] in H. destruct H as [|[_ H]]; [done|].
    cbn [mkdir_all]. by rewrite H.
  - change (removelast (x :: y :: rest)) with (x :: removelast (y :: rest)) in H.
    cbn [walk] in H. rewrite mkdir_all_cons.
    destruct (node_at σ (r, pre ++ [x])) as [[m d|m]|] eqn:E.
    + by destruct H as [|[? _]].
    + apply IH. by rewrite <- app_assoc.
    + apply mkdir_all_fresh. intros i Hi.
      rewrite node_at_insert_ne by (symmetry; by apply on_the_way_ne).
      unfold on_the_way. by apply wf_below_missing.
Qed.

(** *** Well-formed states are kept *)

Lemma wf_insert σ r es x n : wf σ →
  (∃ m, node_at σ (r, es) = Some (Dir m)) →
  (∀ m, σ !! (r, es ++ [x]) ≠ Some (Dir m)) →
  wf (<[(r, es ++ [x]) := n]> σ).
Proof.
  intros Hwf [m Hm] Hnd r' es' e' n' H.
  assert (Hpar : (r, es) ≠ (r, es ++ [x])).
  { intros [= E]. apply (f_equal length) in E. rewrite length_app in E.
    cbn in E. lia. }
  destruct (decide ((r, es ++ [x]) = (r', es' ++ [e']))) as [[= -> [-> ->]%app_inj_tail]|Hne].
  - exists m. by rewrite node_at_insert_ne.
  - rewrite lookup_insert_ne in H by done.
    destruct (Hwf _ _ _ _ H) as [m' Hm'].
    destruct (decide ((r, es ++ [x]) = (r', es'))) as [[= <- <-]|Hne'].
    + unfold node_at in *. destruct (is_base (r, es ++ [x])); [by exists m'|].
      by destruct (Hnd m').
    + exists m'. by rewrite node_at_insert_ne.
Qed.

Lemma wf_mkdir_all rest : ∀ σ r pre perm, wf σ →
  (∃ m, node_at σ (r, pre) = Some (Dir m)) →
  wf (mkdir_all σ r pre rest perm).1.
Proof.
  induction rest as [|x rest IH]; intros σ r pre perm Hwf Hpre; [done|].
  rewrite mkdir_all_cons.
  destruct (node_at σ (r, pre ++ [x])) as [[m d|m]|] eqn:E; [done| |].
  - apply IH; [done | by exists m].
  - apply node_at_None in E as [Hb E]. apply IH.
    + apply wf_insert; [done..|]. intros m. by rewrite E.
    + exists perm. rewrite node_at_lookup by done. apply lookup_insert_eq.
Qed.

Lemma wf_MkdirAll σ p perm : wf σ → wf (MkdirAll σ p perm).1.
Proof.
  intros Hwf. unfold MkdirAll. destruct (loc_of p) as [[r es]|]; [|done].
  apply wf_mkdir_all; [done|]. exists base_mode. unfold node_at.
  by rewrite is_base_nil.
Qed.

(** the parent of a resolved location is a directory *)
Lemma walk_parent σ r es x :
  walk σ r [] (removelast (es ++ [x])) = None →
  ∃ m, node_at σ (r, es) = Some (Dir m).
Proof.
  rewrite removelast_last. intros H.
  destruct es as [|y es] using rev_ind.
  - exists base_mode. unfold node_at. by rewrite is_base_nil.
  - rewrite walk_None in H. destruct (H (length es)) as [m Hm].
    { rewrite length_app. cbn. lia. }
    exists m. unfold on_the_way in Hm. cbn [app] in Hm.
    rewrite take_ge in Hm; [done|]. rewrite length_app. cbn. lia.
Qed.

(** *** [WriteFile] *)

Lemma WriteFile_inv σ p data perm σ' e :
  WriteFile σ p data perm = (σ', e) →
  (e ≠ None ∧ σ' = σ) ∨
  (e = None ∧ ∃ r es x m,
     loc_of p = Some (r, es ++ [x]) ∧
     walk σ r [] (removelast (es ++ [x])) = None ∧
     is_base (r, es ++ [x]) = false ∧
     (σ !! (r, es ++ [x]) = None ∧ m = perm ∨
      ∃ d, σ !! (r, es ++ [x]) = Some (File m d)) ∧
     σ' = <[(r, es ++ [x]) := File m data]> σ).
Proof.
  unfold WriteFile, resolve. destruct (loc_of p) as [[r es]|]; [|intros [= <- <-]; by left].
  destruct (walk σ r [] (removelast es)) as [e0|] eqn:Hw; [intros [= <- <-]; by left|].
  unfold node_at. destruct (is_base (r, es)) eqn:Hb; [intros [= <- <-]; by left|].
  assert (∃ es0 x, es = es0 ++ [x]) as (es0 & x & ->).
  { destruct es as [|x es0 _] using rev_ind; [done | by exists es0, x]. }
  destruct (σ !! (r, es0 ++ [x])) as [[m d|m]|] eqn:E; intros [= <- <-].
  - right. split; [done|]. exists r, es0, x, m. repeat split; try done.
    right. by exists d.
  - by left.
  - right. split; [done|]. exists r, es0, x, perm. repeat split; try done.
    by left.
Qed.

Lemma WriteFile_error σ p data perm σ' e :
  WriteFile σ p data perm = (σ', Some e) → σ' = σ.
Proof. intros H. by destruct (WriteFile_inv _ _ _ _ _ _ H) as [[_ ->]|[? _]]. Qed.

(** Only the location of the path written changes. *)
Lemma WriteFile_frame σ p data perm σ' e k :
  WriteFile σ p data perm = (σ', e) →
  loc_of p ≠ Some k → σ' !! k = σ !! k.
Proof.
  intros H Hk.
  destruct (WriteFile_inv _ _ _ _ _ _ H) as [[_ ->]|(_ & r & es & x & m & Hl & _ & _ & _ & ->)];
    [done|].
  rewrite lookup_insert_ne; [done | congruence].
Qed.

Lemma WriteFile_grows σ p data perm σ' e :
  WriteFile σ p data perm = (σ', e) → grows σ σ'.
Proof.
  intros H.
  destruct (WriteFile_inv _ _ _ _ _ _ H)
    as [[_ ->]|(_ & r & es & x & m & _ & _ & _ & [[Hn _]|[d Hd]] & ->)].
  - apply grows_refl.
  - by apply grows_insert_new.
  - by eapply grows_insert_file.
Qed.

Lemma wf_WriteFile σ p data perm : wf σ → wf (WriteFile σ p data perm).1.
Proof.
  intros Hwf. destruct (WriteFile σ p data perm) as [σ' e] eqn:H.
  destruct (WriteFile_inv _ _ _ _ _ _ H)
    as [[_ ->]|(_ & r & es & x & m & _ & Hw & _ & Hn & ->)]; [done|].
  cbn. apply wf_insert; [done | by eapply walk_parent |].
  intros m'. destruct Hn as [[-> _]|[d ->]]; done.
Qed.

(** *** [RemoveAll] *)

Lemma RemoveAll_inv σ p σ' e :
  RemoveAll σ p = (σ', e) →
  σ' = σ ∨
  (e = None ∧ ∃ l, loc_of p = Some l ∧ is_base l = false ∧
     walk σ l.1 [] (removelast l.2) = None ∧
     σ' = filter (λ kv, ¬ under l kv.1) σ).
Proof.
  unfold RemoveAll. destruct (String.eqb p ""); [intros [= <- <-]; by left|].
  destruct (endsWithDot p); [intros [= <- <-]; by left|].
  destruct (loc_of p) as [[r es]|]; [|intros [= <- <-]; by left].
  destruct (is_base (r, es)) eqn:Hb; [intros [= <- <-]; by left|].
  destruct (walk σ r [] (removelast es)) as [[]|] eqn:Hw; intros [= <- <-];
    try by left.
  right. split; [done|]. by exists (r, es).
Qed.

Lemma under_parent l r es x : under l (r, es) → under l (r, es ++ [x]).
Proof.
  intros [H1 H2]. split; [done|]. cbn in *. by apply prefix_app_r.
Qed.

Lemma under_base l k : is_base l = false → under l k → is_base k = false.
Proof.
  destruct l as [r es], k as [r' es']. unfold under, is_base. cbn.
  intros Hb [_ [t ->]]. by rewrite forallb_app, Hb.
Qed.

Lemma wf_remove σ l : is_base l = false → wf σ →
  wf (filter (λ kv, ¬ under l kv.1) σ).
Proof.
  intros Hb Hwf r es x n H.
  apply map_lookup_filter_Some in H as [H Hu]. cbn in Hu.
  destruct (Hwf _ _ _ _ H) as [m Hm]. exists m.
  unfold node_at in *. destruct (is_base (r, es)); [done|].
  apply map_lookup_filter_Some. split; [done|]. cbn.
  intros Hu'. apply Hu. by apply under_parent.
Qed.

Lemma wf_RemoveAll σ p : wf σ → wf (RemoveAll σ p).1.
Proof.
  intros Hwf. destruct (RemoveAll σ p) as [σ' e] eqn:H.
  destruct (RemoveAll_inv _ _ _ _ H) as [->|(_ & l & _ & Hb & _ & ->)]; [done|].
  by apply wf_remove.
Qed.

(** *** [Stat] *)

Lemma walk_error σ r rest : ∀ pre e,
  walk σ r pre rest = Some e →
  ∃ i, (i < length rest)%nat ∧
       ((e = ENOENT ∧ node_at σ (on_the_way r pre rest i) = None) ∨
        (e = ENOTDIR ∧ ∃ m d, node_at σ (on_the_way r pre rest i) = Some (File m d))).
Proof.
  induction rest as [|x rest IH]; intros pre e; cbn [walk]; [done|].
  destruct (node_at σ (r, pre ++ [x])) as [[m d|m]|] eqn:E.
  - intros [= <-]. exists 0%nat. split; [cbn; lia|]. right. split; [done|].
    rewrite on_the_way_0. by exists m, d.
  - intros H. destruct (IH _ _ H) as (i & Hi & Hcase). exists (S i).
    split; [cbn; lia|]. by rewrite on_the_way_cons.
  - intros [= <-]. exists 0%nat. split; [cbn; lia|]. left.
    by rewrite on_the_way_0.
Qed.

Lemma on_the_way_removelast r pre es i :
  (S i < length es)%nat →
  on_the_way r pre (removelast es) i = on_the_way r pre es i.
Proof.
  destruct es as [|x es _] using rev_ind; [done|].
  rewrite removelast_last, length_app. cbn. intros Hi.
  unfold on_the_way. by rewrite take_app_le by lia.
Qed.

Lemma on_the_way_last r es :
  es ≠ [] → on_the_way r [] es (length es - 1) = (r, es).
Proof.
  intros Hne. unfold on_the_way. cbn [app]. rewrite take_ge; [done|].
  destruct es; [done | cbn; lia].
Qed.

Lemma length_removelast (es : list string) :
  length (removelast es) = (length es - 1)%nat.
Proof.
  destruct es as [|x es _] using rev_ind; [done|].
  rewrite removelast_last, length_app. cbn. lia.
Qed.

Lemma Stat_unfold σ p r es : loc_of p = Some (r, es) →
  Stat σ p = match walk σ r [] (removelast es) with
             | Some e => inl e
             | None => match node_at σ (r, es) with
                       | None => inl ENOENT
                       | Some n => inr n
                       end
             end.
Proof.
  intros Hl. unfold Stat, resolve. rewrite Hl.
  by destruct (walk σ r [] (removelast es)).
Qed.

Lemma Stat_no_loc σ p : loc_of p = None → Stat σ p = inl ENOENT.
Proof. intros Hl. unfold Stat, resolve. by rewrite Hl. Qed.

(** [Stat] succeeds: everything on the way is there. *)
Lemma Stat_exists σ p r es n :
  loc_of p = Some (r, es) → Stat σ p = inr n →
  walk σ r [] (removelast es) = None ∧ node_at σ (r, es) = Some n ∧
  ∀ i, (i < length es)%nat → ∃ n', node_at σ (on_the_way r [] es i) = Some n'.
Proof.
  intros Hl. rewrite (Stat_unfold _ _ _ _ Hl).
  destruct (walk σ r [] (removelast es)) eqn:Hw; [done|].
  destruct (node_at σ (r, es)) as [n0|] eqn:Hn; [|done].
  intros [= <-]. repeat split; try done. intros i Hi.
  destruct (decide (S i < length es)%nat) as [Hlt|Hge].
  - rewrite walk_None in Hw. destruct (Hw i) as [m Hm].
    { rewrite length_removelast. lia. }
    rewrite on_the_way_removelast in Hm by done. by exists (Dir m).
  - replace i with (length es - 1)%nat by lia.
    rewrite on_the_way_last; [by exists n0|]. destruct es; [cbn in Hi; lia | done].
Qed.

(** [Stat] fails with another error than [ENOENT]: a regular file is on
    the way. *)
Lemma Stat_blocked σ p r es e :
  loc_of p = Some (r, es) → Stat σ p = inl e → e ≠ ENOENT →
  ∃ i m d, (i < length es)%nat ∧
           node_at σ (on_the_way r [] es i) = Some (File m d).
Proof.
  intros Hl. rewrite (Stat_unfold _ _ _ _ Hl).
  destruct (walk σ r [] (removelast es)) as [e0|] eqn:Hw.
  - intros [= <-] Hne.
    destruct (walk_error _ _ _ _ _ Hw) as (i & Hi & [[-> _]|(_ & m & d & Hf)]); [done|].
    rewrite length_removelast in Hi.
    rewrite on_the_way_removelast in Hf by lia.
    exists i, m, d. split; [lia | done].
  - destruct (node_at σ (r, es)); [done|]. by intros [= <-].
Qed.

Lemma Stat_missing σ p r es :
  loc_of p = Some (r, es) → Stat σ p = inl ENOENT →
  walk σ r [] (removelast es) = Some ENOENT ∨
  (walk σ r [] (removelast es) = None ∧ node_at σ (r, [] ++ es) = None).
Proof.
  intros Hl. rewrite (Stat_unfold _ _ _ _ Hl).
  destruct (walk σ r [] (removelast es)) as [e0|] eqn:Hw.
  - intros [= ->]. by left.
  - destruct (node_at σ (r, es)) eqn:Hn; [done|]. by right.
Qed.

(** *** [mkdir] *)

Lemma mkdir_inv σ p σ' e :
  mkdir σ p = (σ', e) →
  (∃ n, Stat σ p = inr n ∧ σ' = σ ∧ e = None) ∨
  (Stat σ p = inl ENOENT ∧ σ' = (MkdirAll σ p perm0700).1 ∧ e = None) ∨
  (∃ e0, Stat σ p = inl e0 ∧ e0 ≠ ENOENT ∧ σ' = σ ∧ e = Some (PathError e0)).
Proof.
  unfold mkdir. destruct (Stat σ p) as [e0|n] eqn:HS.
  - destruct e0; cbn; intros [= <- <-];
      first [ by (right; left) | right; right; by eexists ].
  - intros [= <- <-]. left. by exists n.
Qed.

Lemma mkdir_grows σ p σ' e : mkdir σ p = (σ', e) → grows σ σ'.
Proof.
  intros H.
  destruct (mkdir_inv _ _ _ _ H) as [(n & _ & -> & _)|[(_ & -> & _)|(e0 & _ & _ & -> & _)]];
    try apply grows_refl.
  unfold MkdirAll. destruct (loc_of p) as [[r es]|]; [|apply grows_refl].
  destruct (mkdir_all σ r [] es perm0700) eqn:E. by eapply mkdir_all_grows.
Qed.

Lemma wf_mkdir σ p : wf σ → wf (mkdir σ p).1.
Proof.
  intros Hwf. destruct (mkdir σ p) as [σ' e] eqn:H.
  destruct (mkdir_inv _ _ _ _ H) as [(n & _ & -> & _)|[(_ & -> & _)|(e0 & _ & _ & -> & _)]];
    try done.
  by apply wf_MkdirAll.
Qed.

(** In a well-formed state, where [Stat] reports [ENOENT], [MkdirAll]
    succeeds (for a path that is not empty). *)
Lemma MkdirAll_missing σ p r es perm : wf σ →
  loc_of p = Some (r, es) → Stat σ p = inl ENOENT →
  MkdirAll σ p perm = ((mkdir_all σ r [] es perm).1, None).
Proof.
  intros Hwf Hl HS. unfold MkdirAll. rewrite Hl.
  pose proof (mkdir_all_missing σ r perm Hwf es [] (Stat_missing _ _ _ _ Hl HS)).
  by destruct (mkdir_all σ r [] es perm) as [σ' e]; cbn in *; subst.
Qed.

(** *** Replaying a step on a state that is partly ahead

    [a] is a state of a first run whose steps end in [T]; [b] is, at every
    location, as [a] or already as [T].  A step that succeeds on [a]
    succeeds on [b], and the states after it are related again. *)

Section Replay.

Variable T : fs.

Lemma mkdir_all_replay a b r es a1 :
  wf b → replays T a b → grows a T → grows a1 T →
  mkdir_all a r [] es perm0700 = (a1, None) →
  ∀ p, loc_of p = Some (r, es) →
  ∃ b1, mkdir b p = (b1, None) ∧ replays T a1 b1.
Proof.
  intros Hwb HR HG HG1 Ha p Hl.
  pose proof (mkdir_all_dirs _ _ _ _ _ _ Ha) as Hdirs.
  pose proof (mkdir_all_grows _ _ _ _ _ _ _ Ha) as HGa.
  pose proof (mkdir_all_lookup _ _ _ _ _ _ _ Ha) as Hlook.
  assert (HX : ∀ i m d, (i < length es)%nat →
                 node_at b (on_the_way r [] es i) ≠ Some (File m d)).
  { intros i m d Hi [Hb Hf]%node_at_File. destruct (Hdirs i Hi) as [m1 Hm1].
    rewrite node_at_lookup in Hm1 by done.
    destruct (HR (on_the_way r [] es i)) as [Hk|Hk]; rewrite Hk in Hf.
    - destruct (HGa _ _ Hf) as (n' & Hn' & Hs). rewrite Hn' in Hm1.
      injection Hm1 as ->. done.
    - destruct (HG1 _ _ Hm1) as (n' & Hn' & Hs). rewrite Hn' in Hf.
      injection Hf as ->. done. }
  destruct (Stat b p) as [eb|nb] eqn:HSb.
  - destruct (decide (eb = ENOENT)) as [->|Hne].
    + pose proof (MkdirAll_missing _ _ _ _ perm0700 Hwb Hl HSb) as HM.
      destruct (mkdir_all b r [] es perm0700) as [b1 eb1] eqn:Hb1.
      unfold MkdirAll in HM. rewrite Hl, Hb1 in HM. injection HM as ->.
      exists b1. split.
      { unfold mkdir. rewrite HSb. cbn. unfold MkdirAll. by rewrite Hl, Hb1. }
      pose proof (mkdir_all_dirs _ _ _ _ _ _ Hb1) as Hdirsb.
      intros k.
      destruct (mkdir_all_lookup _ _ _ _ _ _ _ Hb1 k)
        as [Hk1|(Hbk & Hb1k & Hbase & i & Hi & ->)].
      * destruct (HR k) as [Hk|Hk]; [|right; congruence].
        destruct (Hlook k) as [Hk2|(Hak & Ha1k & Hbase & i & Hi & ->)];
          [left; congruence|].
        destruct (Hdirsb i Hi) as [m Hm]. rewrite node_at_lookup in Hm by done.
        congruence.
      * left. destruct (Hdirs i Hi) as [m1 Hm1].
        rewrite node_at_lookup in Hm1 by done.
        destruct (Hlook (on_the_way r [] es i)) as [Hk2|(_ & Ha1k & _)];
          [|congruence].
        rewrite Hk2 in Hm1.
        destruct (HR (on_the_way r [] es i)) as [Hk|Hk]; [congruence|].
        destruct (HG _ _ Hm1) as (n' & Hn' & _). congruence.
    + destruct (Stat_blocked _ _ _ _ _ Hl HSb Hne) as (i & m & d & Hi & Hf).
      by destruct (HX i m d Hi).
  - exists b. split; [unfold mkdir; by rewrite HSb|].
    destruct (Stat_exists _ _ _ _ _ Hl HSb) as (_ & _ & Hall).
    intros k. destruct (HR k) as [Hk|Hk]; [|by right].
    destruct (Hlook k) as [Hk2|(Hak & Ha1k & Hbase & i & Hi & ->)];
      [left; congruence|].
    destruct (Hall i Hi) as [n' Hn']. rewrite node_at_lookup in Hn' by done.
    congruence.
Qed.

Lemma mkdir_replay a b p a1 :
  wf a → wf b → replays T a b → grows a1 T →
  mkdir a p = (a1, None) →
  ∃ b1, mkdir b p = (b1, None) ∧ replays T a1 b1.
Proof.
  intros Hwa Hwb HR HG1 Hm.
  assert (HG : grows a T) by (eapply grows_trans; [by eapply mkdir_grows | done]).
  pose proof (replays_keeps _ _ _ HR HG) as HK.
  destruct (mkdir_inv _ _ _ _ Hm)
    as [(n & HS & -> & _)|[(HS & -> & _)|(e0 & _ & _ & _ & [=])]].
  - destruct (loc_of p) as [[r es]|] eqn:Hl;
      [|by rewrite Stat_no_loc in HS].
    destruct (Stat_exists _ _ _ _ _ Hl HS) as (Hw & Hn & _).
    apply (walk_keeps a b r _ [] HK) in Hw.
    destruct (HK _ _ Hn) as (n' & Hn' & _).
    exists b. split; [|done]. unfold mkdir.
    by rewrite (Stat_unfold _ _ _ _ Hl), Hw, Hn'.
  - destruct (loc_of p) as [[r es]|] eqn:Hl.
    + rewrite (MkdirAll_missing _ _ _ _ _ Hwa Hl HS) in HG1 |- *. cbn [fst] in *.
      destruct (mkdir_all a r [] es perm0700) as [a1 ea] eqn:Ha.
      pose proof (mkdir_all_missing a r perm0700 Hwa es []
                    (Stat_missing _ _ _ _ Hl HS)) as He.
      rewrite Ha in He. cbn in He. subst ea. cbn [fst] in *.
      by eapply mkdir_all_replay.
    + exists b. unfold MkdirAll. rewrite Hl. cbn. split; [|done].
      unfold mkdir. rewrite (Stat_no_loc _ _ Hl). cbn.
      unfold MkdirAll. by rewrite Hl.
Qed.

Lemma WriteFile_replay a b f data perm a' :
  replays T a b → grows a' T →
  WriteFile a f data perm = (a', None) →
  ∃ b', WriteFile b f data perm = (b', None) ∧ replays T a' b'.
Proof.
  intros HR HG' HW.
  assert (HG : grows a T) by (eapply grows_trans; [by eapply WriteFile_grows | done]).
  pose proof (replays_keeps _ _ _ HR HG) as HK.
  destruct (WriteFile_inv _ _ _ _ _ _ HW)
    as [[? _]|(_ & r & es & x & m & Hl & Hw & Hb & Hn & ->)]; [done|].
  apply (walk_keeps a b r _ [] HK) in Hw.
  assert (Hbl : b !! (r, es ++ [x]) = None ∧ m = perm ∨
                ∃ d, b !! (r, es ++ [x]) = Some (File m d)).
  { destruct Hn as [[Hn ->]|[d Hd]].
    - destruct (HR (r, es ++ [x])) as [Hk|Hk]; [left; split; congruence|].
      right. destruct (HG' (r, es ++ [x]) (File perm data)) as (n' & Hn' & Hs).
      { apply lookup_insert_eq. }
      destruct n' as [m' d'|]; [|done]. cbn in Hs. subst m'.
      exists d'. congruence.
    - right. destruct (HK (r, es ++ [x]) (File m d)) as (n' & Hn' & Hs).
      { by rewrite node_at_lookup. }
      rewrite node_at_lookup in Hn' by done.
      destruct n' as [m' d'|]; [|done]. cbn in Hs. subst m'. by exists d'. }
  exists (<[(r, es ++ [x]) := File m data]> b). split.
  - unfold WriteFile, resolve. rewrite Hl, Hw. unfold node_at. rewrite Hb.
    by destruct Hbl as [[-> ->]|[d ->]].
  - intros k. destruct (decide (k = (r, es ++ [x]))) as [->|Hne].
    + left. by rewrite !lookup_insert_eq.
    + rewrite !lookup_insert_ne by done. apply HR.
Qed.

End Replay.

(** *** A write step: [mkdir], then [WriteFile] *)

Lemma write_file_inv σ p data perm σ' e :
  write_file σ p data perm = (σ', e) →
  ∃ e0, WriteFile σ p data perm = (σ', e0) ∧ e = PathError <$> e0.
Proof.
  unfold write_file. destruct (WriteFile σ p data perm) as [σ1 e1].
  intros [= <- <-]. by exists e1.
Qed.

Lemma write_op_inv o σ σ' e :
  write_op o σ = (σ', e) →
  (∃ e0, mkdir σ o.1.1.1 = (σ', Some e0) ∧ e = Some e0) ∨
  (∃ σ1, mkdir σ o.1.1.1 = (σ1, None) ∧
         write_file σ1 o.1.1.2 o.1.2 o.2 = (σ', e)).
Proof.
  destruct o as [[[parent file] data] perm]. cbn.
  destruct (mkdir σ parent) as [σ1 [e1|]]; intros H.
  - left. exists e1. by injection H as <- <-.
  - right. by exists σ1.
Qed.

Lemma write_op_grows o σ σ' e : write_op o σ = (σ', e) → grows σ σ'.
Proof.
  intros H. destruct (write_op_inv _ _ _ _ H) as [(e0 & Hm & _)|(σ1 & Hm & Hw)].
  - by eapply mkdir_grows.
  - destruct (write_file_inv _ _ _ _ _ _ Hw) as (e0 & Hw' & _).
    eapply grows_trans; [by eapply mkdir_grows | by eapply WriteFile_grows].
Qed.

Lemma wf_write_op o σ : wf σ → wf (write_op o σ).1.
Proof.
  intros Hwf. destruct (write_op o σ) as [σ' e] eqn:H.
  destruct (write_op_inv _ _ _ _ H) as [(e0 & Hm & _)|(σ1 & Hm & Hw)]; cbn.
  - pose proof (wf_mkdir σ o.1.1.1 Hwf) as H'. by rewrite Hm in H'.
  - destruct (write_file_inv _ _ _ _ _ _ Hw) as (e0 & Hw' & _).
    pose proof (wf_mkdir σ o.1.1.1 Hwf) as H1. rewrite Hm in H1.
    pose proof (wf_WriteFile σ1 o.1.1.2 o.1.2 o.2 H1) as H2.
    by rewrite Hw' in H2.
Qed.

Section ReplayOps.

Variable T : fs.

Lemma write_op_replay o a b a' e :
  wf a → wf b → replays T a b →
  write_op o a = (a', e) → grows a' T → (e ≠ None → a' = T) →
  ∃ b' e', write_op o b = (b', e') ∧ (e = None ↔ e' = None) ∧
           replays T a' b'.
Proof.
  intros Hwa Hwb HR Ho HG Hfail.
  destruct e as [e|].
  - (* the step fails: [a'] is the target, and so is [b] *)
    rewrite (Hfail ltac:(done)) in *.
    destruct (write_op_inv _ _ _ _ Ho) as [(e0 & Hm & _)|(a1 & Hm & Hw)].
    + destruct (mkdir_inv _ _ _ _ Hm)
        as [(? & _ & _ & [=])|[(_ & _ & [=])|(e1 & _ & _ & Ha & _)]].
      subst a. rewrite (replays_same _ _ HR).
      exists T, (Some e). repeat split; try done. apply replays_refl.
    + destruct (write_file_inv _ _ _ _ _ _ Hw) as ([e0|] & Hw' & He); [|done].
      pose proof (WriteFile_error _ _ _ _ _ _ Hw') as <-.
      destruct (mkdir_replay T a b _ _ Hwa Hwb HR (grows_refl _) Hm)
        as (b1 & Hmb & HR1).
      apply replays_same in HR1. subst b1.
      exists T, (Some e). repeat split; try done; [|apply replays_refl].
      destruct o as [[[parent file] data] perm]. cbn in *. by rewrite Hmb.
  - destruct (write_op_inv _ _ _ _ Ho) as [(e0 & _ & [=])|(a1 & Hm & Hw)].
    destruct (write_file_inv _ _ _ _ _ _ Hw) as ([e0|] & Hw' & He); [done|].
    assert (HG1 : grows a1 T)
      by (eapply grows_trans; [by eapply WriteFile_grows | done]).
    destruct (mkdir_replay T a b _ _ Hwa Hwb HR HG1 Hm) as (b1 & Hmb & HR1).
    destruct (WriteFile_replay T a1 b1 _ _ _ _ HR1 HG Hw') as (b' & Hwb' & HR').
    exists b', None. repeat split; try done.
    destruct o as [[[parent file] data] perm]. cbn in *. rewrite Hmb.
    unfold write_file. by rewrite Hwb'.
Qed.

Context {A : Type} (f : A → fs → fs * option error)
        (g : A → string * string * string * Z).
Hypothesis f_is_write : ∀ x σ, f x σ = write_op (g x) σ.

Lemma iter_ops_grows xs : ∀ σ σ' e, iter_ops f xs σ = (σ', e) → grows σ σ'.
Proof.
  induction xs as [|x xs IH]; intros σ σ' e; cbn [iter_ops].
  - intros [= <- _]. apply grows_refl.
  - destruct (f x σ) as [σ1 [e1|]] eqn:Hf; rewrite f_is_write in Hf.
    + intros [= <- _]. by eapply write_op_grows.
    + intros H. eapply grows_trans; [by eapply write_op_grows | by eapply IH].
Qed.

Lemma wf_iter_ops xs : ∀ σ, wf σ → wf (iter_ops f xs σ).1.
Proof.
  induction xs as [|x xs IH]; intros σ Hwf; cbn [iter_ops]; [done|].
  pose proof (wf_write_op (g x) σ Hwf) as H1. rewrite <- f_is_write in H1.
  destruct (f x σ) as [σ1 [e1|]]; [done|]. by apply IH.
Qed.

Lemma iter_ops_replay xs : ∀ a b a' e,
  wf a → wf b → replays T a b →
  iter_ops f xs a = (a', e) → grows a' T → (e ≠ None → a' = T) →
  ∃ b' e', iter_ops f xs b = (b', e') ∧ (e = None ↔ e' = None) ∧
           replays T a' b'.
Proof.
  induction xs as [|x xs IH]; intros a b a' e Hwa Hwb HR; cbn [iter_ops].
  - intros [= <- <-] _ _. by exists b, None.
  - destruct (f x a) as [a1 e1] eqn:Hfa. rewrite f_is_write in Hfa.
    pose proof (wf_write_op (g x) a Hwa) as Hwa1. rewrite Hfa in Hwa1.
    pose proof (wf_write_op (g x) b Hwb) as Hwb1.
    destruct e1 as [e1|].
    + intros [= <- <-] HG Hfail.
      destruct (write_op_replay _ _ _ _ _ Hwa Hwb HR Hfa HG Hfail)
        as (b' & e' & Hob & He & HR').
      rewrite f_is_write, Hob. destruct e' as [e'|];
        [|destruct He as [_ He]; by specialize (He eq_refl)].
      by exists b', (Some e').
    + intros Hit HG Hfail.
      assert (HG1 : grows a1 T)
        by (eapply grows_trans; [by eapply iter_ops_grows | done]).
      destruct (write_op_replay _ _ _ _ _ Hwa Hwb HR Hfa HG1 ltac:(done))
        as (b1 & e' & Hob & He & HR1).
      rewrite Hob in Hwb1.
      rewrite f_is_write, Hob. destruct e' as [e'|];
        [destruct He as [He _]; by specialize (He eq_refl)|].
      by apply (IH a1 b1).
Qed.

End ReplayOps.

End FsFacts.

(* --------------------------------------------------------------------- *)
(** ** Cleaned paths                                                      *)
(* --------------------------------------------------------------------- *)

Module PathFacts.
Import GoStrings OS Spec.

Lemma append_nil_l (s : string) : "" +:+ s = s.
Proof. reflexivity. Qed.

Lemma append_cons_l c (l s : string) : String c l +:+ s = String c (l +:+ s).
Proof. reflexivity. Qed.

Lemma append_assoc (a b c : string) : (a +:+ b) +:+ c = a +:+ (b +:+ c).
Proof. induction a as [|x a IH]; [done|]. rewrite !append_cons_l. by f_equal. Qed.

Lemma eqb_false_ne (a b : string) : a ≠ b → String.eqb a b = false.
Proof. by intros H; apply String.eqb_neq. Qed.

(** *** Splitting at slashes *)

Lemma split_slash_aux_app (d s : string) : ∀ cur,
  split_slash_aux cur (d +:+ "/" +:+ s) =
  split_slash_aux cur d ++ split_slash_aux [] s.
Proof.
  induction d as [|c d IH]; intros cur.
  - reflexivity.
  - rewrite append_cons_l. cbn [split_slash_aux].
    destruct (Ascii.eqb c "/"); by rewrite IH.
Qed.

Lemma split_slash_aux_plain (s : string) : ∀ cur,
  no_slash s = true →
  split_slash_aux cur s = [string_of_list_ascii (rev cur ++ list_ascii_of_string s)].
Proof.
  unfold no_slash. induction s as [|c s IH]; intros cur; cbn.
  - intros _. by rewrite app_nil_r.
  - intros [Hc Hs]%andb_true_iff. apply negb_true_iff in Hc. rewrite Hc.
    rewrite IH by done. cbn. by rewrite <- app_assoc.
Qed.

Lemma split_slash_plain (s : string) : no_slash s = true → split_slash s = [s].
Proof.
  intros H. unfold split_slash. rewrite split_slash_aux_plain by done.
  cbn. by rewrite string_of_list_ascii_of_string.
Qed.

Lemma split_slash_app (d s : string) :
  split_slash (d +:+ "/" +:+ s) = split_slash d ++ split_slash s.
Proof. apply split_slash_aux_app. Qed.

Lemma no_slash_of_list l :
  no_slash (string_of_list_ascii l) = forallb (λ c, negb (Ascii.eqb c "/"%char)) l.
Proof. unfold no_slash. by rewrite list_ascii_of_string_of_list_ascii. Qed.

Lemma forallb_rev {A} (f : A → bool) l : forallb f (rev l) = forallb f l.
Proof.
  induction l as [|x l IH]; [done|]. cbn [rev]. rewrite forallb_app, IH. cbn.
  by rewrite andb_true_r, andb_comm.
Qed.

Lemma split_slash_aux_no_slash (s : string) : ∀ cur,
  forallb (λ c, negb (Ascii.eqb c "/"%char)) cur = true →
  Forall (λ e, no_slash e = true) (split_slash_aux cur s).
Proof.
  induction s as [|c s IH]; intros cur Hcur; cbn [split_slash_aux].
  - constructor; [|done]. rewrite no_slash_of_list, forallb_rev. done.
  - destruct (Ascii.eqb c "/") eqn:Hc.
    + constructor; [|by apply IH]. by rewrite no_slash_of_list, forallb_rev.
    + apply IH. cbn. by rewrite Hc.
Qed.

Lemma split_slash_no_slash s : Forall (λ e, no_slash e = true) (split_slash s).
Proof. by apply split_slash_aux_no_slash. Qed.

(** *** One step of [Clean] *)

Lemma plain_name_inv e : plain_name e = true →
  no_slash e = true ∧ e ≠ "" ∧ e ≠ "." ∧ e ≠ "..".
Proof.
  unfold plain_name. rewrite !andb_true_iff, !negb_true_iff.
  intros [[[? ?%String.eqb_neq] ?%String.eqb_neq] ?%String.eqb_neq]. done.
Qed.

Lemma clean_step_plain rt st e : plain_name e = true → clean_step rt st e = e :: st.
Proof.
  intros (_ & H1 & H2 & H3)%plain_name_inv. unfold clean_step.
  by rewrite !eqb_false_ne.
Qed.

Lemma clean_step_dots k : clean_step false (replicate k "..") ".." = replicate (S k) "..".
Proof. by destruct k. Qed.

Lemma fold_clean_plain rt body : ∀ st,
  Forall (λ e, plain_name e = true) body →
  fold_left (clean_step rt) body st = rev body ++ st.
Proof.
  induction body as [|e body IH]; intros st H; [done|].
  inversion H; subst. cbn [fold_left rev]. rewrite clean_step_plain by done.
  rewrite IH by done. by rewrite <- app_assoc.
Qed.

Lemma fold_clean_dots n : ∀ k,
  fold_left (clean_step false) (replicate n "..") (replicate k "..") =
  replicate (n + k) "..".
Proof.
  induction n as [|n IH]; intros k; [done|].
  cbn [replicate fold_left]. rewrite clean_step_dots, IH.
  f_equal. lia.
Qed.

Lemma rev_replicate {A} n (x : A) : rev (replicate n x) = replicate n x.
Proof.
  induction n as [|n IH]; [done|]. cbn [replicate rev]. rewrite IH.
  clear IH. induction n as [|n IH]; [done|]. cbn. by rewrite IH.
Qed.

(** Cleaning the elements of a cleaned path changes nothing. *)
Lemma fold_clean_list rt es :
  clean_list rt es → fold_left (clean_step rt) es [] = rev es.
Proof.
  intros (n & body & -> & Hbody & Hrt).
  rewrite fold_left_app, rev_app_distr, rev_replicate.
  destruct n as [|n].
  - cbn. by apply fold_clean_plain.
  - destruct rt; [by specialize (Hrt eq_refl)|].
    change (@nil string) with (replicate 0 "..") at 1.
    rewrite (fold_clean_dots (S n) 0), Nat.add_0_r.
    by apply fold_clean_plain.
Qed.

(** The output of [Clean], read backwards: names, then parent elements. *)
Lemma clean_step_shape rt e B n :
  no_slash e = true →
  Forall (λ e, plain_name e = true) B → (rt = true → n = 0%nat) →
  ∃ B' n', clean_step rt (B ++ replicate n "..") e = B' ++ replicate n' ".." ∧
           Forall (λ e, plain_name e = true) B' ∧ (rt = true → n' = 0%nat).
Proof.
  intros He HB Hrt. unfold clean_step.
  destruct (String.eqb_spec e "") as [->|H1]; [by exists B, n|].
  destruct (String.eqb_spec e ".") as [->|H2]; [by exists B, n|].
  cbn [orb].
  destruct (String.eqb_spec e "..") as [->|H3].
  - destruct B as [|b B].
    + destruct n as [|n]; cbn.
      * destruct rt; [by exists [], 0%nat | by exists [], 1%nat].
      * exists [], (S (S n)). repeat split; [done|].
        intros ->. by specialize (Hrt eq_refl).
    + inversion HB as [|? ? Hb HB']; subst. cbn.
      apply plain_name_inv in Hb as (_ & _ & _ & Hb).
      rewrite (eqb_false_ne _ _ Hb). by exists B, n.
  - exists (e :: B), n. repeat split; [|done].
    constructor; [|done]. unfold plain_name.
    by rewrite He, !eqb_false_ne.
Qed.

Lemma fold_clean_shape rt l : ∀ B n,
  Forall (λ e, no_slash e = true) l →
  Forall (λ e, plain_name e = true) B → (rt = true → n = 0%nat) →
  ∃ B' n', fold_left (clean_step rt) l (B ++ replicate n "..") =
             B' ++ replicate n' ".." ∧
           Forall (λ e, plain_name e = true) B' ∧ (rt = true → n' = 0%nat).
Proof.
  induction l as [|e l IH]; intros B n Hl HB Hrt.
  - by exists B, n.
  - inversion Hl; subst. cbn [fold_left].
    destruct (clean_step_shape rt e B n) as (B' & n' & -> & HB' & Hrt'); try done.
    by apply IH.
Qed.

Lemma clean_elems_clean s : clean_list (rooted s) (clean_elems s).
Proof.
  unfold clean_elems.
  destruct (fold_clean_shape (rooted s) (split_slash s) [] 0)
    as (B & n & HB & HF & Hrt); [apply split_slash_no_slash | done..|].
  cbn in HB. rewrite HB. exists n, (rev B).
  rewrite rev_app_distr, rev_replicate. repeat split; [|done].
  by apply Forall_rev.
Qed.

(** *** [strings.Join] with a slash, and [Clean] of a cleaned path *)

Lemma clean_list_no_slash rt es :
  clean_list rt es → Forall (λ e, no_slash e = true ∧ e ≠ "") es.
Proof.
  intros (n & body & -> & Hbody & _). apply Forall_app. split.
  - apply Forall_replicate. done.
  - eapply Forall_impl; [done|]. cbn. by intros e (? & ? & _)%plain_name_inv.
Qed.

Lemma split_slash_Join es :
  es ≠ [] → Forall (λ e, no_slash e = true ∧ e ≠ "") es →
  split_slash (Join es "/") = es.
Proof.
  induction es as [|e es IH]; [done|]. intros _ H.
  inversion H as [|? ? [He _] Hes]; subst.
  destruct es as [|e' es].
  - cbn [Join]. by apply split_slash_plain.
  - change (Join (e :: e' :: es) "/") with (e +:+ "/" +:+ Join (e' :: es) "/").
    rewrite split_slash_app, split_slash_plain by done.
    by rewrite IH.
Qed.

Lemma rooted_append (e x : string) : e ≠ "" → rooted (e +:+ x) = rooted e.
Proof. by destruct e. Qed.

Lemma rooted_no_slash e : no_slash e = true → rooted e = false.
Proof.
  destruct e as [|c e]; [done|]. unfold no_slash. cbn.
  by intros [?%negb_true_iff _]%andb_true_iff.
Qed.

Lemma Join_head e es :
  e ≠ "" → ∃ x, Join (e :: es) "/" = e +:+ x.
Proof.
  intros _. destruct es as [|e' es].
  - exists "". cbn [Join]. clear. induction e as [|c e IH]; [done|].
    rewrite append_cons_l. by f_equal.
  - by exists ("/" +:+ Join (e' :: es) "/").
Qed.

Lemma Join_last E name : ∃ q, Join (E ++ [name]) "/" = q +:+ name.
Proof.
  induction E as [|e E [q IH]]; [by exists ""|].
  exists (e +:+ "/" +:+ q).
  change (Join ((e :: E) ++ [name]) "/") with (Join (e :: (E ++ [name])) "/").
  destruct (E ++ [name]) as [|e' t] eqn:Et; [by destruct E|].
  change (Join (e :: e' :: t) "/") with (e +:+ "/" +:+ Join (e' :: t) "/").
  by rewrite IH, !append_assoc.
Qed.

Lemma append_not_empty (a b : string) : b ≠ "" → a +:+ b ≠ "".
Proof. destruct a; [done|]. done. Qed.

(** The location named by a cleaned path is the path's own elements:
    cleaning once more changes nothing. *)
Lemma loc_of_Clean s :
  clean_elems s ≠ [] →
  loc_of (Clean s) = Some (rooted s, clean_elems s).
Proof.
  intros Hne. pose proof (clean_elems_clean s) as Hcl.
  pose proof (clean_list_no_slash _ _ Hcl) as Hns.
  assert (Hs : s ≠ "") by (by intros ->).
  unfold Clean. rewrite (eqb_false_ne _ _ Hs).
  destruct (clean_elems s) as [|e es] eqn:Ees; [done|].
  inversion Hns as [|? ? [He He'] Hes]; subst.
  destruct (Join_head e es He') as [x Hx].
  destruct (rooted s) eqn:Hr.
  - change ("/" +:+ Join (e :: es) "/") with (String "/"%char (Join (e :: es) "/")).
    unfold loc_of, clean_elems.
    change (String.eqb (String "/"%char (Join (e :: es) "/")) "") with false.
    change (rooted (String "/"%char (Join (e :: es) "/"))) with true.
    change (split_slash (String "/"%char (Join (e :: es) "/")))
      with ("" :: split_slash (Join (e :: es) "/")).
    rewrite split_slash_Join by done.
    change (fold_left (clean_step true) ("" :: e :: es) [])
      with (fold_left (clean_step true) (e :: es) []).
    rewrite fold_clean_list by done. by rewrite rev_involutive.
  - assert (HJ : Join (e :: es) "/" ≠ "").
    { rewrite Hx. by destruct e. }
    assert (HrJ : rooted (Join (e :: es) "/") = false).
    { rewrite Hx, rooted_append by done. by apply rooted_no_slash. }
    unfold loc_of. rewrite (eqb_false_ne _ _ HJ), HrJ. f_equal. f_equal.
    unfold clean_elems. rewrite HrJ, split_slash_Join by done.
    rewrite fold_clean_list by done. apply rev_involutive.
Qed.

Lemma clean_elems_child d name :
  d ≠ "" → plain_name name = true →
  rooted (d +:+ "/" +:+ name) = rooted d ∧
  clean_elems (d +:+ "/" +:+ name) = clean_elems d ++ [name].
Proof.
  intros Hd Hn. split; [by apply rooted_append|].
  unfold clean_elems. rewrite rooted_append by done.
  destruct (plain_name_inv _ Hn) as (Hns & _).
  rewrite split_slash_app, (split_slash_plain name) by done.
  rewrite fold_left_app. cbn [fold_left]. by rewrite clean_step_plain.
Qed.

Lemma clean_elems_plain name :
  plain_name name = true → rooted name = false ∧ clean_elems name = [name].
Proof.
  intros Hn. destruct (plain_name_inv _ Hn) as (Hns & _).
  pose proof (rooted_no_slash _ Hns) as Hr. split; [done|].
  unfold clean_elems. rewrite split_slash_plain by done.
  cbn [fold_left]. by rewrite clean_step_plain.
Qed.

(** [filepath.Join(dir, name)] names the child [name] of the location of
    [dir] (of the working directory, for an empty [dir]), and its text
    ends in [name]. *)
Lemma Join_child dir name :
  plain_name name = true →
  loc_of (filepath_Join dir name) = Some (rooted dir, clean_elems dir ++ [name]) ∧
  ∃ q, filepath_Join dir name = q +:+ name.
Proof.
  intros Hn. destruct (plain_name_inv _ Hn) as (Hns & Hne & _).
  unfold filepath_Join.
  destruct (String.eqb_spec dir "") as [->|Hd]; cbn [negb].
  - rewrite (eqb_false_ne _ _ Hne). cbn [negb].
    destruct (clean_elems_plain _ Hn) as [Hr He].
    split.
    + rewrite loc_of_Clean by (by rewrite He). by rewrite Hr, He.
    + exists "". unfold Clean. by rewrite (eqb_false_ne _ _ Hne), Hr, He.
  - destruct (clean_elems_child dir name Hd Hn) as [Hr He].
    split.
    + rewrite loc_of_Clean by (rewrite He; by destruct (clean_elems dir)).
      by rewrite Hr, He.
    + unfold Clean.
      assert (Hs : dir +:+ "/" +:+ name ≠ "") by (by destruct dir).
      rewrite (eqb_false_ne _ _ Hs), Hr, He.
      destruct (Join_last (clean_elems dir) name) as [q Hq]. rewrite Hq.
      destruct (rooted dir).
      * exists ("/" +:+ q). by rewrite append_assoc.
      * exists q. by destruct (clean_elems dir ++ [name]) eqn:E;
          [destruct (clean_elems dir)|].
Qed.

(** *** Suffixes *)

Lemma len_append (a b : string) : len (a +:+ b) = (len a + len b)%nat.
Proof.
  unfold len. induction a as [|c a IH]; [done|].
  rewrite append_cons_l. cbn [String.length]. by rewrite IH.
Qed.

Lemma drop_str_append (a b : string) k :
  drop_str (len a + k) (a +:+ b) = drop_str k b.
Proof. induction a as [|c a IH]; [done|]. rewrite append_cons_l. apply IH. Qed.

Lemma HasSuffix_append q t suf :
  (len suf <= len t)%nat → HasSuffix (q +:+ t) suf = HasSuffix t suf.
Proof.
  intros H. unfold HasSuffix. rewrite len_append.
  replace (len q + len t - len suf)%nat with (len q + (len t - len suf))%nat by lia.
  rewrite drop_str_append.
  destruct (Nat.leb_spec (len suf) (len q + len t)); [|lia].
  by destruct (Nat.leb_spec (len suf) (len t)); [|lia].
Qed.

Lemma endsWithDot_child q name :
  (2 <= len name)%nat → HasSuffix name "/." = false →
  endsWithDot (q +:+ name) = false.
Proof.
  intros Hlen Hsuf. unfold endsWithDot.
  rewrite HasSuffix_append, Hsuf by done.
  rewrite orb_false_r. apply eqb_false_ne. intros H.
  apply (f_equal len) in H. rewrite len_append in H. cbn in H. lia.
Qed.

End PathFacts.

(* --------------------------------------------------------------------- *)
(** ** Clearing the three categories                                      *)
(* --------------------------------------------------------------------- *)

Module ClearFacts.
Import GoStrings OS Cmd Spec FsFacts PathFacts.

Lemma category_locs_eq dir :
  category_locs dir =
  [ (rooted dir, clean_elems dir ++ [dirTable]);
    (rooted dir, clean_elems dir ++ [dirIndex]);
    (rooted dir, clean_elems dir ++ [dirStaticData]) ].
Proof.
  unfold category_locs. cbn [omap list_omap].
  destruct (Join_child dir dirTable eq_refl) as [-> _].
  destruct (Join_child dir dirIndex eq_refl) as [-> _].
  by destruct (Join_child dir dirStaticData eq_refl) as [-> _].
Qed.

Lemma is_base_child r es name : name ≠ ".." → is_base (r, es ++ [name]) = false.
Proof.
  intros H. unfold is_base. cbn [snd]. rewrite forallb_app. cbn [forallb].
  destruct (String.eqb_spec ".." name) as [E|_]; [by destruct H|].
  by rewrite andb_false_r.
Qed.

(** the directories on the way to a child are not below the child *)
Lemma walk_remove σ r es name : ∀ rest pre,
  pre ++ rest = es →
  walk (filter (λ kv, ¬ under (r, es ++ [name]) kv.1) σ) r pre rest =
  walk σ r pre rest.
Proof.
  induction rest as [|x rest IH]; intros pre Hes; [done|]. cbn [walk].
  assert (Hn : node_at (filter (λ kv, ¬ under (r, es ++ [name]) kv.1) σ) (r, pre ++ [x])
               = node_at σ (r, pre ++ [x])).
  { unfold node_at. destruct (is_base (r, pre ++ [x])); [done|].
    destruct (σ !! (r, pre ++ [x])) as [n|] eqn:E.
    - apply map_lookup_filter_Some. split; [done|]. cbn. intros [_ Hp].
      cbn in Hp. apply prefix_length in Hp. subst es.
      rewrite !length_app in Hp. cbn in Hp. lia.
    - apply map_lookup_filter_None. by left. }
  rewrite Hn. destruct (node_at σ (r, pre ++ [x])) as [[|]|]; try done.
  apply IH. by rewrite <- app_assoc.
Qed.

(** [RemoveAll] of a child of [dir] *)
Lemma RemoveAll_child σ dir name :
  plain_name name = true → (2 <= len name)%nat → HasSuffix name "/." = false →
  RemoveAll σ (filepath_Join dir name) =
  match walk σ (rooted dir) [] (clean_elems dir) with
  | Some ENOENT => (σ, None)
  | Some e => (σ, Some e)
  | None =>
      (filter (λ kv, ¬ under (rooted dir, clean_elems dir ++ [name]) kv.1) σ, None)
  end.
Proof.
  intros Hn Hlen Hsuf. destruct (Join_child dir name Hn) as [Hl [q Hq]].
  destruct (plain_name_inv _ Hn) as (_ & Hne & _ & Hdd).
  unfold RemoveAll. rewrite Hl. rewrite Hq.
  rewrite (eqb_false_ne (q +:+ name) ""), endsWithDot_child by
    (done || by apply append_not_empty).
  by rewrite is_base_child, removelast_last.
Qed.

Lemma clearSchemaDir_unfold c σ :
  clearSchemaDir c σ =
  match walk σ (rooted (schemaDirPath c)) [] (clean_elems (schemaDirPath c)) with
  | Some ENOENT => (σ, None)
  | Some e => (σ, Some (PathError e))
  | None =>
      (filter (λ kv, ¬ in_category (schemaDirPath c) kv.1) σ, None)
  end.
Proof.
  pose proof (λ σ, RemoveAll_child σ (schemaDirPath c) dirTable
                     eq_refl ltac:(cbn; lia) eq_refl) as Ht.
  pose proof (λ σ, RemoveAll_child σ (schemaDirPath c) dirIndex
                     eq_refl ltac:(cbn; lia) eq_refl) as Hi.
  pose proof (λ σ, RemoveAll_child σ (schemaDirPath c) dirStaticData
                     eq_refl ltac:(cbn; lia) eq_refl) as Hs.
  unfold clearSchemaDir, remove_all.
  set (r := rooted (schemaDirPath c)) in *.
  set (es := clean_elems (schemaDirPath c)) in *.
  rewrite Ht. destruct (walk σ r [] es) as [e|] eqn:Hw.
  - destruct e; cbn; try done. rewrite Hi, Hw. cbn. by rewrite Hs, Hw.
  - cbn. rewrite Hi, walk_remove, Hw by done. cbn.
    rewrite Hs, walk_remove, walk_remove, Hw by done. cbn.
    f_equal. rewrite !map_filter_filter.
    apply map_filter_ext. intros k n _. cbn.
    unfold in_category. rewrite category_locs_eq, !Exists_cons, Exists_nil.
    fold r es. tauto.
Qed.

Lemma clearSchemaDir_error c σ σ' e :
  clearSchemaDir c σ = (σ', Some e) → σ' = σ.
Proof.
  rewrite clearSchemaDir_unfold.
  destruct (walk σ _ [] _) as [[]|]; by intros [= <-].
Qed.

(** After a successful clearing nothing is left in the three categories,
    and nothing else has changed. *)
Lemma clearSchemaDir_ok c σ σ' : wf σ →
  clearSchemaDir c σ = (σ', None) →
  ∀ k, σ' !! k = if decide (in_category (schemaDirPath c) k) then None
                 else σ !! k.
Proof.
  intros Hwf. rewrite clearSchemaDir_unfold.
  destruct (walk σ _ [] _) as [e|] eqn:Hw.
  - destruct e; intros [= <-]; try done. intros k.
    destruct (decide (in_category (schemaDirPath c) k)) as [Hin|]; [|done].
    destruct (walk_error _ _ _ _ _ Hw) as (i & Hi & [[_ Hnone]|[[=] _]]).
    unfold in_category in Hin. rewrite category_locs_eq in Hin.
    assert (∃ t, k = (rooted (schemaDirPath c), clean_elems (schemaDirPath c) ++ t))
      as [t ->].
    { rewrite !Exists_cons, Exists_nil in Hin. destruct k as [r' es'].
      unfold under in Hin. cbn [fst snd] in Hin.
      destruct Hin as [[-> [t ->]]|[[-> [t ->]]|[[-> [t ->]]|[]]]];
        rewrite <- app_assoc; by eexists. }
    unfold on_the_way in Hnone. cbn [app] in Hnone.
    pose proof (wf_below_missing _ _ _ Hwf Hnone
                  (drop (S i) (clean_elems (schemaDirPath c)) ++ t)) as Hb.
    rewrite app_assoc, take_drop in Hb. by apply node_at_None in Hb as [_ ?].
  - intros [= <-] k.
    destruct (decide (in_category (schemaDirPath c) k)) as [Hin|Hout].
    + apply map_lookup_filter_None. right. intros n _. cbn. tauto.
    + destruct (σ !! k) as [n|] eqn:E.
      * apply map_lookup_filter_Some. by split.
      * apply map_lookup_filter_None. by left.
Qed.

Lemma wf_clearSchemaDir c σ : wf σ → wf (clearSchemaDir c σ).1.
Proof.
  intros Hwf. unfold clearSchemaDir, remove_all.
  pose proof (wf_RemoveAll σ (filepath_Join (schemaDirPath c) dirTable) Hwf) as H1.
  destruct (RemoveAll σ _) as [σ1 [e1|]]; [done|]. cbn in *.
  pose proof (wf_RemoveAll σ1 (filepath_Join (schemaDirPath c) dirIndex) H1) as H2.
  destruct (RemoveAll σ1 _) as [σ2 [e2|]]; [done|]. cbn in *.
  pose proof (wf_RemoveAll σ2 (filepath_Join (schemaDirPath c) dirStaticData) H2) as H3.
  by destruct (RemoveAll σ2 _) as [σ3 e3].
Qed.

(** Clearing the first state of a run, and clearing a later state [T] of
    it: the cleared states are related. *)
Lemma clearSchemaDir_replay c a a0 T b0 : wf a → wf T →
  clearSchemaDir c a = (a0, None) → clearSchemaDir c T = (b0, None) →
  replays T a0 b0.
Proof.
  intros Hwa HwT Ha Hb k.
  rewrite (clearSchemaDir_ok _ _ _ Hwa Ha k), (clearSchemaDir_ok _ _ _ HwT Hb k).
  destruct (decide (in_category (schemaDirPath c) k)); [by left | by right].
Qed.

End ClearFacts.

(* --------------------------------------------------------------------- *)
(** ** The discrete export, step by step                                  *)
(* --------------------------------------------------------------------- *)

Module Discrete.
Import GoStrings OS Cmd Spec FsFacts PathFacts ClearFacts.

Lemma world_eta w : mkWorld (files w) (trace w) = w.
Proof. by destruct w. Qed.

(** the loop of the command, on the file system and on the trace *)
Lemma forEach_call {A} (S : A → step) (f : A → fs → fs * option error) xs :
  ∀ w,
  forEach xs (λ x, call (S x) (λ σ, to_result (f x σ))) w =
  (match (iter_ops f xs (files w)).2 with
   | Some e => inl (CmdError e)
   | None => inr tt
   end,
   mkWorld (iter_ops f xs (files w)).1 (trace w ++ ops_trace S f xs (files w))).
Proof.
  induction xs as [|x xs IH]; intros w; cbn [forEach iter_ops ops_trace].
  - unfold ret. cbn. by rewrite app_nil_r, world_eta.
  - unfold bind, call. destruct (f x (files w)) as [σ' [e|]]; cbn; [done|].
    rewrite IH. cbn. by rewrite <- app_assoc.
Qed.

Section Discrete.

Variable defaultStaticDataTablesFile : string.
Variable schemaFilePath : Command → string.
Variable staticDataTablesFilePath : Command → string.
Variable newSpannerClient : Command → result Client.
Variable ToFileName : StaticData → string.
Variable json_Unmarshal : string → staticDataConfig * option error.

Abbreviation loadDiscrete :=
  (Cmd.loadDiscrete defaultStaticDataTablesFile staticDataTablesFilePath
     newSpannerClient ToFileName json_Unmarshal).
Abbreviation readConfig :=
  (Cmd.readStaticDataTablesFile defaultStaticDataTablesFile json_Unmarshal).
Abbreviation writeData := (Cmd.writeData ToFileName).

Lemma loadDiscrete_unfold c w :
  loadDiscrete c w =
  match newSpannerClient c with
  | inl e => (inl e, w)
  | inr client =>
    match LoadDDLs client with
    | inl e =>
        (inl (CmdError e), mkWorld (files w) (trace w ++ [(FetchSchema, false)]))
    | inr ddls =>
      let fd := λ ddl, writeDDL ddl (schemaDirPath c) in
      let fw := λ d, writeData d (schemaDirPath c) in
      let t1 := trace w ++ [(FetchSchema, true)] in
      match clearSchemaDir c (files w) with
      | (σ1, Some e) =>
          (inl (CmdError e), mkWorld σ1 (t1 ++ [(ClearDirectory, false)]))
      | (σ1, None) =>
        let t2 := (t1 ++ [(ClearDirectory, true)]) ++ ops_trace WriteObject fd ddls σ1 in
        match iter_ops fd ddls σ1 with
        | (σ2, Some e) => (inl (CmdError e), mkWorld σ2 t2)
        | (σ2, None) =>
          match readConfig σ2 (staticDataTablesFilePath c) with
          | (_, Some e) =>
              (inl (CmdError e), mkWorld σ2 (t2 ++ [(ResolveConfig, false)]))
          | (config, None) =>
            let t3 := t2 ++ [(ResolveConfig, true)] in
            match LoadStaticDatas client (StaticDataTables config)
                                  (CustomOrderBy config) with
            | inl e =>
                (inl (CmdError e),
                 mkWorld σ2 (t3 ++ [(FetchStaticData config, false)]))
            | inr datas =>
                (match (iter_ops fw datas σ2).2 with
                 | Some e => inl (CmdError e)
                 | None => inr tt
                 end,
                 mkWorld (iter_ops fw datas σ2).1
                   ((t3 ++ [(FetchStaticData config, true)]) ++
                    ops_trace WriteStaticData fw datas σ2))
            end
          end
        end
      end
    end
  end.
Proof.
  unfold Cmd.loadDiscrete, bind, connect.
  destruct (newSpannerClient c) as [e|client]; [done|].
  unfold call at 1, pure_step at 1. cbn [files trace].
  destruct (LoadDDLs client) as [e|ddls]; [done|]. cbv beta iota.
  unfold call at 1. cbn [files trace].
  destruct (clearSchemaDir c (files w)) as [σ1 [e|]]; [done|].
  cbv beta iota. unfold to_result at 1. cbv beta iota.
  rewrite forEach_call. cbn [files trace].
  destruct (iter_ops _ ddls σ1) as [σ2 [e|]]; [done|]. cbn [fst snd].
  cbv beta iota.
  unfold call at 1. cbn [files trace].
  destruct (readConfig σ2 (staticDataTablesFilePath c)) as [config [e|]]; [done|].
  cbv beta iota. unfold call at 1, pure_step. cbn [files trace].
  destruct (LoadStaticDatas client _ _) as [e|datas]; [done|]. cbv beta iota.
  by rewrite forEach_call.
Qed.

Lemma writeDDL_is_write dir :
  ∀ (ddl : SchemaDDL) σ, writeDDL ddl dir σ = write_op (ddl_op dir ddl) σ.
Proof. reflexivity. Qed.

Lemma writeData_is_write dir :
  ∀ (d : StaticData) σ, writeData d dir σ = write_op (data_op ToFileName dir d) σ.
Proof. reflexivity. Qed.

(** The second run up to the resolution of the configuration: it stops in
    the clearing with the state unchanged, or replays the schema objects
    of the first run. *)
Lemma second_run_schema c w T ddls a0 a2 e2 :
  wf (files w) → wf T →
  clearSchemaDir c (files w) = (a0, None) →
  iter_ops (λ ddl, writeDDL ddl (schemaDirPath c)) ddls a0 = (a2, e2) →
  grows a2 T → (e2 ≠ None → a2 = T) →
  (∃ e, clearSchemaDir c T = (T, Some e)) ∨
  (∃ b0 b2 e2',
     clearSchemaDir c T = (b0, None) ∧
     iter_ops (λ ddl, writeDDL ddl (schemaDirPath c)) ddls b0 = (b2, e2') ∧
     (e2 = None ↔ e2' = None) ∧ replays T a2 b2 ∧ wf b2).
Proof.
  intros Hwf HwT Hcl Hit HG Hfail.
  destruct (clearSchemaDir c T) as [b0 [eb|]] eqn:Hclb.
  - left. exists eb. by rewrite (clearSchemaDir_error _ _ _ _ Hclb).
  - right.
    pose proof (wf_clearSchemaDir c _ Hwf) as Hwa0. rewrite Hcl in Hwa0.
    pose proof (wf_clearSchemaDir c _ HwT) as Hwb0. rewrite Hclb in Hwb0.
    cbn [fst] in Hwa0, Hwb0.
    pose proof (clearSchemaDir_replay _ _ _ _ _ Hwf HwT Hcl Hclb) as HR.
    destruct (iter_ops_replay T (λ ddl, writeDDL ddl (schemaDirPath c)) _ (writeDDL_is_write (schemaDirPath c)) ddls
                _ _ _ _ Hwa0 Hwb0 HR Hit HG Hfail) as (b2 & e2' & Hitb & He & HR2).
    exists b0, b2, e2'. repeat split; try done; try apply He.
    pose proof (wf_iter_ops (λ ddl, writeDDL ddl (schemaDirPath c)) _ (writeDDL_is_write (schemaDirPath c)) ddls b0 Hwb0) as H.
    by rewrite Hitb in H.
Qed.

(** C5: the discrete export run twice on a well-formed file system, with
    the provider answering the same and the configuration resolved to the
    same result in both runs, leaves after the second run the file system
    of the first run: same files and directories, same contents, same
    permission bits. *)
Theorem loadDiscrete_twice_same_tree c w :
  wf (files w) →
  (∀ client ddls,
     newSpannerClient c = inr client → LoadDDLs client = inr ddls →
     readConfig (schema_phase c ddls (files (loadDiscrete c w).2))
                (staticDataTablesFilePath c) =
     readConfig (schema_phase c ddls (files w)) (staticDataTablesFilePath c)) →
  files (loadDiscrete c (loadDiscrete c w).2).2 = files (loadDiscrete c w).2.
Proof.
  intros Hwf Hcfg.
  rewrite (loadDiscrete_unfold c (loadDiscrete c w).2).
  rewrite (loadDiscrete_unfold c w) in Hcfg |- *.
  destruct (newSpannerClient c) as [e|client] eqn:Hc; [done|].
  specialize (Hcfg client).
  destruct (LoadDDLs client) as [e|ddls] eqn:Hd; [done|].
  specialize (Hcfg ddls eq_refl eq_refl). cbv zeta in *.
  set (fd := λ ddl, writeDDL ddl (schemaDirPath c)) in *.
  set (fw := λ d, writeData d (schemaDirPath c)) in *.
  destruct (clearSchemaDir c (files w)) as [a0 [e|]] eqn:Hcl.
  { cbn [files snd]. pose proof (clearSchemaDir_error _ _ _ _ Hcl) as ->.
    by rewrite Hcl. }
  pose proof (wf_clearSchemaDir c _ Hwf) as Hwa0. rewrite Hcl in Hwa0.
  cbn [fst] in Hwa0.
  destruct (iter_ops fd ddls a0) as [a2 e2] eqn:Hit.
  pose proof (wf_iter_ops (λ ddl, writeDDL ddl (schemaDirPath c)) _ (writeDDL_is_write (schemaDirPath c)) ddls a0 Hwa0) as Hwa2.
  fold fd in Hwa2. rewrite Hit in Hwa2. cbn [fst] in Hwa2.
  unfold schema_phase in Hcfg. fold fd in Hcfg.
  rewrite Hcl in Hcfg. cbn [fst] in Hcfg. rewrite Hit in Hcfg. cbn [fst] in Hcfg.
  destruct e2 as [e2|].
  { (* a schema object could not be written *)
    cbn [files snd].
    destruct (second_run_schema c w a2 ddls a0 a2 (Some e2) Hwf Hwa2 Hcl Hit
                (grows_refl _) (λ _, eq_refl))
      as [[eb ->]|(b0 & b2 & e2' & -> & Hitb & He & HR & _)]; [done|].
    fold fd in Hitb. rewrite Hitb. apply replays_same in HR. subst b2.
    destruct e2' as [e2'|]; [done|]. destruct He as [_ He]. by specialize (He eq_refl). }
  destruct (readConfig a2 (staticDataTablesFilePath c)) as [config [e|]] eqn:Hrc.
  { (* the configuration could not be read *)
    cbn [files snd].
    destruct (second_run_schema c w a2 ddls a0 a2 None Hwf Hwa2 Hcl Hit
                (grows_refl _) ltac:(done))
      as [[eb ->]|(b0 & b2 & e2' & -> & Hitb & He & HR & _)]; [done|].
    fold fd in Hitb. rewrite Hitb. apply replays_same in HR. subst b2.
    destruct e2' as [e2'|]; [destruct He as [He _]; by specialize (He eq_refl)|].
    by rewrite Hrc. }
  destruct (LoadStaticDatas client (StaticDataTables config) (CustomOrderBy config))
    as [e|datas] eqn:Hls.
  { (* the static data could not be fetched *)
    cbn [files snd].
    destruct (second_run_schema c w a2 ddls a0 a2 None Hwf Hwa2 Hcl Hit
                (grows_refl _) ltac:(done))
      as [[eb ->]|(b0 & b2 & e2' & -> & Hitb & He & HR & _)]; [done|].
    fold fd in Hitb. rewrite Hitb. apply replays_same in HR. subst b2.
    destruct e2' as [e2'|]; [destruct He as [He _]; by specialize (He eq_refl)|].
    by rewrite Hrc, Hls. }
  (* the static data is written *)
  cbn [files snd] in Hcfg |- *.
  destruct (iter_ops fw datas a2) as [T e3] eqn:Hitw. cbn [fst snd] in *.
  pose proof (wf_iter_ops (λ d, writeData d (schemaDirPath c)) _ (writeData_is_write (schemaDirPath c)) datas a2 Hwa2) as HwT.
  fold fw in HwT. rewrite Hitw in HwT. cbn [fst] in HwT.
  pose proof (iter_ops_grows (λ d, writeData d (schemaDirPath c)) _ (writeData_is_write (schemaDirPath c)) datas _ _ _ Hitw) as HG.
  destruct (second_run_schema c w T ddls a0 a2 None Hwf HwT Hcl Hit HG ltac:(done))
    as [[eb ->]|(b0 & b2 & e2' & Hclb & Hitb & He & HR & Hwb2)]; [done|].
  rewrite Hclb in Hcfg |- *. cbn [fst] in Hcfg. fold fd in Hitb.
  rewrite Hitb in Hcfg |- *. cbn [fst] in Hcfg.
  destruct e2' as [e2'|]; [destruct He as [He _]; by specialize (He eq_refl)|].
  rewrite Hcfg. rewrite ?Hrc. rewrite Hls. cbn [files snd].
  destruct (iter_ops_replay T (λ d, writeData d (schemaDirPath c)) _ (writeData_is_write (schemaDirPath c)) datas
              _ _ _ _ Hwa2 Hwb2 HR Hitw (grows_refl _) (λ _, eq_refl))
    as (b3 & e3' & Hitwb & _ & HR3).
  fold fw in Hitwb. rewrite Hitwb. cbn [fst]. by apply replays_same.
Qed.

(** *** What the loops leave in the file system and in the trace *)

Lemma mkdir_file σ p σ' e k m content :
  mkdir σ p = (σ', e) →
  σ' !! k = Some (File m content) → σ !! k = Some (File m content).
Proof.
  intros H Hk.
  destruct (mkdir_inv _ _ _ _ H)
    as [(n & _ & -> & _)|[(_ & -> & _)|(e0 & _ & _ & -> & _)]]; try done.
  unfold MkdirAll in Hk. destruct (loc_of p) as [[r es]|]; [|done].
  destruct (mkdir_all σ r [] es perm0700) as [σ1 e1] eqn:E.
  destruct (mkdir_all_lookup _ _ _ _ _ _ _ E k) as [<-|(_ & Hd & _)]; [done|].
  cbn in Hk. congruence.
Qed.

Lemma write_op_file o σ σ' e k m content :
  write_op o σ = (σ', e) →
  σ' !! k = Some (File m content) →
  σ !! k = Some (File m content) ∨
  (loc_of o.1.1.2 = Some k ∧ content = o.1.2).
Proof.
  intros H Hk.
  destruct (write_op_inv _ _ _ _ H) as [(e0 & Hm & _)|(σ1 & Hm & Hw)].
  - left. by eapply mkdir_file.
  - destruct (write_file_inv _ _ _ _ _ _ Hw) as (e0 & Hw' & _).
    destruct (WriteFile_inv _ _ _ _ _ _ Hw')
      as [[_ ->]|(_ & r & es & x & m' & Hl & _ & _ & _ & ->)].
    + left. by eapply mkdir_file.
    + destruct (decide (k = (r, es ++ [x]))) as [->|Hne].
      * right. rewrite lookup_insert_eq in Hk. split; [done | congruence].
      * left. rewrite lookup_insert_ne in Hk by done. by eapply mkdir_file.
Qed.

Lemma iter_ops_file {A} (f : A → fs → fs * option error)
    (g : A → string * string * string * Z) xs :
  (∀ x σ, f x σ = write_op (g x) σ) →
  ∀ σ σ' e k m content,
  iter_ops f xs σ = (σ', e) →
  σ' !! k = Some (File m content) →
  σ !! k = Some (File m content) ∨
  ∃ x, x ∈ xs ∧ loc_of (g x).1.1.2 = Some k ∧ content = (g x).1.2.
Proof.
  intros Hf. induction xs as [|x xs IH]; intros σ σ' e k m content; cbn [iter_ops].
  - intros [= <- _] Hk. by left.
  - destruct (f x σ) as [σ1 e1] eqn:Hfx. rewrite Hf in Hfx.
    assert (Hstep : σ1 !! k = Some (File m content) →
              σ !! k = Some (File m content) ∨
              ∃ x0, x0 ∈ x :: xs ∧ loc_of (g x0).1.1.2 = Some k ∧
                    content = (g x0).1.2).
    { intros H1. destruct (write_op_file _ _ _ _ _ _ _ Hfx H1) as [?|[? ?]];
        [by left|]. right. exists x. split; [apply list_elem_of_here | done]. }
    destruct e1 as [e1|].
    + intros [= <- _]. apply Hstep.
    + intros Hit Hk. destruct (IH _ _ _ _ _ _ Hit Hk) as [H1|(x0 & Hx0 & ?)].
      * by apply Hstep.
      * right. exists x0. split; [by apply list_elem_of_further | done].
Qed.

(** a loop that succeeds records every object, in order *)
Lemma ops_trace_ok {A} (S : A → step) (f : A → fs → fs * option error) xs :
  ∀ σ σ', iter_ops f xs σ = (σ', None) →
  ops_trace S f xs σ = map (λ x, (S x, true)) xs.
Proof.
  induction xs as [|x xs IH]; intros σ σ'; cbn [iter_ops ops_trace map]; [done|].
  destruct (f x σ) as [σ1 [e1|]]; [done|]. intros H. f_equal. by eapply IH.
Qed.

(** a loop runs in one phase, and leaves it only by failing *)
Lemma ops_trace_phases {A} (S : A → step) (f : A → fs → fs * option error)
    (p : phase) xs :
  (∀ x ok, next_phase p (S x, ok) = after ok p) →
  ∀ σ, run_phases p (ops_trace S f xs σ) =
       Some (match (iter_ops f xs σ).2 with Some _ => Failed | None => p end).
Proof.
  intros Hp. induction xs as [|x xs IH]; intros σ; cbn [iter_ops ops_trace]; [done|].
  destruct (f x σ) as [σ1 [e1|]]; cbn [run_phases]; rewrite Hp; cbn; [done|].
  apply IH.
Qed.

Lemma run_phases_app p tr1 tr2 :
  run_phases p (tr1 ++ tr2) =
  match run_phases p tr1 with
  | Some q => run_phases q tr2
  | None => None
  end.
Proof.
  revert p. induction tr1 as [|ev tr1 IH]; intros p; cbn; [done|].
  destruct (next_phase p ev); [apply IH | done].
Qed.

(** *** The state machine *)

Lemma next_phase_Failed ev : next_phase Failed ev = None.
Proof. by destruct ev as [[] ?]. Qed.

Lemma run_phases_Failed tr q : run_phases Failed tr = Some q → tr = [].
Proof.
  destruct tr as [|ev tr]; [done|]. cbn [run_phases].
  by rewrite next_phase_Failed.
Qed.

Lemma next_phase_fail p ev q :
  next_phase p ev = Some q → ev.2 = false → q = Failed.
Proof.
  destruct ev as [s []]; [done|]. intros H _.
  destruct p, s; cbn in H; by inversion H.
Qed.

(** a failed step is the last step *)
Lemma failure_is_last tr : ∀ p q i ev,
  run_phases p tr = Some q → tr !! i = Some ev → ev.2 = false →
  S i = length tr.
Proof.
  induction tr as [|ev0 tr IH]; intros p q i ev; [done|]. cbn [run_phases].
  destruct (next_phase p ev0) as [p'|] eqn:Hn; [|done]. intros Hrun.
  destruct i as [|i]; cbn.
  - intros [= ->] Hf. rewrite (next_phase_fail _ _ _ Hn Hf) in Hrun.
    by rewrite (run_phases_Failed _ _ Hrun).
  - intros Hi Hf. f_equal. by eapply IH.
Qed.

Lemma no_clear_later tr : ∀ p q i b,
  cleared_phase p = true → run_phases p tr = Some q →
  tr !! i ≠ Some (ClearDirectory, b).
Proof.
  induction tr as [|ev tr IH]; intros p q i b Hp; [done|]. cbn [run_phases].
  destruct (next_phase p ev) as [p'|] eqn:Hn; [|done]. intros Hrun.
  assert (ev.1 ≠ ClearDirectory ∧ cleared_phase p' = true) as [Hev Hp'].
  { destruct ev as [s ok]. destruct p, s; try done; cbn in Hn;
      injection Hn as <-; by destruct ok. }
  destruct i as [|i]; cbn.
  - intros [= ->]. by destruct Hev.
  - by eapply IH.
Qed.

(** the directory is cleared once, as the second step *)
Lemma clear_is_second tr q i b :
  run_phases Start tr = Some q → tr !! i = Some (ClearDirectory, b) → i = 1%nat.
Proof.
  destruct tr as [|[s1 ok1] tr]; [done|]. cbn [run_phases].
  destruct s1; try done. cbn. destruct ok1; cbn.
  - destruct tr as [|[s2 ok2] tr]; [by destruct i|]. cbn [run_phases].
    destruct s2; try done. cbn. intros Hrun.
    destruct i as [|[|i]]; [done..|]. cbn. intros Hi.
    by destruct (no_clear_later tr (if ok2 then DirectoryCleared else Failed)
                   q i b ltac:(by destruct ok2) Hrun).
  - intros ->%run_phases_Failed. by destruct i.
Qed.

(** an artifact is written only after the directory was cleared *)
Lemma write_after_clear tr q j s b :
  run_phases Start tr = Some q → tr !! j = Some (s, b) → is_write s = true →
  tr !! 1%nat = Some (ClearDirectory, true) ∧ (1 < j)%nat.
Proof.
  destruct tr as [|[s1 ok1] tr]; [done|]. cbn [run_phases].
  destruct s1; try done. cbn. destruct ok1; cbn.
  - destruct tr as [|[s2 ok2] tr]; [by destruct j as [|[|j]]; intros _ [= <- _]|].
    cbn [run_phases]. destruct s2; try done. cbn. destruct ok2; cbn.
    + intros _. destruct j as [|[|j]]; cbn; [by intros [= <- _]..|].
      intros _ _. split; [done | lia].
    + intros ->%run_phases_Failed. by destruct j as [|[|j]]; intros [= <- _].
  - intros ->%run_phases_Failed. by destruct j as [|j]; intros [= <- _].
Qed.

(** C6: after a successful discrete export on a well-formed file system,
    every regular file in one of the three categories [table], [index],
    [static_data] is the file of a schema object or of a static data set
    of this run, with the content this run wrote: a file of an earlier
    run that corresponds to no object of this run is not there.  The
    schema objects are those the provider returned, the static data sets
    those it returned for the configuration the run resolved, which is
    read once the schema objects are written. *)
Theorem no_stale_artifacts c w w' client ddls :
  wf (files w) →
  newSpannerClient c = inr client → LoadDDLs client = inr ddls →
  loadDiscrete c w = (inr tt, w') →
  ∃ config datas,
    readConfig (schema_phase c ddls (files w)) (staticDataTablesFilePath c)
      = (config, None) ∧
    LoadStaticDatas client (StaticDataTables config) (CustomOrderBy config)
      = inr datas ∧
    ∀ k m content,
      in_category (schemaDirPath c) k →
      files w' !! k = Some (File m content) →
      (∃ ddl, ddl ∈ ddls ∧
              loc_of (ddl_path (schemaDirPath c) ddl) = Some k ∧
              content = Statement ddl) ∨
      (∃ d, d ∈ datas ∧
            loc_of (data_path ToFileName (schemaDirPath c) d) = Some k ∧
            content = Join (Statements d) (String "010" "")).
Proof.
  intros Hwf Hc Hd. rewrite loadDiscrete_unfold, Hc, Hd. cbv zeta.
  destruct (clearSchemaDir c (files w)) as [σ1 [e|]] eqn:Hcl; [done|].
  destruct (iter_ops _ ddls σ1) as [σ2 [e|]] eqn:Hit; [done|].
  destruct (readConfig σ2 (staticDataTablesFilePath c)) as [config [e|]] eqn:Hcfg;
    [done|].
  destruct (LoadStaticDatas client _ _) as [e|datas] eqn:Hls; [done|].
  destruct (iter_ops _ datas σ2) as [σ3 [e|]] eqn:Hitw; [done|].
  intros [= <-]. exists config, datas. split.
  { unfold schema_phase. rewrite Hcl. cbn [fst]. by rewrite Hit. }
  split; [done|].
  intros k m content Hin Hk. cbn [files] in Hk.
  destruct (iter_ops_file _ _ datas (writeData_is_write (schemaDirPath c))
              _ _ _ _ _ _ Hitw Hk) as [Hk2|(d & Hd' & Hl & ->)].
  - left.
    destruct (iter_ops_file _ _ ddls (writeDDL_is_write (schemaDirPath c))
                _ _ _ _ _ _ Hit Hk2) as [Hk1|(ddl & Hddl & Hl & ->)].
    + rewrite (clearSchemaDir_ok _ _ _ Hwf Hcl k) in Hk1.
      by destruct (decide (in_category (schemaDirPath c) k)).
    + by exists ddl.
  - right. by exists d.
Qed.

(** The trace of a run, the phase it ends in, and the file system when
    the schema was not fetched. *)
Lemma discrete_trace c w r w' :
  loadDiscrete c w = (r, w') →
  ∃ tr q,
    trace w' = trace w ++ tr ∧
    run_phases Start tr = Some q ∧
    match r with
    | inr _ =>
        q = StaticDataFetched ∧
        ∃ client ddls config datas,
          newSpannerClient c = inr client ∧ LoadDDLs client = inr ddls ∧
          LoadStaticDatas client (StaticDataTables config) (CustomOrderBy config)
            = inr datas ∧
          tr = full_trace ddls config datas
    | inl _ => q = Failed ∨ tr = []
    end ∧
    ((FetchSchema, true) ∉ tr → files w' = files w).
Proof.
  rewrite loadDiscrete_unfold.
  destruct (newSpannerClient c) as [e|client] eqn:Hc.
  { intros [= <- <-]. exists [], Start. rewrite app_nil_r. repeat split; by right. }
  destruct (LoadDDLs client) as [e|ddls] eqn:Hd.
  { intros [= <- <-]. exists [(FetchSchema, false)], Failed.
    repeat split; by left. }
  cbv zeta.
  set (fd := λ ddl, writeDDL ddl (schemaDirPath c)).
  set (fw := λ d, writeData d (schemaDirPath c)).
  destruct (clearSchemaDir c (files w)) as [σ1 [e|]] eqn:Hcl.
  { intros [= <- <-]. exists [(FetchSchema, true); (ClearDirectory, false)], Failed.
    cbn [trace]. rewrite <- app_assoc. repeat split; try by left.
    fetched_first. }
  pose proof (ops_trace_phases WriteObject fd DirectoryCleared ddls
                ltac:(done) σ1) as Hph1.
  destruct (iter_ops fd ddls σ1) as [σ2 [e|]] eqn:Hit; cbn [snd] in Hph1.
  { intros [= <- <-].
    exists ([(FetchSchema, true); (ClearDirectory, true)] ++
            ops_trace WriteObject fd ddls σ1), Failed.
    cbn [trace]. rewrite <- !app_assoc. repeat split; try by left.
    - by cbn [app run_phases next_phase fst snd after].
    - fetched_first. }
  pose proof (ops_trace_ok WriteObject fd ddls _ _ Hit) as Htr1.
  destruct (readConfig σ2 (staticDataTablesFilePath c)) as [config [e|]].
  { intros [= <- <-].
    exists ([(FetchSchema, true); (ClearDirectory, true)] ++
            ops_trace WriteObject fd ddls σ1 ++ [(ResolveConfig, false)]), Failed.
    cbn [trace]. rewrite <- !app_assoc. repeat split; try by left.
    - cbn [app run_phases next_phase fst snd after].
      by rewrite run_phases_app, Hph1.
    - fetched_first. }
  destruct (LoadStaticDatas client _ _) as [e|datas] eqn:Hls.
  { intros [= <- <-].
    exists ([(FetchSchema, true); (ClearDirectory, true)] ++
            ops_trace WriteObject fd ddls σ1 ++
            [(ResolveConfig, true); (FetchStaticData config, false)]), Failed.
    cbn [trace]. rewrite <- !app_assoc. repeat split; try by left.
    - cbn [app run_phases next_phase fst snd after].
      by rewrite run_phases_app, Hph1.
    - fetched_first. }
  pose proof (ops_trace_phases WriteStaticData fw StaticDataFetched datas
                ltac:(done) σ2) as Hph2.
  intros [= <- <-].
  exists ([(FetchSchema, true); (ClearDirectory, true)] ++
          ops_trace WriteObject fd ddls σ1 ++
          [(ResolveConfig, true); (FetchStaticData config, true)] ++
          ops_trace WriteStaticData fw datas σ2).
  exists (match (iter_ops fw datas σ2).2 with
          | Some _ => Failed | None => StaticDataFetched end).
  cbn [trace]. rewrite <- !app_assoc. split; [done|]. split; [|split].
  - cbn [app run_phases next_phase fst snd after].
    rewrite run_phases_app, Hph1.
    cbn [app run_phases next_phase fst snd after]. apply Hph2.
  - destruct (iter_ops fw datas σ2) as [σ3 [e|]] eqn:Hitw; cbn [snd]; [by left|].
    split; [done|]. exists client, ddls, config, datas. repeat split; try done.
    unfold full_trace. by rewrite Htr1, (ops_trace_ok WriteStaticData fw datas _ _ Hitw).
  - fetched_first.
Qed.

(** C7: what a discrete export does, step by step, and the order of its
    steps.  The result and the file system are those of the steps taken in
    this order, each on the file system the step before left, the first
    failure ending the run: the schema objects are fetched (a failure of
    the connection or of the fetch leaves the file system as it was); the
    directory is cleared; the schema objects are written one by one, the
    loop stopping at the first write that fails; the configuration is
    resolved on the file system the writes left; the static data are
    fetched for this configuration; the static data are written one by
    one.  The steps recorded follow the state machine: the directory is
    cleared once, as the second step, and every write of an artifact
    comes after it; a failed step is the last step, and the run returns an
    error exactly when it did not reach the end; as long as the schema is
    not fetched the file system is untouched; a run without error has
    taken every step, for every object, in order. *)
Theorem discrete_steps_in_order c w r w' :
  loadDiscrete c w = (r, w') →
  (r, w') =
    match newSpannerClient c with
    | inl e => (inl e, w)
    | inr client =>
      match LoadDDLs client with
      | inl e =>
          (inl (CmdError e),
           mkWorld (files w) (trace w ++ [(FetchSchema, false)]))
      | inr ddls =>
        let fd := λ ddl, writeDDL ddl (schemaDirPath c) in
        let fw := λ d, writeData d (schemaDirPath c) in
        let t1 := trace w ++ [(FetchSchema, true)] in
        match clearSchemaDir c (files w) with
        | (σ1, Some e) =>
            (inl (CmdError e), mkWorld σ1 (t1 ++ [(ClearDirectory, false)]))
        | (σ1, None) =>
          let t2 := (t1 ++ [(ClearDirectory, true)]) ++
                    ops_trace WriteObject fd ddls σ1 in
          match iter_ops fd ddls σ1 with
          | (σ2, Some e) => (inl (CmdError e), mkWorld σ2 t2)
          | (σ2, None) =>
            match readConfig σ2 (staticDataTablesFilePath c) with
            | (_, Some e) =>
                (inl (CmdError e), mkWorld σ2 (t2 ++ [(ResolveConfig, false)]))
            | (config, None) =>
              let t3 := t2 ++ [(ResolveConfig, true)] in
              match LoadStaticDatas client (StaticDataTables config)
                                    (CustomOrderBy config) with
              | inl e =>
                  (inl (CmdError e),
                   mkWorld σ2 (t3 ++ [(FetchStaticData config, false)]))
              | inr datas =>
                  (match (iter_ops fw datas σ2).2 with
                   | Some e => inl (CmdError e)
                   | None => inr tt
                   end,
                   mkWorld (iter_ops fw datas σ2).1
                     ((t3 ++ [(FetchStaticData config, true)]) ++
                      ops_trace WriteStaticData fw datas σ2))
              end
            end
          end
        end
      end
    end ∧
  ∃ tr q,
    trace w' = trace w ++ tr ∧
    run_phases Start tr = Some q ∧
    match r with
    | inr _ =>
        q = StaticDataFetched ∧
        ∃ client ddls config datas,
          newSpannerClient c = inr client ∧ LoadDDLs client = inr ddls ∧
          LoadStaticDatas client (StaticDataTables config) (CustomOrderBy config)
            = inr datas ∧
          tr = full_trace ddls config datas
    | inl _ => q = Failed ∨ tr = []
    end ∧
    ((FetchSchema, true) ∉ tr → files w' = files w) ∧
    (∀ i b, tr !! i = Some (ClearDirectory, b) → i = 1%nat) ∧
    (∀ j s b, tr !! j = Some (s, b) → is_write s = true →
              tr !! 1%nat = Some (ClearDirectory, true) ∧ (1 < j)%nat) ∧
    (∀ i ev, tr !! i = Some ev → ev.2 = false → S i = length tr).
Proof.
  intros H. split; [rewrite <- H; apply loadDiscrete_unfold|].
  destruct (discrete_trace _ _ _ _ H) as (tr & q & Htr & Hrun & Hres & Hfs).
  exists tr, q. do 4 (split; [done|]). split; [|split].
  - intros i b. by eapply clear_is_second.
  - intros j s b Hj Hs. by eapply write_after_clear.
  - intros i ev. by eapply failure_is_last.
Qed.

End Discrete.

Import Sample.

Lemma loadDiscrete_twice_same_tree_witness :
  files (export_discrete (export_discrete world0).2).2 =
  files (export_discrete world0).2.
Proof.
  unfold export_discrete. apply loadDiscrete_twice_same_tree.
  - apply wf_check_sound. vm_compute. reflexivity.
  - intros client ddls [= <-] [= <-]. by_evaluation.
Defined.

Lemma no_stale_artifacts_witness :
  ∃ config datas,
    Cmd.readStaticDataTablesFile defaultFile Json.Unmarshal
      (schema_phase cmd [users; usersByName] (files world0)) (tablesFile cmd)
      = (config, None) ∧
    LoadStaticDatas client (StaticDataTables config) (CustomOrderBy config)
      = inr datas ∧
    ∀ k m content,
      in_category "schema" k →
      files (export_discrete world0).2 !! k = Some (File m content) →
      (∃ ddl, ddl ∈ [users; usersByName] ∧
              loc_of (ddl_path "schema" ddl) = Some k ∧
              content = Statement ddl) ∨
      (∃ d, d ∈ datas ∧
            loc_of (data_path fileName "schema" d) = Some k ∧
            content = Join (Statements d) (String "010" "")).
Proof.
  apply (no_stale_artifacts defaultFile tablesFile connected fileName
           Json.Unmarshal cmd world0 (export_discrete world0).2 client
           [users; usersByName]).
  - apply wf_check_sound. vm_compute. reflexivity.
  - reflexivity.
  - reflexivity.
  - by_evaluation.
Defined.

(** the file of the earlier export is gone *)
Example stale_file_removed :
  disk_stale !! (false, ["schema"; "table"; "Old.sql"]) =
    Some (File perm0664 "CREATE TABLE Old (Id INT64) PRIMARY KEY (Id)") ∧
  files (export_discrete world0).2 !! (false, ["schema"; "table"; "Old.sql"]) = None.
Proof. split; by_evaluation. Qed.

Lemma discrete_steps_in_order_witness :
  ∃ tr, trace (export_discrete world0).2 = trace world0 ++ tr ∧
        run_phases Start tr = Some StaticDataFetched ∧
        ∀ i b, tr !! i = Some (ClearDirectory, b) → i = 1%nat.
Proof.
  destruct (discrete_steps_in_order defaultFile tablesFile connected fileName
              Json.Unmarshal cmd world0 (inr tt) (export_discrete world0).2)
    as (_ & tr & q & Htr & Hrun & [-> _] & _ & Hclear & _).
  - by_evaluation.
  - exists tr. split; [exact Htr | split; [exact Hrun | exact Hclear]].
Defined.

End Discrete.

(* --------------------------------------------------------------------- *)
(** ** The artifact writer and the consolidated export                    *)
(* --------------------------------------------------------------------- *)

Module Writer.
Import GoStrings OS Cmd Spec FsFacts.

(** [mkdir] returns no error where [Stat] reports that the path does not
    exist, whatever [os.MkdirAll] returns. *)
Lemma mkdir_ignores_MkdirAll σ parent :
  Stat σ parent = inl ENOENT →
  mkdir σ parent = ((MkdirAll σ parent perm0700).1, None).
Proof. intros H. unfold mkdir. by rewrite H. Qed.

(** C4, on the code: with an empty schema directory and an empty object
    type the parent directory is the empty path; [os.MkdirAll] fails on
    it, [mkdir] returns no error, and [writeDDL] writes the file into the
    working directory and returns no error: the failure to create the
    parent directory does not reach the caller. *)
Theorem writeDDL_drops_MkdirAll_error :
  let ddl := mkDDL "" "Users.sql" "CREATE TABLE Users" in
  filepath_Join "" (ObjectType ddl) = "" ∧
  MkdirAll ∅ "" perm0700 = (∅, Some ENOENT) ∧
  mkdir ∅ "" = (∅, None) ∧
  writeDDL ddl "" ∅ =
    ({[ (false, ["Users.sql"]) := File perm0664 "CREATE TABLE Users" ]}, None).
Proof. cbv zeta. repeat split; by_evaluation. Qed.

(** a write step that succeeds: the file, its content and mode, and the
    rest of the file system *)
Lemma write_op_ok o σ σ' :
  write_op o σ = (σ', None) →
  ∃ l m,
    loc_of o.1.1.2 = Some l ∧
    σ' !! l = Some (File m o.1.2) ∧
    (σ !! l = None ∧ m = o.2 ∨ ∃ d0, σ !! l = Some (File m d0)) ∧
    ∀ k, k ≠ l →
         σ' !! k = σ !! k ∨ (σ !! k = None ∧ σ' !! k = Some (Dir perm0700)).
Proof.
  intros H. destruct (write_op_inv _ _ _ _ H) as [(e0 & _ & [=])|(σ1 & Hm & Hw)].
  destruct (write_file_inv _ _ _ _ _ _ Hw) as ([e0|] & Hw' & He); [done|].
  destruct (WriteFile_inv _ _ _ _ _ _ Hw')
    as [[? _]|(_ & r & es & x & m & Hl & _ & _ & Hn & ->)]; [done|].
  assert (Hdirs : ∀ k, σ1 !! k = σ !! k ∨
                       (σ !! k = None ∧ σ1 !! k = Some (Dir perm0700))).
  { intros k.
    destruct (mkdir_inv _ _ _ _ Hm)
      as [(n & _ & -> & _)|[(_ & -> & _)|(e1 & _ & _ & _ & [=])]]; [by left|].
    unfold MkdirAll. destruct (loc_of o.1.1.1) as [[r' es']|]; [|by left].
    destruct (mkdir_all σ r' [] es' perm0700) as [σ2 e2] eqn:E.
    destruct (mkdir_all_lookup _ _ _ _ _ _ _ E k) as [?|(? & ? & _)];
      [by left | by right]. }
  exists (r, es ++ [x]), m. repeat split; [done | apply lookup_insert_eq | |].
  - destruct (Hdirs (r, es ++ [x])) as [Hk|[_ Hk]]; rewrite Hk in Hn.
    + destruct Hn as [[? ?]|[d0 ?]]; [by left | right; by exists d0].
    + by destruct Hn as [[? _]|[d0 ?]].
  - intros k Hk. rewrite lookup_insert_ne by done. apply Hdirs.
Qed.

Section Writer.

Variable defaultStaticDataTablesFile : string.
Variable schemaFilePath : Command → string.
Variable staticDataTablesFilePath : Command → string.
Variable newSpannerClient : Command → result Client.
Variable ToFileName : StaticData → string.
Variable json_Unmarshal : string → staticDataConfig * option error.

Abbreviation load := (Cmd.load schemaFilePath newSpannerClient).
Abbreviation writeData := (Cmd.writeData ToFileName).

(** C8, as amended: when [writeData] returns no error, the file at
    [root/static_data/<file name>] holds the statements joined by single
    line feeds; an existing file is overwritten and keeps its mode, a new
    one is created with the mode [0644] requested; the rest of the file
    system is unchanged but for directories created with the mode [0700]
    requested; the same for [writeDDL] with the statement and [0664].
    The modes are those requested of the system, the permission arguments
    of [ioutil.WriteFile] and [os.MkdirAll], before the process umask is
    applied.  [0644] is read and write for the owner and read only for
    group and others, [0664] read and write for owner and group and not
    executable, [0700] for the owner only. *)
Theorem artifacts_content_and_modes :
  (∀ d dir σ σ',
     writeData d dir σ = (σ', None) →
     ∃ l m,
       loc_of (data_path ToFileName dir d) = Some l ∧
       σ' !! l = Some (File m (Join (Statements d) (String "010" ""))) ∧
       (σ !! l = None ∧ m = perm0644 ∨ ∃ d0, σ !! l = Some (File m d0)) ∧
       ∀ k, k ≠ l →
            σ' !! k = σ !! k ∨ (σ !! k = None ∧ σ' !! k = Some (Dir perm0700))) ∧
  (∀ ddl dir σ σ',
     writeDDL ddl dir σ = (σ', None) →
     ∃ l m,
       loc_of (ddl_path dir ddl) = Some l ∧
       σ' !! l = Some (File m (Statement ddl)) ∧
       (σ !! l = None ∧ m = perm0664 ∨ ∃ d0, σ !! l = Some (File m d0)) ∧
       ∀ k, k ≠ l →
            σ' !! k = σ !! k ∨ (σ !! k = None ∧ σ' !! k = Some (Dir perm0700))) ∧
  (owner_rw perm0644 ∧ group_others_read perm0644 ∧
   group_others_no_write perm0644 ∧ not_executable perm0644) ∧
  (owner_group_rw perm0664 ∧ not_executable perm0664) ∧
  owner_only perm0700.
Proof.
  split; [|split].
  - intros d dir σ σ' H. apply (write_op_ok (data_op ToFileName dir d) σ σ' H).
  - intros ddl dir σ σ' H. apply (write_op_ok (ddl_op dir ddl) σ σ' H).
  - vm_compute. done.
Qed.

Lemma load_unfold c w :
  load c w =
  match newSpannerClient c with
  | inl e => (inl e, w)
  | inr client =>
    match LoadDDL client with
    | inl e =>
        (inl (CmdError e), mkWorld (files w) (trace w ++ [(FetchBlob, false)]))
    | inr ddl =>
        let t := trace w ++ [(FetchBlob, true)] in
        match WriteFile (files w) (schemaFilePath c) ddl perm0664 with
        | (σ', Some e) =>
            (inl (CmdError (PathError e)), mkWorld σ' (t ++ [(WriteBlob, false)]))
        | (σ', None) => (inr tt, mkWorld σ' (t ++ [(WriteBlob, true)]))
        end
    end
  end.
Proof.
  unfold Cmd.load, bind, connect.
  destruct (newSpannerClient c) as [e|client]; [done|].
  unfold call at 1, pure_step. cbn [files trace].
  destruct (LoadDDL client) as [e|ddl]; [done|]. cbv beta iota.
  unfold call, write_file. cbn [files trace].
  by destruct (WriteFile (files w) (schemaFilePath c) ddl perm0664) as [σ' [e|]].
Qed.

(** C9: the consolidated export changes the file system at the location
    of the schema file and nowhere else; when it returns an error the file
    system is as before; when it returns no error the schema file holds
    the blob the provider returned, a new file with mode [0664], an
    existing one overwritten with its mode kept. *)
Theorem load_writes_the_schema_file_only c w r w' :
  load c w = (r, w') →
  (∀ k, loc_of (schemaFilePath c) ≠ Some k → files w' !! k = files w !! k) ∧
  (∀ e, r = inl e → files w' = files w) ∧
  (r = inr tt →
   ∃ client blob l m,
     newSpannerClient c = inr client ∧ LoadDDL client = inr blob ∧
     loc_of (schemaFilePath c) = Some l ∧
     files w' !! l = Some (File m blob) ∧
     (files w !! l = None ∧ m = perm0664 ∨
      ∃ d0, files w !! l = Some (File m d0))).
Proof.
  rewrite load_unfold.
  destruct (newSpannerClient c) as [e|client] eqn:Hc;
    [by intros [= <- <-]|].
  destruct (LoadDDL client) as [e|blob] eqn:Hd; [by intros [= <- <-]|].
  cbv zeta.
  destruct (WriteFile (files w) (schemaFilePath c) blob perm0664) as [σ' e] eqn:HW.
  pose proof (λ k, WriteFile_frame _ _ _ _ _ _ k HW) as Hframe.
  destruct (WriteFile_inv _ _ _ _ _ _ HW)
    as [[He ->]|(-> & rr & es & x & m & Hl & _ & _ & Hn & ->)].
  - destruct e as [e|]; [|done]. by intros [= <- <-].
  - intros [= <- <-]. cbn [files]. repeat split; [done..|].
    intros _. exists client, blob, (rr, es ++ [x]), m.
    repeat split; [done.. | apply lookup_insert_eq |].
    destruct Hn as [[? ?]|[d0 ?]]; [by left | right; by exists d0].
Qed.

End Writer.

Import Sample.

Lemma artifacts_content_and_modes_witness :
  ∃ l m,
    loc_of (data_path fileName "schema" (rows "Users")) = Some l ∧
    (Cmd.writeData fileName (rows "Users") "schema" disk_stale).1 !! l =
      Some (File m (Join (Statements (rows "Users")) (String "010" ""))) ∧
    (disk_stale !! l = None ∧ m = perm0644 ∨
     ∃ d0, disk_stale !! l = Some (File m d0)).
Proof.
  destruct (artifacts_content_and_modes fileName) as (Hdata & _).
  destruct (Hdata (rows "Users") "schema" disk_stale
              (Cmd.writeData fileName (rows "Users") "schema" disk_stale).1)
    as (l & m & Hl & Hfile & Hmode & _).
  - by_evaluation.
  - exists l, m. split; [exact Hl | split; [exact Hfile | exact Hmode]].
Defined.

(** C8, as stated, fails on the mode of a new static data file: the mode
    requested is [0644], which lets the group and the others read the file
    (unless the process umask takes these bits away); and [writeData]
    writes nothing and returns an error where the schema directory is a
    regular file. *)
Lemma static_data_mode_counterexample :
  ((Cmd.writeData fileName (rows "Users") "schema" ∅).1
     !! (false, ["schema"; "static_data"; "Users.sql"]) =
     Some (File perm0644 (Join (Statements (rows "Users")) (String "010" ""))) ∧
   ¬ owner_only perm0644) ∧
  Cmd.writeData fileName (rows "Users") "schema" disk_blocked =
    (disk_blocked, Some (PathError ENOTDIR)).
Proof.
  split; [split|]; [by_evaluation | vm_compute; discriminate | by_evaluation].
Qed.

Lemma load_writes_the_schema_file_only_witness :
  (∀ k, loc_of (schemaFile cmd) ≠ Some k →
        files (export_blob world0).2 !! k = files world0 !! k) ∧
  files (export_blob world0).2 !! (false, ["schema"; "schema.sql"]) =
    Some (File perm0664 "CREATE TABLE Users (Id INT64) PRIMARY KEY (Id);").
Proof.
  destruct (load_writes_the_schema_file_only schemaFile connected cmd world0
              (inr tt) (export_blob world0).2) as (Hframe & _ & _).
  - by_evaluation.
  - split; [exact Hframe | by_evaluation].
Defined.

End Writer.

(* --------------------------------------------------------------------- *)
(** ** More on the configuration resolver                                 *)
(* --------------------------------------------------------------------- *)

Module ResolverMore.
Import GoStrings OS Cmd Spec PathFacts.

(** [Clean] is idempotent. *)
Lemma Clean_idempotent s : Clean (Clean s) = Clean s.
Proof.
  destruct (String.eqb_spec s "") as [->|Hs]; [done|].
  destruct (clean_elems s) as [|e es] eqn:E.
  - unfold Clean. rewrite (eqb_false_ne _ _ Hs), E. by destruct (rooted s).
  - pose proof (loc_of_Clean s) as Hl. rewrite E in Hl. specialize (Hl ltac:(done)).
    unfold loc_of in Hl.
    destruct (String.eqb (Clean s) "") eqn:Hc; [done|].
    injection Hl as Hr He.
    unfold Clean at 1. rewrite Hc, He, Hr.
    unfold Clean. by rewrite (eqb_false_ne _ _ Hs), E.
Qed.

Section ResolverMore.

Variable defaultStaticDataTablesFile : string.
Variable json_Unmarshal : string → staticDataConfig * option error.

Abbreviation readStaticDataTablesFile :=
  (Cmd.readStaticDataTablesFile defaultStaticDataTablesFile json_Unmarshal).
Abbreviation readJsonFile := (Cmd.readJsonFile json_Unmarshal).
Abbreviation jsonPathOf p :=
  (ReplaceAll (Clean p) defaultStaticDataTablesFile "wrench.json").
Abbreviation txtPathOf p :=
  (ReplaceAll (Clean p) defaultStaticDataTablesFile "static_data_tables.txt").

(** X1: with the default file name and neither sibling file there, the
    result is no error and no tables (the decoder rejecting the empty input
    is what makes the resolver go on to the text file). *)
Theorem default_name_both_files_missing σ p d e :
  HasSuffix (Clean p) defaultStaticDataTablesFile = true →
  Open σ (jsonPathOf p) = inl ENOENT →
  Open σ (txtPathOf p) = inl ENOENT →
  json_Unmarshal "" = (d, Some e) →
  readStaticDataTablesFile σ p = (mkConfig [] (CustomOrderBy d), None).
Proof.
  intros Hdef Hj Ht Hdec. unfold Cmd.readStaticDataTablesFile. rewrite Hdef.
  rewrite (Resolver.readJsonFile_absent _ _ _ Hj), Hdec.
  by rewrite (Resolver.readTxtFile_absent _ _ Ht).
Qed.

(** X2: with the default file name, a structured file that decodes without
    error is the result; the text file is not looked at. *)
Theorem structured_file_wins σ p bytes d :
  HasSuffix (Clean p) defaultStaticDataTablesFile = true →
  Open σ (jsonPathOf p) = inr (HFile bytes) →
  json_Unmarshal bytes = (d, None) →
  readStaticDataTablesFile σ p = (d, None).
Proof.
  intros Hdef Hj Hdec. unfold Cmd.readStaticDataTablesFile. rewrite Hdef.
  by rewrite (Resolver.readJsonFile_regular _ _ _ _ Hj), Hdec.
Qed.

(** X3: an explicit [.txt] path whose file does not exist gives the empty
    configuration and no error. *)
Theorem missing_txt_file_is_empty σ p :
  HasSuffix (Clean p) defaultStaticDataTablesFile = false →
  HasSuffix (Clean p) ".json" = false →
  HasSuffix (Clean p) ".txt" = true →
  Open σ (Clean p) = inl ENOENT →
  readStaticDataTablesFile σ p = (zeroConfig, None).
Proof.
  intros Hdef Hjson Htxt Ho. unfold Cmd.readStaticDataTablesFile.
  rewrite Hdef, Hjson, Htxt. by rewrite (Resolver.readTxtFile_absent _ _ Ho).
Qed.

Lemma readTxtFile_error σ p e :
  e ≠ ENOENT → Open σ p = inl e → readTxtFile σ p = ([], Some (PathError e)).
Proof.
  intros He Ho. unfold readTxtFile, openFile. rewrite Ho. by destruct e.
Qed.

(** X4: an explicit [.txt] path that cannot be opened for another reason
    than not existing: the error of the file system is returned. *)
Theorem txt_open_error_is_returned σ p e :
  HasSuffix (Clean p) defaultStaticDataTablesFile = false →
  HasSuffix (Clean p) ".json" = false →
  HasSuffix (Clean p) ".txt" = true →
  e ≠ ENOENT → Open σ (Clean p) = inl e →
  readStaticDataTablesFile σ p = (zeroConfig, Some (PathError e)).
Proof.
  intros Hdef Hjson Htxt He Ho. unfold Cmd.readStaticDataTablesFile.
  rewrite Hdef, Hjson, Htxt. by rewrite (readTxtFile_error _ _ _ He Ho).
Qed.

(** X5: in the fallback the text file is the last candidate: when it cannot
    be opened for another reason than not existing, that error is
    returned, whatever the structured file was. *)
Theorem fallback_txt_open_error_is_returned σ p d e0 e :
  HasSuffix (Clean p) defaultStaticDataTablesFile = true →
  readJsonFile σ (jsonPathOf p) = (d, Some e0) →
  e ≠ ENOENT → Open σ (txtPathOf p) = inl e →
  readStaticDataTablesFile σ p =
    (mkConfig [] (CustomOrderBy d), Some (PathError e)).
Proof.
  intros Hdef Hj He Ho. unfold Cmd.readStaticDataTablesFile.
  rewrite Hdef, Hj. by rewrite (readTxtFile_error _ _ _ He Ho).
Qed.

(** X6: [readJsonFile] never returns an error of the file system: when the
    file cannot be opened, for whatever reason, or is a directory, the
    result is that of decoding the empty input. *)
Theorem readJsonFile_unreadable σ p :
  (∃ e, Open σ p = inl e) ∨ Open σ p = inr HDir →
  readJsonFile σ p = json_Unmarshal "".
Proof.
  intros [[e Ho]| Ho]; unfold Cmd.readJsonFile, openFile; rewrite Ho; [|done].
  by destruct (IsNotExist (Some e)).
Qed.

(** X7: the resolver depends on the cleaned path only. *)
Theorem resolver_cleans_path σ p :
  readStaticDataTablesFile σ (Clean p) = readStaticDataTablesFile σ p.
Proof. unfold Cmd.readStaticDataTablesFile. by rewrite Clean_idempotent. Qed.

End ResolverMore.

Import Sample.

Lemma default_name_both_files_missing_witness :
  resolve_config ∅ "conf/{wrench.json|static_data_tables.txt}" = (zeroConfig, None).
Proof.
  apply (default_name_both_files_missing defaultFile Json.Unmarshal ∅
           "conf/{wrench.json|static_data_tables.txt}" zeroConfig
           (SyntaxError "unexpected end of JSON input")); by_evaluation.
Defined.

Lemma structured_file_wins_witness :
  resolve_config disk_json "schema/{wrench.json|static_data_tables.txt}" =
    (mkConfig ["Accounts"] {["Accounts" := "Id DESC"]}, None).
Proof.
  apply (structured_file_wins defaultFile Json.Unmarshal disk_json
           "schema/{wrench.json|static_data_tables.txt}"
           (Json.dq "{'StaticDataTables': ['Accounts'], 'CustomOrderBy': {'Accounts': 'Id DESC'}}"));
    by_evaluation.
Defined.

Lemma missing_txt_file_is_empty_witness :
  resolve_config disk_txt "schema/other.txt" = (zeroConfig, None).
Proof.
  apply (missing_txt_file_is_empty defaultFile Json.Unmarshal disk_txt
           "schema/other.txt"); by_evaluation.
Defined.

Lemma txt_open_error_is_returned_witness :
  resolve_config disk_blocked "schema/tables.txt" =
    (zeroConfig, Some (PathError ENOTDIR)).
Proof.
  apply (txt_open_error_is_returned defaultFile Json.Unmarshal disk_blocked
           "schema/tables.txt" ENOTDIR); try by_evaluation. discriminate.
Defined.

Lemma fallback_txt_open_error_is_returned_witness :
  resolve_config disk_blocked "schema/{wrench.json|static_data_tables.txt}" =
    (zeroConfig, Some (PathError ENOTDIR)).
Proof.
  apply (fallback_txt_open_error_is_returned defaultFile Json.Unmarshal disk_blocked
           "schema/{wrench.json|static_data_tables.txt}" zeroConfig
           (SyntaxError "unexpected end of JSON input") ENOTDIR);
    try by_evaluation. discriminate.
Defined.

Lemma readJsonFile_unreadable_witness :
  Cmd.readJsonFile Json.Unmarshal disk_blocked "schema/wrench.json" =
    Json.Unmarshal "".
Proof.
  apply (readJsonFile_unreadable Json.Unmarshal disk_blocked "schema/wrench.json").
  left. exists ENOTDIR. by_evaluation.
Defined.

End ResolverMore.

(* --------------------------------------------------------------------- *)
(** ** More on the text configuration                                     *)
(* --------------------------------------------------------------------- *)

Module TxtFile.
Import GoStrings GoScan OS Cmd Spec ScanFacts.

Lemma append_assoc_s (a b c : string) : (a +:+ b) +:+ c = a +:+ (b +:+ c).
Proof. induction a as [|x a IH]; [done|]. rewrite !append_cons. by rewrite IH. Qed.

Lemma append_empty_r (a : string) : a +:+ "" = a.
Proof. induction a as [|x a IH]; [done|]. rewrite append_cons. by rewrite IH. Qed.

(** A piece without line feed is taken into the pending line. *)
Lemma scan_lines_app (l : string) : ∀ cur n rest,
  no_line_feed l →
  scan_lines cur n (l +:+ rest) =
  scan_lines (rev (list_ascii_of_string l) ++ cur)
             (n + Z.of_nat (String.length l)) rest.
Proof.
  unfold no_line_feed.
  induction l as [|c l IH]; intros cur n rest Hl.
  - rewrite append_nil. cbn [String.length list_ascii_of_string rev app].
    by rewrite Z.add_0_r.
  - rewrite append_cons. cbn [list_ascii_of_string] in Hl.
    inversion Hl as [|? ? Hc Hl']; subst.
    cbn [scan_lines].
    destruct (Ascii.eqb_spec c "010"%char) as [->|_]; [done|].
    rewrite IH by done.
    cbn [String.length list_ascii_of_string rev].
    replace (n + 1 + Z.of_nat (String.length l))
      with (n + Z.of_nat (S (String.length l))) by lia.
    by rewrite <- app_assoc.
Qed.

(** Once the pending line fills the buffer nothing more is delivered. *)
Lemma scan_lines_full (s : string) : ∀ cur n,
  MaxScanTokenSize ≤ n → scan_lines cur n s = [].
Proof.
  induction s as [|c s IH]; intros cur n Hn; cbn [scan_lines].
  - destruct (Z.leb_spec MaxScanTokenSize n); [|lia]. by rewrite orb_true_r.
  - destruct (Z.leb_spec MaxScanTokenSize n); [|lia].
    destruct (Ascii.eqb c "010"%char); [done|]. apply IH. lia.
Qed.

Lemma scan_unlines_app (ls : list string) (rest : string) :
  Forall plain_line ls →
  scan_lines [] 0 (unlines ls +:+ rest) = ls ++ scan_lines [] 0 rest.
Proof.
  induction ls as [|l ls IH]; intros H; [done|].
  inversion H as [|? ? (Hlf & Hcr & Hlen) Hls]; subst.
  cbn [unlines]. rewrite append_assoc_s, append_cons.
  rewrite scan_lines_line by done.
  rewrite Z.add_0_l.
  destruct (Z.leb_spec MaxScanTokenSize (Z.of_nat (String.length l))); [lia|].
  rewrite app_nil_r, dropCR_plain by done.
  by rewrite IH.
Qed.

(** X8: a line of 64 KiB or more ends the list of tables without an error:
    the tables before it are returned, the rest of the file is dropped
    (the scanner's error is not looked at). *)
Theorem txt_file_long_line_ends_the_list σ p ls long rest :
  Forall plain_line ls →
  no_line_feed long →
  MaxScanTokenSize ≤ Z.of_nat (String.length long) →
  Open σ p = inr (HFile (unlines ls +:+ long +:+ rest)) →
  readTxtFile σ p = (ls, None).
Proof.
  intros Hls Hlf Hlen Ho.
  rewrite (Resolver.readTxtFile_regular _ _ _ Ho). unfold ScanLines.
  rewrite scan_unlines_app by done.
  rewrite scan_lines_app by done.
  rewrite scan_lines_full by lia. by rewrite app_nil_r.
Qed.

(** X9: line ends of Windows are accepted: of each line closed by carriage
    return and line feed, exactly that carriage return is removed. *)
Theorem txt_file_crlf_lines σ p ls :
  Forall (λ l, no_line_feed l ∧
               Z.of_nat (String.length l) + 1 < MaxScanTokenSize) ls →
  Open σ p = inr (HFile (unlines_crlf ls)) →
  readTxtFile σ p = (ls, None).
Proof.
  intros Hls Ho. rewrite (Resolver.readTxtFile_regular _ _ _ Ho).
  f_equal. unfold ScanLines. clear Ho.
  induction ls as [|l ls IH]; [done|].
  inversion Hls as [|? ? (Hlf & Hlen) Hls']; subst.
  cbn [unlines_crlf]. rewrite scan_lines_app by done.
  rewrite app_nil_r, Z.add_0_l. cbn [scan_lines Ascii.eqb Bool.eqb andb].
  destruct (Z.leb_spec MaxScanTokenSize (Z.of_nat (String.length l) + 1)); [lia|].
  cbn [dropCR Ascii.eqb Bool.eqb andb].
  rewrite rev_involutive, string_of_list_ascii_inv.
  by rewrite IH.
Qed.

(** X10: a last line without line end is a table too. *)
Theorem txt_file_last_line_without_newline σ p ls l :
  Forall plain_line ls → plain_line l → l ≠ "" →
  Open σ p = inr (HFile (unlines ls +:+ l)) →
  readTxtFile σ p = (ls ++ [l], None).
Proof.
  intros Hls (Hlf & Hcr & Hlen) Hne Ho.
  rewrite (Resolver.readTxtFile_regular _ _ _ Ho). unfold ScanLines.
  rewrite scan_unlines_app by done.
  rewrite <- (append_empty_r l) at 1. rewrite scan_lines_app by done.
  rewrite app_nil_r, Z.add_0_l. cbn [scan_lines].
  destruct (Z.leb_spec MaxScanTokenSize (Z.of_nat (String.length l))); [lia|].
  destruct l as [|c l]; [done|]. cbn [String.length].
  destruct (Z.eqb_spec (Z.of_nat (S (String.length l))) 0); [lia|].
  cbn [orb]. by rewrite dropCR_plain.
Qed.

Lemma dropCR_length cur :
  (String.length (dropCR cur) ≤ length cur)%nat.
Proof.
  assert (Hl : ∀ l, String.length (string_of_list_ascii l) = length l).
  { induction l as [|c l IH]; [done|]. cbn. by rewrite IH. }
  unfold dropCR. destruct cur as [|c rest]; [done|].
  destruct (Ascii.eqb c "013"%char); rewrite Hl, length_rev; cbn; lia.
Qed.

Lemma dropCR_no_line_feed cur :
  Forall (λ c, c ≠ "010"%char) cur → no_line_feed (dropCR cur).
Proof.
  intros H. unfold no_line_feed, dropCR. destruct cur as [|c rest].
  - constructor.
  - destruct (Ascii.eqb c "013"%char);
      rewrite list_ascii_of_string_of_list_ascii; apply Forall_rev; [|done].
    by inversion H.
Qed.

Lemma scan_lines_tokens (s : string) : ∀ cur n,
  n = Z.of_nat (length cur) → Forall (λ c, c ≠ "010"%char) cur →
  Forall (λ t, no_line_feed t ∧ Z.of_nat (String.length t) < MaxScanTokenSize)
         (scan_lines cur n s).
Proof.
  induction s as [|c s IH]; intros cur n Hn Hcur; cbn [scan_lines].
  - destruct (n =? 0); [constructor|].
    destruct (Z.leb_spec MaxScanTokenSize n); [constructor|].
    repeat constructor; [by apply dropCR_no_line_feed|].
    pose proof (dropCR_length cur). lia.
  - destruct (Ascii.eqb_spec c "010"%char) as [->|Hc].
    + destruct (Z.leb_spec MaxScanTokenSize n); [constructor|].
      constructor.
      * split; [by apply dropCR_no_line_feed|].
        pose proof (dropCR_length cur). lia.
      * by apply IH.
    + apply IH; [cbn [length]; lia|by constructor].
Qed.

(** X11: whatever the file holds, no table returned contains a line feed
    and every table is shorter than 64 KiB. *)
Theorem txt_file_tables_are_lines σ p :
  Forall (λ t, no_line_feed t ∧ Z.of_nat (String.length t) < MaxScanTokenSize)
         (readTxtFile σ p).1.
Proof.
  unfold readTxtFile. destruct (openFile σ p) as [[[content|]|] [e|]]; cbn [fst];
    try constructor.
  by apply scan_lines_tokens.
Qed.

Import Sample.

Lemma long_line_no_line_feed : no_line_feed long_line.
Proof.
  unfold no_line_feed, long_line. rewrite list_ascii_of_string_of_list_ascii.
  by apply Forall_replicate.
Qed.

Lemma short_line l :
  forallb (λ c, negb (Ascii.eqb c "010"%char)) (list_ascii_of_string l) = true →
  no_line_feed l.
Proof.
  unfold no_line_feed. induction (list_ascii_of_string l) as [|c cs IH]; [done|].
  cbn [forallb]. intros [Hc Hcs]%andb_prop. constructor; [|by apply IH].
  by intros ->.
Qed.

Lemma plain_line_intro l :
  forallb (λ c, negb (Ascii.eqb c "010"%char)) (list_ascii_of_string l) = true →
  last (list_ascii_of_string l) ≠ Some "013"%char →
  Z.of_nat (String.length l) < MaxScanTokenSize →
  plain_line l.
Proof. intros H1 H2 H3. split; [by apply short_line|done]. Qed.

Lemma txt_file_long_line_ends_the_list_witness :
  readTxtFile disk_long "tables.txt" = (["Users"], None).
Proof.
  apply (txt_file_long_line_ends_the_list disk_long "tables.txt" ["Users"]
           long_line (lf +:+ "Orders" +:+ lf)).
  - apply Forall_cons_2; [|apply Forall_nil_2].
    apply plain_line_intro; [reflexivity|by vm_compute|by vm_compute].
  - apply long_line_no_line_feed.
  - apply Z.leb_le. by_evaluation.
  - by_evaluation.
Defined.

Lemma txt_file_crlf_lines_witness :
  readTxtFile disk_crlf "tables.txt" = (["Users"; "Orders"], None).
Proof.
  apply (txt_file_crlf_lines disk_crlf "tables.txt" ["Users"; "Orders"]).
  - repeat (apply Forall_cons_2;
            [split; [apply short_line; reflexivity|by vm_compute]|]).
    apply Forall_nil_2.
  - by_evaluation.
Defined.

Lemma txt_file_last_line_without_newline_witness :
  readTxtFile disk_noeol "tables.txt" = (["Users"; "Orders"], None).
Proof.
  apply (txt_file_last_line_without_newline disk_noeol "tables.txt" ["Users"] "Orders").
  - apply Forall_cons_2; [|apply Forall_nil_2].
    apply plain_line_intro; [reflexivity|by vm_compute|by vm_compute].
  - apply plain_line_intro; [reflexivity|by vm_compute|by vm_compute].
  - done.
  - by_evaluation.
Defined.

End TxtFile.

(* --------------------------------------------------------------------- *)
(** ** More on the clearing of the schema directory                       *)
(* --------------------------------------------------------------------- *)

Module ClearMore.
Import GoStrings OS Cmd Spec FsFacts PathFacts ClearFacts.

(** The directories on the way to the schema directory are in none of the
    categories: removing the categories does not change the way. *)
Lemma walk_filter_category dir σ : ∀ rest pre,
  pre ++ rest = clean_elems dir →
  walk (filter (λ kv, ¬ in_category dir kv.1) σ) (rooted dir) pre rest =
  walk σ (rooted dir) pre rest.
Proof.
  induction rest as [|x rest IH]; intros pre Hes; [done|]. cbn [walk].
  assert (Hn : node_at (filter (λ kv, ¬ in_category dir kv.1) σ)
                 (rooted dir, pre ++ [x])
               = node_at σ (rooted dir, pre ++ [x])).
  { unfold node_at. destruct (is_base (rooted dir, pre ++ [x])); [done|].
    destruct (σ !! (rooted dir, pre ++ [x])) as [n|] eqn:E.
    - apply map_lookup_filter_Some. split; [done|]. cbn [fst].
      unfold in_category. rewrite category_locs_eq, !Exists_cons, Exists_nil.
      unfold under. cbn [fst snd]. rewrite <- Hes.
      intros [[_ Hp]|[[_ Hp]|[[_ Hp]|[]]]];
        apply prefix_length in Hp; rewrite !length_app in Hp; cbn in Hp; lia.
    - apply map_lookup_filter_None. by left. }
  rewrite Hn. destruct (node_at σ (rooted dir, pre ++ [x])) as [[|]|]; try done.
  apply IH. by rewrite <- app_assoc.
Qed.

(** X12: a clearing that succeeds, in a tree: nothing is left in the three
    categories, and every other location is as before; the schema file and
    the configuration files in the schema directory are kept. *)
Theorem clear_removes_the_categories_only c σ σ' :
  wf σ → clearSchemaDir c σ = (σ', None) →
  (∀ k, in_category (schemaDirPath c) k → σ' !! k = None) ∧
  (∀ k, ¬ in_category (schemaDirPath c) k → σ' !! k = σ !! k).
Proof.
  intros Hwf H.
  split; intros k Hk; rewrite (clearSchemaDir_ok _ _ _ Hwf H k);
    by destruct (decide _).
Qed.

(** X14: clearing twice is clearing once: the same state and the same
    result. *)
Theorem clear_twice c σ :
  clearSchemaDir c (clearSchemaDir c σ).1 = clearSchemaDir c σ.
Proof.
  rewrite (clearSchemaDir_unfold c σ).
  destruct (walk σ _ [] _) as [e|] eqn:Hw.
  - assert (clearSchemaDir c σ = (σ, match e with ENOENT => None
                                     | _ => Some (PathError e) end)) as E.
    { rewrite clearSchemaDir_unfold, Hw. by destruct e. }
    by destruct e; cbn [fst]; rewrite E.
  - cbn [fst]. rewrite clearSchemaDir_unfold.
    rewrite walk_filter_category, Hw by done.
    f_equal. rewrite map_filter_filter. apply map_filter_ext.
    intros k n _. cbn. tauto.
Qed.

Lemma walk_app σ r a : ∀ pre b,
  walk σ r pre (a ++ b) =
  match walk σ r pre a with
  | Some e => Some e
  | None => walk σ r (pre ++ a) b
  end.
Proof.
  induction a as [|x a IH]; intros pre b.
  - by rewrite app_nil_r.
  - cbn [app walk]. destruct (node_at σ (r, pre ++ [x])) as [[|]|]; try done.
    by rewrite IH, <- app_assoc.
Qed.

(** X15: a regular file on the way to the category directories, the
    schema directory itself included ([os.Stat] of the table directory
    reports [ENOTDIR]): the clearing fails with this error and removes
    nothing.  A schema directory that does not exist ([os.Stat] of its
    cleaned path reports that) is no error, and nothing is changed. *)
Theorem clear_blocked_or_missing c σ :
  (Stat σ (filepath_Join (schemaDirPath c) dirTable) = inl ENOTDIR →
   clearSchemaDir c σ = (σ, Some (PathError ENOTDIR))) ∧
  (Stat σ (Clean (schemaDirPath c)) = inl ENOENT →
   clearSchemaDir c σ = (σ, None)).
Proof.
  split.
  - destruct (Join_child (schemaDirPath c) dirTable eq_refl) as [Hl _].
    rewrite (Stat_unfold _ _ _ _ Hl), removelast_last, clearSchemaDir_unfold.
    destruct (walk σ _ [] _) as [e|] eqn:Hw; [by intros [= ->]|].
    by destruct (node_at σ _).
  - intros Hs. rewrite clearSchemaDir_unfold.
    set (r := rooted (schemaDirPath c)) in *.
    destruct (clean_elems (schemaDirPath c)) as [|x es'] eqn:E.
    { exfalso. revert Hs. unfold Clean. rewrite E. fold r.
      destruct (String.eqb (schemaDirPath c) ""); [done|]. by destruct r. }
    pose proof (loc_of_Clean (schemaDirPath c)) as Hl.
    rewrite E in Hl. specialize (Hl ltac:(done)). fold r in Hl.
    set (es := x :: es') in *.
    assert (Hes : es ≠ []) by done.
    assert (walk σ r [] es = Some ENOENT) as ->; [|done].
    rewrite (app_removelast_last "" Hes), walk_app.
    destruct (Stat_missing _ _ _ _ Hl Hs) as [->|[-> Hn]]; [done|].
    cbn [walk app]. rewrite <- app_removelast_last by done.
    cbn [app] in Hn. by rewrite Hn.
Qed.

Import Sample.

Lemma clear_removes_the_categories_only_witness :
  (clearSchemaDir cmd disk_stale).1 !! (false, ["schema"; "table"; "Old.sql"]) = None ∧
  (clearSchemaDir cmd disk_stale).1 !! (false, ["schema"; "static_data_tables.txt"]) =
    disk_stale !! (false, ["schema"; "static_data_tables.txt"]).
Proof.
  destruct (clear_removes_the_categories_only cmd disk_stale
              (clearSchemaDir cmd disk_stale).1) as [Hin Hout].
  - apply wf_check_sound. vm_compute. reflexivity.
  - by_evaluation.
  - split; [apply Hin | apply Hout].
    + apply (bool_decide_eq_true_1 _). by_evaluation.
    + apply (bool_decide_eq_false_1 _). by_evaluation.
Defined.

Lemma clear_blocked_or_missing_witness :
  clearSchemaDir cmd disk_blocked = (disk_blocked, Some (PathError ENOTDIR)) ∧
  clearSchemaDir cmd ∅ = (∅, None).
Proof.
  split.
  - apply (proj1 (clear_blocked_or_missing cmd disk_blocked)). by_evaluation.
  - apply (proj2 (clear_blocked_or_missing cmd ∅)). by_evaluation.
Defined.

End ClearMore.

(* --------------------------------------------------------------------- *)
(** ** More on the writing of artifacts                                   *)
(* --------------------------------------------------------------------- *)

Module WriterMore.
Import GoStrings OS Cmd Spec FsFacts PathFacts ClearFacts.

(** what [mkdir] does to a location: nothing, or a new directory *)
Lemma mkdir_lookup σ p σ' e :
  mkdir σ p = (σ', e) →
  ∀ k, σ' !! k = σ !! k ∨ (σ !! k = None ∧ σ' !! k = Some (Dir perm0700)).
Proof.
  intros Hm k.
  destruct (mkdir_inv _ _ _ _ Hm)
    as [(n & _ & -> & _)|[(_ & -> & _)|(e1 & _ & _ & -> & _)]];
    [by left| |by left].
  unfold MkdirAll. destruct (loc_of p) as [[r es]|]; [|by left].
  destruct (mkdir_all σ r [] es perm0700) as [σ2 e2] eqn:E.
  destruct (mkdir_all_lookup _ _ _ _ _ _ _ E k) as [?|(? & ? & _)];
    [by left | by right].
Qed.

Lemma write_op_twice o σ σ' e :
  wf σ → write_op o σ = (σ', e) →
  ∃ e', write_op o σ' = (σ', e') ∧ (e = None ↔ e' = None).
Proof.
  intros Hwf H.
  pose proof (wf_write_op o σ Hwf) as Hwf'. rewrite H in Hwf'. cbn [fst] in Hwf'.
  destruct (write_op_replay σ' o σ σ' σ' e Hwf Hwf') as (b' & e' & Hb & He & HR);
    [by right | done | apply grows_refl | done |].
  exists e'. by rewrite Hb, (replays_same _ _ HR).
Qed.

Lemma write_op_failed o σ σ' e :
  write_op o σ = (σ', Some e) →
  ∀ k, σ' !! k = σ !! k ∨ (σ !! k = None ∧ σ' !! k = Some (Dir perm0700)).
Proof.
  intros H.
  destruct (write_op_inv _ _ _ _ H) as [(e0 & Hm & _)|(σ1 & Hm & Hw)].
  - by apply (mkdir_lookup _ _ _ _ Hm).
  - destruct (write_file_inv _ _ _ _ _ _ Hw) as ([e0|] & Hw' & He); [|done].
    rewrite (WriteFile_error _ _ _ _ _ _ Hw'). by apply (mkdir_lookup _ _ _ _ Hm).
Qed.

(** X17: writing a schema object twice is writing it once: the second
    call leaves the tree of the first as it is, and fails exactly if the
    first failed. *)
Theorem writeDDL_twice ddl dir σ σ' e :
  wf σ → writeDDL ddl dir σ = (σ', e) →
  ∃ e', writeDDL ddl dir σ' = (σ', e') ∧ (e = None ↔ e' = None).
Proof. apply (write_op_twice (ddl_op dir ddl)). Qed.

(** X18: the same for the static data of a table. *)
Theorem writeData_twice ToFileName d dir σ σ' e :
  wf σ → writeData ToFileName d dir σ = (σ', e) →
  ∃ e', writeData ToFileName d dir σ' = (σ', e') ∧ (e = None ↔ e' = None).
Proof. apply (write_op_twice (data_op ToFileName dir d)). Qed.

Import Sample.

Lemma writeDDL_twice_witness :
  ∃ e', writeDDL users "schema" (writeDDL users "schema" disk_stale).1 =
          ((writeDDL users "schema" disk_stale).1, e') ∧
        (@None error = None ↔ e' = None).
Proof.
  apply (writeDDL_twice users "schema" disk_stale
           (writeDDL users "schema" disk_stale).1 None).
  - apply wf_check_sound. vm_compute. reflexivity.
  - by_evaluation.
Defined.

Lemma writeData_twice_witness :
  ∃ e', writeData fileName (rows "Users") "schema"
          (writeData fileName (rows "Users") "schema" disk_stale).1 =
          ((writeData fileName (rows "Users") "schema" disk_stale).1, e') ∧
        (@None error = None ↔ e' = None).
Proof.
  apply (writeData_twice fileName (rows "Users") "schema" disk_stale
           (writeData fileName (rows "Users") "schema" disk_stale).1 None).
  - apply wf_check_sound. vm_compute. reflexivity.
  - by_evaluation.
Defined.

End WriterMore.

(* --------------------------------------------------------------------- *)
(** ** More on the two commands                                           *)
(* --------------------------------------------------------------------- *)

Module CommandsMore.
Import GoStrings OS Cmd Spec FsFacts PathFacts ClearFacts.

(** After a loop of writes that succeeds every object has its file; the
    content is that of an object of the loop written to this location. *)
Lemma iter_ops_last {A} (f : A → fs → fs * option error)
    (g : A → string * string * string * Z) xs :
  (∀ x σ, f x σ = write_op (g x) σ) →
  ∀ σ σ', iter_ops f xs σ = (σ', None) →
  ∀ x, x ∈ xs →
  ∃ l m content,
    loc_of (g x).1.1.2 = Some l ∧ σ' !! l = Some (File m content) ∧
    ∃ y, y ∈ xs ∧ loc_of (g y).1.1.2 = Some l ∧ content = (g y).1.2.
Proof.
  intros Hf. induction xs as [|a xs IH]; intros σ σ' H x Hx.
  - by apply elem_of_nil in Hx.
  - cbn [iter_ops] in H. destruct (f a σ) as [σ1 [e|]] eqn:E; [done|].
    rewrite Hf in E. apply elem_of_cons in Hx as [->|Hx].
    + destruct (Writer.write_op_ok _ _ _ E) as (l & m & Hl & Hσ1 & _ & _).
      destruct (iter_ops_grows f g Hf xs _ _ _ H _ _ Hσ1) as (n' & Hn' & Hsim).
      destruct n' as [m' c'|]; [|done]. cbn in Hsim. subst m'.
      exists l, m, c'. split; [done|]. split; [done|].
      destruct (Discrete.iter_ops_file f g xs Hf _ _ _ _ _ _ H Hn')
        as [Hold|(y & Hy & Hly & ->)].
      * exists a. split; [apply list_elem_of_here|]. split; [done|]. congruence.
      * exists y. split; [by apply list_elem_of_further|done].
    + destruct (IH _ _ H x Hx) as (l & m & content & Hl & Hk & y & Hy & Hly & ->).
      exists l, m, (g y).1.2. split; [done|]. split; [done|].
      exists y. split; [by apply list_elem_of_further|done].
Qed.

(** Writing again, with the same content, the file that was written *)
Lemma WriteFile_twice σ p data perm σ' e :
  WriteFile σ p data perm = (σ', e) → WriteFile σ' p data perm = (σ', e).
Proof.
  intros H. pose proof (WriteFile_grows _ _ _ _ _ _ H) as HG.
  destruct (WriteFile_inv _ _ _ _ _ _ H)
    as [[_ ->]|(-> & r & es & x & m & Hl & Hw & Hb & _ & ->)]; [done|].
  unfold WriteFile, resolve. rewrite Hl.
  assert (walk (<[(r, es ++ [x]) := File m data]> σ) r []
               (removelast (es ++ [x])) = None) as ->.
  { apply walk_None. intros i Hi.
    destruct (proj1 (walk_None _ _ _ _) Hw i Hi) as [m' Hd].
    exists m'. by apply (grows_node_at _ _ _ _ HG). }
  rewrite (node_at_lookup _ _ Hb), lookup_insert_eq.
  by rewrite insert_insert_eq.
Qed.

Section CommandsMore.

Variable defaultStaticDataTablesFile : string.
Variable schemaFilePath : Command → string.
Variable staticDataTablesFilePath : Command → string.
Variable newSpannerClient : Command → result Client.
Variable ToFileName : StaticData → string.
Variable json_Unmarshal : string → staticDataConfig * option error.

Abbreviation loadDiscrete :=
  (Cmd.loadDiscrete defaultStaticDataTablesFile staticDataTablesFilePath
     newSpannerClient ToFileName json_Unmarshal).
Abbreviation load := (Cmd.load schemaFilePath newSpannerClient).
Abbreviation writeData := (Cmd.writeData ToFileName).
Abbreviation readConfig :=
  (Cmd.readStaticDataTablesFile defaultStaticDataTablesFile json_Unmarshal).

(** X20: after a discrete export that succeeds, every schema object the
    provider returned and every static data set it returned for the
    configuration the run resolved has its file; the file holds what an
    object of the run wrote to this location (the object itself, unless
    another one has the same path). *)
Theorem every_object_is_exported c w w' client ddls :
  newSpannerClient c = inr client → LoadDDLs client = inr ddls →
  loadDiscrete c w = (inr tt, w') →
  ∃ config datas,
    readConfig (schema_phase c ddls (files w)) (staticDataTablesFilePath c)
      = (config, None) ∧
    LoadStaticDatas client (StaticDataTables config) (CustomOrderBy config)
      = inr datas ∧
    (∀ ddl, ddl ∈ ddls →
       ∃ l m content,
         loc_of (ddl_path (schemaDirPath c) ddl) = Some l ∧
         files w' !! l = Some (File m content) ∧
         ((∃ ddl', ddl' ∈ ddls ∧
                   loc_of (ddl_path (schemaDirPath c) ddl') = Some l ∧
                   content = Statement ddl') ∨
          (∃ d, d ∈ datas ∧
                loc_of (data_path ToFileName (schemaDirPath c) d) = Some l ∧
                content = Join (Statements d) (String "010" "")))) ∧
    (∀ d, d ∈ datas →
       ∃ l m content,
         loc_of (data_path ToFileName (schemaDirPath c) d) = Some l ∧
         files w' !! l = Some (File m content) ∧
         ∃ d', d' ∈ datas ∧
               loc_of (data_path ToFileName (schemaDirPath c) d') = Some l ∧
               content = Join (Statements d') (String "010" "")).
Proof.
  intros Hc Hd. rewrite Discrete.loadDiscrete_unfold, Hc, Hd. cbv zeta.
  destruct (clearSchemaDir c (files w)) as [σ1 [e|]] eqn:Hcl; [done|].
  destruct (iter_ops _ ddls σ1) as [σ2 [e|]] eqn:Hit; [done|].
  destruct (Cmd.readStaticDataTablesFile _ _ σ2 _) as [config [e|]] eqn:Hcfg;
    [done|].
  destruct (LoadStaticDatas client _ _) as [e|datas] eqn:Hls; [done|].
  destruct (iter_ops _ datas σ2) as [σ3 [e|]] eqn:Hitw; [done|].
  intros [= <-]. exists config, datas. split.
  { unfold schema_phase. rewrite Hcl. cbn [fst]. by rewrite Hit. }
  split; [done|]. cbn [files].
  pose proof (Discrete.writeDDL_is_write (schemaDirPath c)) as Hfd.
  pose proof (Discrete.writeData_is_write ToFileName (schemaDirPath c)) as Hfw.
  split.
  - intros ddl Hddl.
    destruct (iter_ops_last _ _ ddls Hfd _ _ Hit ddl Hddl)
      as (l & m & content & Hl & Hk & y & Hy & Hly & ->).
    destruct (iter_ops_grows _ _ Hfw datas _ _ _ Hitw _ _ Hk) as (n' & Hn' & Hsim).
    destruct n' as [m' c'|]; [|done]. cbn in Hsim. subst m'.
    exists l, m, c'. split; [done|]. split; [done|].
    destruct (Discrete.iter_ops_file _ _ datas Hfw _ _ _ _ _ _ Hitw Hn')
      as [Hold|(d & Hd' & Hld & ->)].
    + left. exists y. split; [done|]. split; [done|]. cbn in *. congruence.
    + right. by exists d.
  - intros d Hd'.
    destruct (iter_ops_last _ _ datas Hfw _ _ Hitw d Hd')
      as (l & m & content & Hl & Hk & y & Hy & Hly & ->).
    exists l, m, (data_op ToFileName (schemaDirPath c) y).1.2.
    split; [done|]. split; [done|]. by exists y.
Qed.

(** X21: the error of the connection is the only one the discrete export
    returns as it is, and nothing has been done then; every other error is
    wrapped in the error of the command. *)
Theorem discrete_errors_are_wrapped c w e w' :
  loadDiscrete c w = (inl e, w') →
  (newSpannerClient c = inl e ∧ w' = w) ∨
  ((∃ client, newSpannerClient c = inr client) ∧ ∃ e0, e = CmdError e0).
Proof.
  rewrite Discrete.loadDiscrete_unfold.
  destruct (newSpannerClient c) as [e1|client]; [intros [= <- <-]; by left|].
  intros H. right. split; [by exists client|]. revert H.
  destruct (LoadDDLs client) as [e1|ddls]; [intros [= <- _]; by eexists|].
  cbv zeta.
  destruct (clearSchemaDir c (files w)) as [σ1 [e1|]]; [intros [= <- _]; by eexists|].
  destruct (iter_ops _ ddls σ1) as [σ2 [e1|]]; [intros [= <- _]; by eexists|].
  destruct (Cmd.readStaticDataTablesFile _ _ σ2 _) as [config [e1|]];
    [intros [= <- _]; by eexists|].
  destruct (LoadStaticDatas client _ _) as [e1|datas]; [intros [= <- _]; by eexists|].
  destruct (iter_ops _ datas σ2) as [σ3 [e1|]]; [intros [= <- _]; by eexists|].
  done.
Qed.

(** X22: the export of the schema as one file, twice: the second run
    returns what the first returned and leaves the file system of the
    first as it is. *)
Theorem load_twice c w :
  (load c (load c w).2).1 = (load c w).1 ∧
  files (load c (load c w).2).2 = files (load c w).2.
Proof.
  rewrite !Writer.load_unfold.
  destruct (newSpannerClient c) as [e|client] eqn:Hc; cbn [fst snd]; [done|].
  destruct (LoadDDL client) as [e|blob] eqn:Hd; cbn [fst snd files]; [done|].
  cbv zeta.
  destruct (WriteFile (files w) (schemaFilePath c) blob perm0664) as [σ' e] eqn:HW.
  pose proof (WriteFile_twice _ _ _ _ _ _ HW) as HW2.
  destruct e as [e|]; cbn [fst snd files]; by rewrite HW2.
Qed.

End CommandsMore.

Import Sample.

Lemma every_object_is_exported_witness :
  ∃ config datas,
    Cmd.readStaticDataTablesFile defaultFile Json.Unmarshal
      (schema_phase cmd [users; usersByName] (files world0)) (tablesFile cmd)
      = (config, None) ∧
    LoadStaticDatas client (StaticDataTables config) (CustomOrderBy config)
      = inr datas ∧
    (∀ ddl, ddl ∈ [users; usersByName] →
       ∃ l m content,
         loc_of (ddl_path "schema" ddl) = Some l ∧
         files (export_discrete world0).2 !! l = Some (File m content) ∧
         ((∃ ddl', ddl' ∈ [users; usersByName] ∧
                   loc_of (ddl_path "schema" ddl') = Some l ∧
                   content = Statement ddl') ∨
          (∃ d, d ∈ datas ∧
                loc_of (data_path fileName "schema" d) = Some l ∧
                content = Join (Statements d) (String "010" "")))) ∧
    (∀ d, d ∈ datas →
       ∃ l m content,
         loc_of (data_path fileName "schema" d) = Some l ∧
         files (export_discrete world0).2 !! l = Some (File m content) ∧
         ∃ d', d' ∈ datas ∧
               loc_of (data_path fileName "schema" d') = Some l ∧
               content = Join (Statements d') (String "010" "")).
Proof.
  apply (every_object_is_exported defaultFile tablesFile connected fileName
           Json.Unmarshal cmd world0 (export_discrete world0).2 client
           [users; usersByName]).
  - reflexivity.
  - reflexivity.
  - by_evaluation.
Defined.

Lemma discrete_errors_are_wrapped_witness :
  (connected cmd = inl (CmdError (PathError ENOTDIR)) ∧
   (export_discrete (mkWorld disk_blocked [])).2 = mkWorld disk_blocked []) ∨
  ((∃ client, connected cmd = inr client) ∧ ∃ e0, CmdError (PathError ENOTDIR) = CmdError e0).
Proof.
  apply (discrete_errors_are_wrapped defaultFile tablesFile connected fileName
           Json.Unmarshal cmd (mkWorld disk_blocked [])
           (CmdError (PathError ENOTDIR))
           (export_discrete (mkWorld disk_blocked [])).2).
  by_evaluation.
Defined.

End CommandsMore.

(* --------------------------------------------------------------------- *)
(** ** What the discrete export leaves alone                              *)
(* --------------------------------------------------------------------- *)

Module Confinement.
Import GoStrings OS Cmd Spec FsFacts PathFacts ClearFacts.

(** a file in a directory of the schema directory *)
Lemma child_of_child dir sub name :
  plain_name sub = true → plain_name name = true →
  loc_of (filepath_Join (filepath_Join dir sub) name) =
    Some (rooted dir, (clean_elems dir ++ [sub]) ++ [name]).
Proof.
  intros Hsub Hname.
  destruct (Join_child dir sub Hsub) as [Hl _].
  destruct (Join_child (filepath_Join dir sub) name Hname) as [-> _].
  unfold loc_of in Hl.
  destruct (String.eqb (filepath_Join dir sub) ""); [done|].
  injection Hl as -> ->. done.
Qed.

Lemma in_category_child dir sub name :
  sub ∈ [dirTable; dirIndex; dirStaticData] →
  in_category dir (rooted dir, (clean_elems dir ++ [sub]) ++ [name]).
Proof.
  intros Hsub. unfold in_category.
  rewrite category_locs_eq, !Exists_cons, Exists_nil.
  assert (under (rooted dir, clean_elems dir ++ [sub])
                (rooted dir, (clean_elems dir ++ [sub]) ++ [name])) as Hu.
  { split; [done|]. by eexists. }
  rewrite !elem_of_cons, elem_of_nil in Hsub.
  destruct Hsub as [->|[->|[->|[]]]]; tauto.
Qed.

Lemma write_op_outside (dir : string) o σ σ' e :
  (∃ l, loc_of o.1.1.2 = Some l ∧ in_category dir l) →
  write_op o σ = (σ', e) →
  ∀ k, ¬ in_category dir k →
       σ' !! k = σ !! k ∨ (σ !! k = None ∧ σ' !! k = Some (Dir perm0700)).
Proof.
  intros (l & Hl & Hin) H k Hk. destruct e as [e|].
  - by apply (WriterMore.write_op_failed _ _ _ _ H).
  - destruct (Writer.write_op_ok _ _ _ H) as (l' & m & Hl' & _ & _ & Hrest).
    apply Hrest. intros ->. congruence.
Qed.

Lemma iter_ops_outside {A} (dir : string) (f : A → fs → fs * option error)
    (g : A → string * string * string * Z) xs :
  (∀ x σ, f x σ = write_op (g x) σ) →
  (∀ x, x ∈ xs → ∃ l, loc_of (g x).1.1.2 = Some l ∧ in_category dir l) →
  ∀ σ σ' e, iter_ops f xs σ = (σ', e) →
  ∀ k, ¬ in_category dir k →
       σ' !! k = σ !! k ∨ (σ !! k = None ∧ σ' !! k = Some (Dir perm0700)).
Proof.
  intros Hf. induction xs as [|a xs IH]; intros Hin σ σ' e H k Hk.
  - injection H as <- _. by left.
  - cbn [iter_ops] in H. destruct (f a σ) as [σ1 e1] eqn:E. rewrite Hf in E.
    pose proof (write_op_outside dir _ _ _ _
                  (Hin a ltac:(apply list_elem_of_here)) E k Hk) as H1.
    destruct e1 as [e1|]; [by injection H as <- _|].
    assert (Hin' : ∀ x, x ∈ xs → ∃ l, loc_of (g x).1.1.2 = Some l ∧ in_category dir l).
    { intros x Hx. apply Hin. by apply list_elem_of_further. }
    destruct (IH Hin' _ _ _ H k Hk) as [H2|[H2 H2']];
      destruct H1 as [H1|[H1 H1']].
    + left. congruence.
    + right. split; congruence.
    + right. split; congruence.
    + congruence.
Qed.

Section Confinement.

Variable defaultStaticDataTablesFile : string.
Variable staticDataTablesFilePath : Command → string.
Variable newSpannerClient : Command → result Client.
Variable ToFileName : StaticData → string.
Variable json_Unmarshal : string → staticDataConfig * option error.

Abbreviation loadDiscrete :=
  (Cmd.loadDiscrete defaultStaticDataTablesFile staticDataTablesFilePath
     newSpannerClient ToFileName json_Unmarshal).
Abbreviation readConfig :=
  (Cmd.readStaticDataTablesFile defaultStaticDataTablesFile json_Unmarshal).

(** X23: when the schema objects are tables and indexes and the file
    names (of the objects, and of the static data fetched for the
    configuration the run resolves) are plain names, the discrete export, whether it succeeds or
    fails, changes and removes nothing outside the three category
    directories: a location outside them is as before, or is a directory
    created with mode [0700].  The schema file and the configuration files
    in the schema directory are left alone. *)
Theorem discrete_export_is_confined c w :
  (∀ client ddls ddl,
     newSpannerClient c = inr client → LoadDDLs client = inr ddls →
     ddl ∈ ddls →
     ObjectType ddl ∈ [dirTable; dirIndex] ∧ plain_name (Filename ddl) = true) →
  (∀ client ddls config datas d,
     newSpannerClient c = inr client → LoadDDLs client = inr ddls →
     readConfig (schema_phase c ddls (files w)) (staticDataTablesFilePath c)
       = (config, None) →
     LoadStaticDatas client (StaticDataTables config) (CustomOrderBy config)
       = inr datas →
     d ∈ datas → plain_name (ToFileName d) = true) →
  ∀ k, ¬ in_category (schemaDirPath c) k →
       files (loadDiscrete c w).2 !! k = files w !! k ∨
       (files w !! k = None ∧
        files (loadDiscrete c w).2 !! k = Some (Dir perm0700)).
Proof.
  intros Hddls Hnames k Hk. rewrite Discrete.loadDiscrete_unfold.
  destruct (newSpannerClient c) as [e|client] eqn:Hc; [by left|].
  destruct (LoadDDLs client) as [e|ddls] eqn:Hd; [by left|]. cbv zeta.
  pose proof (Discrete.writeDDL_is_write (schemaDirPath c)) as Hfd.
  pose proof (Discrete.writeData_is_write ToFileName (schemaDirPath c)) as Hfw.
  assert (Hclear : (clearSchemaDir c (files w)).1 !! k = files w !! k).
  { rewrite clearSchemaDir_unfold.
    destruct (walk (files w) _ [] _) as [[]|]; try done. cbn [fst].
    destruct (files w !! k) as [n|] eqn:E.
    - apply map_lookup_filter_Some. by split.
    - apply map_lookup_filter_None. by left. }
  destruct (clearSchemaDir c (files w)) as [σ1 e1] eqn:Hcl. cbn [fst] in Hclear.
  destruct e1 as [e1|]; [left; by cbn|].
  assert (Hin1 : ∀ ddl, ddl ∈ ddls →
            ∃ l, loc_of (ddl_op (schemaDirPath c) ddl).1.1.2 = Some l ∧
                 in_category (schemaDirPath c) l).
  { intros ddl Hddl. destruct (Hddls _ _ _ eq_refl Hd Hddl) as [Ht Hn].
    rewrite !elem_of_cons, elem_of_nil in Ht.
    assert (plain_name (ObjectType ddl) = true ∧
            ObjectType ddl ∈ [dirTable; dirIndex; dirStaticData]) as [Hp H3].
    { destruct Ht as [->|[->|[]]]; (split; [done|]); rewrite !elem_of_cons; tauto. }
    eexists. split; [by apply child_of_child | by apply in_category_child]. }
  destruct (iter_ops _ ddls σ1) as [σ2 e2] eqn:Hit.
  pose proof (iter_ops_outside _ _ _ ddls Hfd Hin1 _ _ _ Hit k Hk) as H2.
  rewrite Hclear in H2.
  destruct e2 as [e2|]; [by cbn|].
  assert (Hσ2 : schema_phase c ddls (files w) = σ2).
  { unfold schema_phase. rewrite Hcl. cbn [fst]. by rewrite Hit. }
  destruct (Cmd.readStaticDataTablesFile _ _ σ2 _) as [config [e|]] eqn:Hcfg;
    [by cbn|].
  destruct (LoadStaticDatas client _ _) as [e|datas] eqn:Hls; [by cbn|].
  cbn [snd files].
  assert (Hin2 : ∀ d, d ∈ datas →
            ∃ l, loc_of (data_op ToFileName (schemaDirPath c) d).1.1.2 = Some l ∧
                 in_category (schemaDirPath c) l).
  { intros d Hd'. eexists. split.
    - apply child_of_child; [done|].
      apply (Hnames client ddls config datas d); try done. by rewrite Hσ2.
    - apply in_category_child. rewrite !elem_of_cons. tauto. }
  destruct (iter_ops _ datas σ2) as [σ3 e3] eqn:Hitw. cbn [fst].
  pose proof (iter_ops_outside _ _ _ datas Hfw Hin2 _ _ _ Hitw k Hk) as H3.
  destruct H3 as [H3|[H3 H3']]; destruct H2 as [H2|[H2 H2']].
  - left. congruence.
  - right. split; congruence.
  - right. split; congruence.
  - congruence.
Qed.

End Confinement.

Import Sample.

Lemma discrete_export_is_confined_witness :
  files (export_discrete world0).2 !! (false, ["schema"; "static_data_tables.txt"]) =
    files world0 !! (false, ["schema"; "static_data_tables.txt"]) ∨
  (files world0 !! (false, ["schema"; "static_data_tables.txt"]) = None ∧
   files (export_discrete world0).2 !! (false, ["schema"; "static_data_tables.txt"]) =
     Some (Dir perm0700)).
Proof.
  apply (discrete_export_is_confined defaultFile tablesFile connected fileName
           Json.Unmarshal cmd world0);
    [| |apply (bool_decide_eq_false_1 _); by_evaluation].
  - intros client' ddls ddl [= <-] [= <-] Hddl.
    rewrite !elem_of_cons, elem_of_nil in Hddl.
    destruct Hddl as [->|[->|[]]]; (split; [|reflexivity]);
      rewrite !elem_of_cons; [left|right; left]; reflexivity.
  - intros client' ddls config datas d [= <-] [= <-] Hcfg Hls Hd.
    assert (Cmd.readStaticDataTablesFile defaultFile Json.Unmarshal
              (schema_phase cmd [users; usersByName] (files world0))
              (tablesFile cmd) = (mkConfig ["Users"; "Orders"] ∅, None)) as E
      by by_evaluation.
    rewrite E in Hcfg. injection Hcfg as <-.
    injection Hls as <-. cbn [StaticDataTables map] in Hd.
    rewrite !elem_of_cons, elem_of_nil in Hd.
    destruct Hd as [->|[->|[]]]; reflexivity.
Defined.

End Confinement.
